(** * Policy based mutexes (ib0mutex.h) and the companion generator (my_rnd.cc)

    A shallow embedding of
      - [mysys_ssl/my_rnd.cc]: [my_rnd_init], [my_rnd], [my_rnd_ssl];
      - [storage/innobase/include/ib0mutex.h]: [OSTrackMutex],
        [TTASFutexMutex], [TTASMutex], [TTASEventMutex], [PolicyMutex].

    Integers of the program are [Z] with the wrap-around of their C type
    written out; [double] is IEEE 754 binary64 as specified by the
    standard library's [SpecFloat] (round to nearest even). *)

From Stdlib Require Import Strings.String.
From Stdlib Require Import ZArith List Bool Lia.
From Stdlib Require Import Floats.SpecFloat.
Import ListNotations.

Open Scope Z_scope.

(* ================================================================== *)
(** * C scalar types *)

Module CTypes.

(** [uint32_t]: arithmetic modulo [2^32]. *)
Definition uint32 (z : Z) : Z := z mod 2 ^ 32.

(** [UINT_MAX] for a 32 bit [unsigned int]. *)
Definition UINT_MAX : Z := 2 ^ 32 - 1.

(** [double]: binary64. *)
Definition double : Type := spec_float.
Definition dprec : Z := 53.
Definition demax : Z := 1024.

(** The conversion [(double) z] of an integer. *)
Definition double_of_Z (z : Z) : double := binary_normalize dprec demax z 0 false.

(** The division [x / y] of two doubles. *)
Definition double_div (x y : double) : double := SFdiv dprec demax x y.

Definition double_zero : double := S754_zero false.
Definition double_one : double := SFone dprec demax.
Definition double_ltb (x y : double) : bool := SFltb x y.
Definition double_leb (x y : double) : bool := SFleb x y.

End CTypes.

(* ================================================================== *)
(** * my_rnd.cc *)

Module MyRnd.
Import CTypes.

(** [struct my_rnd_struct] of my_rnd.h: the three [unsigned long] fields and
    the cached [double] of [max_value]. *)
Record my_rnd_struct : Type := mk_rnd {
  seed1 : Z;
  seed2 : Z;
  max_value : Z;
  max_value_dbl : double
}.

(** Outcome of the call to the library generator at my_rnd.cc:92/94: the
    [int] it returns and the [unsigned int] it leaves in [res]. *)
Record rand_bytes_result : Type := mk_rand_bytes {
  rc : Z;
  res : Z
}.

Section ULong.

(** Width of [unsigned long] (32 on ILP32 and LLP64, 64 on LP64). *)
Variable ulong_bits : Z.

Definition ulong (z : Z) : Z := z mod 2 ^ ulong_bits.

(** my_rnd.cc:47-56.  The incoming structure is overwritten field by
    field. *)
Definition my_rnd_init (rand_st : my_rnd_struct) (s1 s2 : Z) : my_rnd_struct :=
  let st1 := mk_rnd (seed1 rand_st) (seed2 rand_st) 0x3FFFFFFF (max_value_dbl rand_st) in
  let st2 := mk_rnd (seed1 st1) (seed2 st1) (max_value st1) (double_of_Z (max_value st1)) in
  let st3 := mk_rnd (ulong s1 mod max_value st2) (seed2 st2) (max_value st2) (max_value_dbl st2) in
  mk_rnd (seed1 st3) (ulong s2 mod max_value st3) (max_value st3) (max_value_dbl st3).

(** my_rnd.cc:66-71.  [%] by zero is undefined in C: [None]. *)
Definition my_rnd (rand_st : my_rnd_struct) : option (double * my_rnd_struct) :=
  if max_value rand_st =? 0 then None
  else
    let st1 :=
      mk_rnd (ulong (ulong (seed1 rand_st * 3) + seed2 rand_st) mod max_value rand_st)
             (seed2 rand_st) (max_value rand_st) (max_value_dbl rand_st) in
    let st2 :=
      mk_rnd (seed1 st1)
             (ulong (ulong (seed1 st1 + seed2 st1) + 33) mod max_value st1)
             (max_value st1) (max_value_dbl st1) in
    Some (double_div (double_of_Z (seed1 st2)) (max_value_dbl st2), st2).

(** my_rnd.cc:84-101.  [ssl] is [None] in a build with neither
    HAVE_YASSL nor HAVE_OPENSSL, and otherwise the outcome of
    [RAND_bytes]. *)
Definition my_rnd_ssl (ssl : option rand_bytes_result) (rand_st : my_rnd_struct)
  : option (double * my_rnd_struct) :=
  match ssl with
  | Some r =>
      if negb (rc r =? 0)
      then Some (double_div (double_of_Z (res r)) (double_of_Z UINT_MAX), rand_st)
      else my_rnd rand_st
  | None => my_rnd rand_st
  end.

(** A caller: a sequence of calls on one [my_rnd_struct], each with the
    value it returned. *)
Inductive call : Type :=
| CallRnd
| CallRndSsl (ssl : option rand_bytes_result).

Definition do_call (c : call) (rand_st : my_rnd_struct) : option (double * my_rnd_struct) :=
  match c with
  | CallRnd => my_rnd rand_st
  | CallRndSsl ssl => my_rnd_ssl ssl rand_st
  end.

Fixpoint do_calls (cs : list call) (rand_st : my_rnd_struct)
  : option (list (call * double) * my_rnd_struct) :=
  match cs with
  | [] => Some ([], rand_st)
  | c :: cs' =>
      match do_call c rand_st with
      | None => None
      | Some (v, st') =>
          match do_calls cs' st' with
          | None => None
          | Some (out, st'') => Some ((c, v) :: out, st'')
          end
      end
  end.

End ULong.

(** The call to the library generator succeeded, as [my_rnd_ssl] tests it. *)
Definition ssl_succeeded (c : call) : bool :=
  match c with
  | CallRndSsl (Some r) => negb (rc r =? 0)
  | _ => false
  end.

(** The values returned by the calls of [my_rnd] in a sequence. *)
Fixpoint my_rnd_values (out : list (call * double)) : list double :=
  match out with
  | [] => []
  | (CallRnd, v) :: out' => v :: my_rnd_values out'
  | (CallRndSsl _, _) :: out' => my_rnd_values out'
  end.

(** A state as [my_rnd_init] leaves it. *)
Definition initialised (st : my_rnd_struct) : Prop :=
  max_value st = 0x3FFFFFFF /\
  max_value_dbl st = double_of_Z 0x3FFFFFFF /\
  0 <= seed1 st < 0x3FFFFFFF /\
  0 <= seed2 st < 0x3FFFFFFF.

End MyRnd.

(* ================================================================== *)
(** * Execution model of one thread

    A member function runs as one thread of a preemptive system.  Its
    effects are threaded through a [world]: the object it works on, the
    interferences of the other threads still to come, and the calls made to
    external primitives so far.  Every access to a shared word is preceded
    by the next interference (none when the list is empty), so the empty
    list gives the single-threaded run and an arbitrary list an arbitrary
    interleaving with the accesses of this thread. *)

Module Exec.

(** Memory order arguments of the [_explicit] atomics (my_atomic.h). *)
Inductive memory_order : Type :=
| MY_MEMORY_ORDER_RELAXED
| MY_MEMORY_ORDER_ACQUIRE
| MY_MEMORY_ORDER_RELEASE.

(** Operation argument of [start_mutex_wait]. *)
Inductive psi_mutex_operation : Type :=
| PSI_MUTEX_LOCK
| PSI_MUTEX_TRYLOCK.

(** Calls that leave ib0mutex.h, with their arguments and, for those that
    return one, the value returned. *)
Inductive event : Type :=
| EvCas32 (old expected desired : Z) (success failure : memory_order)
| EvFas32 (old newval : Z) (order : memory_order)
| EvStore32 (newval : Z) (order : memory_order)
| EvFasLong (old newval : Z)
| EvStoreLong (newval : Z)
| EvReadLockWord (v : Z)
| EvReadWaiters (v : Z)
| EvWriteWaiters (v : Z)
| EvRmb
| EvWmb
| EvFutexWait (val : Z)
| EvFutexWake (n : Z)
| EvDelay (max_delay : Z)
| EvYield
| EvSyncArrayReserve
| EvSyncArrayFree
| EvSyncArrayWaitEvent
| EvEventCreate (id : Z) (handle : Z)
| EvEventDestroy (handle : Z)
| EvSignal (handle : Z)
| EvOSMutexInit
| EvOSMutexDestroy
| EvOSMutexEnter
| EvOSMutexTryLock (acquired : bool)
| EvOSMutexExit
| EvPolicyInit (id : Z) (filename : string) (line : Z)
| EvPolicyEnter (name : string) (line : Z)
| EvPolicyLocked (name : string) (line : Z)
| EvPolicyRelease
| EvPolicyAdd (n_spins n_waits : Z)
| EvPolicyDestroy
| EvPsiInit (key : Z) (handle : Z)
| EvPsiDestroy (handle : Z)
| EvPsiStart (handle : Z) (op : psi_mutex_operation) (name : string) (line : Z) (locker : Z)
| EvPsiEnd (locker : Z) (rc : Z)
| EvPsiUnlock (handle : Z).

Record world (S : Type) : Type := mk_world {
  w_state : S;
  w_env : list (S -> S);
  w_trace : list event
}.
Arguments mk_world {S} _ _ _.
Arguments w_state {S} _.
Arguments w_env {S} _.
Arguments w_trace {S} _.

(** How a call ends, and the world it ends in: it returns, an assertion
    ([ut_a], or [ut_ad] in a debug build) stops the process, or it is still
    spinning or blocked when the fuel of its unbounded loop is used up. *)
Inductive outcome (S A : Type) : Type :=
| Returned (a : A) (w : world S)
| Aborted (w : world S)
| Pending (w : world S).
Arguments Returned {S A} _ _.
Arguments Aborted {S A} _.
Arguments Pending {S A} _.

(** The code of a member function on an object of type [S], as the sequence
    of its indivisible actions.  [Act B shared f ev k]: one action [f] on the
    object, which yields a [B] and makes the external calls [ev]; [shared]
    tells that it accesses a word other threads write; then [k].  [Stop]: an
    assertion failed.  [Block]: still spinning or blocked at the end of the
    fuel. *)
Inductive prog (S A : Type) : Type :=
| Ret (a : A)
| Act (B : Type) (shared : bool) (f : S -> B * S) (ev : S -> B -> list event)
      (k : B -> prog S A)
| Stop
| Block.
Arguments Ret {S A} _.
Arguments Act {S A} _ _ _ _ _.
Arguments Stop {S A}.
Arguments Block {S A}.

Definition M (S A : Type) : Type := prog S A.

Definition ret {S A : Type} (a : A) : M S A := Ret a.

Fixpoint bind {S A B : Type} (c : M S A) (k : A -> M S B) : M S B :=
  match c with
  | Ret a => k a
  | Act X shared f ev k' => Act X shared f ev (fun x => bind (k' x) k)
  | Stop => Stop
  | Block => Block
  end.

Definition abort {S A : Type} : M S A := Stop.
Definition pending {S A : Type} : M S A := Block.

(** An external call that touches no word of the object. *)
Definition emit {S : Type} (e : event) : M S unit :=
  Act unit false (fun s => (tt, s)) (fun _ _ => [e]) Ret.

(** Access by the running thread to the object as it is now. *)
Definition get {S : Type} : M S S :=
  Act S false (fun s => (s, s)) (fun _ _ => []) Ret.

Definition modify {S : Type} (f : S -> S) : M S unit :=
  Act unit false (fun s => (tt, f s)) (fun _ _ => []) Ret.

(** One indivisible access to a shared word. *)
Definition atomically {S A : Type} (f : S -> A * S) (ev : S -> A -> list event) : M S A :=
  Act A true f ev Ret.

(** [ut_a(EXPR)]: the process stops when [EXPR] is false. *)
Definition ut_a {S : Type} (b : S -> bool) : M S unit :=
  Act bool false (fun s => (b s, s)) (fun _ _ => [])
      (fun holds => if holds : bool then Ret tt else Stop).

(** [ut_ad(EXPR)]: [ut_a] in a build with UNIV_DEBUG, nothing otherwise. *)
Definition ut_ad {S : Type} (univ_debug : bool) (b : S -> bool) : M S unit :=
  if univ_debug then ut_a b else ret tt.

(** [ut_d(EXPR)]: the statement [EXPR] in a build with UNIV_DEBUG, nothing
    otherwise. *)
Definition ut_d {S : Type} (univ_debug : bool) (f : S -> S) : M S unit :=
  if univ_debug then modify f else ret tt.

(** The code of a member function of a member object, as code of its
    owner: [proj] reads the member and [upd] writes it back. *)
Fixpoint zoom {S T A : Type} (proj : S -> T) (upd : T -> S -> S) (c : M T A) : M S A :=
  match c with
  | Ret a => Ret a
  | Act X shared f ev k =>
      Act X shared
          (fun s => let (x, t') := f (proj s) in (x, upd t' s))
          (fun s x => ev (proj s) x)
          (fun x => zoom proj upd (k x))
  | Stop => Stop
  | Block => Block
  end.

(** ** One thread among others

    The other threads run up to the next shared access of this one. *)
Definition interfere {S : Type} (w : world S) : world S :=
  match w_env w with
  | [] => w
  | f :: rest => mk_world (f (w_state w)) rest (w_trace w)
  end.

(** The calls made so far, with those of one more action. *)
Definition log (tr : list event) (evs : list event) : list event :=
  match evs with
  | [] => tr
  | _ => tr ++ evs
  end.

Fixpoint run {S A : Type} (c : M S A) (w : world S) : outcome S A :=
  match c with
  | Ret a => Returned a w
  | Act X shared f ev k =>
      let w1 := if shared then interfere w else w in
      let (x, s') := f (w_state w1) in
      run (k x) (mk_world s' (w_env w1) (log (w_trace w1) (ev (w_state w1) x)))
  | Stop => Aborted w
  | Block => Pending w
  end.

(** ** Vocabulary for frame properties

    [stable obs w]: no interference still to come changes the observation
    [obs] of the object.  [keeps obs c]: however [c] ends, it ends with the
    observation it started with. *)
Definition stable {S X : Type} (obs : S -> X) (w : world S) : Prop :=
  Forall (fun f => forall s, obs (f s) = obs s) (w_env w).

Definition final_world {S A : Type} (o : outcome S A) : world S :=
  match o with
  | Returned _ w => w
  | Aborted w => w
  | Pending w => w
  end.

Definition keeps {S A X : Type} (obs : S -> X) (c : M S A) : Prop :=
  forall w, stable obs w ->
    obs (w_state (final_world (run c w))) = obs (w_state w) /\
    stable obs (final_world (run c w)).

(** [preserves obs c]: no action of [c] changes the observation [obs] of
    the object. *)
Fixpoint preserves {S A X : Type} (obs : S -> X) (c : M S A) : Prop :=
  match c with
  | Act _ _ f _ k => (forall s, obs (snd (f s)) = obs s) /\ forall x, preserves obs (k x)
  | _ => True
  end.

(** ** The atomics of my_atomic.h on one word of the object

    Modelled from the spec: my_atomic.h is not among the sources; the
    operations follow their names and the spec's words (compare-and-swap,
    swap, store).  [rd] and [wr] select the word. *)

Section Atomics.
Context {S : Type}.
Variable rd : S -> Z.
Variable wr : Z -> S -> S.

(** Compare-and-swap: true iff the word held [expected] and now holds
    [desired]. *)
Definition my_atomic_cas32_strong_explicit (expected desired : Z)
    (success failure : memory_order) : M S bool :=
  atomically
    (fun s => if rd s =? expected then (true, wr desired s) else (false, s))
    (fun s _ => [EvCas32 (rd s) expected desired success failure]).

(** Swap: stores [newval], returns the value replaced. *)
Definition my_atomic_fas32_explicit (newval : Z) (order : memory_order) : M S Z :=
  atomically (fun s => (rd s, wr newval s)) (fun s _ => [EvFas32 (rd s) newval order]).

Definition my_atomic_store32_explicit (newval : Z) (order : memory_order) : M S unit :=
  atomically (fun s => (tt, wr newval s)) (fun _ _ => [EvStore32 newval order]).

Definition my_atomic_faslong (newval : Z) : M S Z :=
  atomically (fun s => (rd s, wr newval s)) (fun s _ => [EvFasLong (rd s) newval]).

Definition my_atomic_storelong (newval : Z) : M S unit :=
  atomically (fun s => (tt, wr newval s)) (fun _ _ => [EvStoreLong newval]).

(** A plain read and a plain write of the word. *)
Definition read_word (ev : Z -> event) : M S Z :=
  atomically (fun s => (rd s, s)) (fun _ v => [ev v]).

Definition write_word (ev : Z -> event) (newval : Z) : M S unit :=
  atomically (fun s => (tt, wr newval s)) (fun _ _ => [ev newval]).

End Atomics.

End Exec.

Declare Scope exec_scope.
Delimit Scope exec_scope with exec.
Notation "x <- c ;; k" := (Exec.bind c (fun x => k))
  (at level 61, c at next level, right associativity) : exec_scope.
Notation "c ;;; k" := (Exec.bind c (fun _ => k))
  (at level 61, right associativity) : exec_scope.

(* ================================================================== *)
(** * sync0types.h and the policy interface *)

Module Sync.

(** Modelled from the spec: [enum mutex_state_t] of sync0types.h, which is
    not among the sources (spec, Data model: UNLOCKED=0, LOCKED=1,
    WAITERS=2). *)
Definition MUTEX_STATE_UNLOCKED : Z := 0.
Definition MUTEX_STATE_LOCKED : Z := 1.
Definition MUTEX_STATE_WAITERS : Z := 2.

(** Modelled from the spec: the policy class of sync0policy.h, which is not
    among the sources (spec, Data model, Policy record).  [P] is the policy
    record and [Impl] the mutex handed to the hooks; a hook may look at the
    mutex and changes the policy record only. *)
Record policy_hooks (P Impl : Type) : Type := mk_policy_hooks {
  pol_init : Impl -> Z -> string -> Z -> P -> P;
  pol_enter : Impl -> string -> Z -> P -> P;
  pol_locked : Impl -> string -> Z -> P -> P;
  pol_release : Impl -> P -> P;
  pol_add : Z -> Z -> P -> P;
  pol_destroy : P -> P;
  pol_is_owned : P -> bool
}.
Arguments pol_init {P Impl} _ _ _ _ _ _.
Arguments pol_enter {P Impl} _ _ _ _ _.
Arguments pol_locked {P Impl} _ _ _ _ _.
Arguments pol_release {P Impl} _ _ _.
Arguments pol_add {P Impl} _ _ _ _.
Arguments pol_destroy {P Impl} _ _.
Arguments pol_is_owned {P Impl} _ _.

End Sync.

(* ================================================================== *)
(** * TTASFutexMutex (ib0mutex.h:168-284) *)

Module TTASFutexMutex.
Import Exec Sync CTypes.
Local Open Scope exec_scope.

Section WithPolicy.
Variable P : Type.

Record t : Type := mk {
  m_policy : P;
  m_lock_word : Z
}.

Variable hooks : policy_hooks P t.

Definition set_lock_word (v : Z) (m : t) : t := mk (m_policy m) v.
Definition set_policy (p : P) (m : t) : t := mk p (m_lock_word m).

(** ib0mutex.h:173-179. *)
Definition construct (p : P) : t := mk p MUTEX_STATE_UNLOCKED.

(** Whether some thread has the mutex: the lock word is not UNLOCKED. *)
Definition taken (m : t) : bool := negb (m_lock_word m =? MUTEX_STATE_UNLOCKED).

(** ib0mutex.h:191-198. *)
Definition init (id : Z) (filename : string) (line : Z) : M t unit :=
  ut_a (fun m => m_lock_word m =? MUTEX_STATE_UNLOCKED).

(** ib0mutex.h:201-205. *)
Definition destroy : M t unit :=
  ut_a (fun m => m_lock_word m =? MUTEX_STATE_UNLOCKED).

(** ib0mutex.h:257-264. *)
Definition try_lock : M t bool :=
  my_atomic_cas32_strong_explicit m_lock_word set_lock_word
    MUTEX_STATE_UNLOCKED MUTEX_STATE_LOCKED
    MY_MEMORY_ORDER_ACQUIRE MY_MEMORY_ORDER_RELAXED.

(** [m_policy.add(n_spins, n_waits)]. *)
Definition policy_add (n_spins n_waits : Z) : M t unit :=
  emit (EvPolicyAdd n_spins n_waits) ;;;
  modify (fun m => set_policy (pol_add hooks n_spins n_waits (m_policy m)) m).

(** ib0mutex.h:220-227, the first loop of [enter].  [inl n] when the
    function returned from inside the loop, [inr n] when the loop ran to its
    end; [n] is [n_spins].  The loop test fails after at most [max_spins]
    rounds, which is the fuel [enter] gives. *)
Fixpoint spin_loop (fuel : nat) (n_spins max_spins max_delay : Z) : M t (Z + Z) :=
  if n_spins <? max_spins then
    match fuel with
    | O => pending
    | S fuel' =>
        locked <- try_lock ;;
        if locked : bool then
          policy_add n_spins 0 ;;;
          ret (inl n_spins)
        else
          emit (EvDelay max_delay) ;;;
          spin_loop fuel' (uint32 (n_spins + 1)) max_spins max_delay
    end
  else ret (inr n_spins).

(** ib0mutex.h:229-239, the second loop of [enter]; returns [n_waits]. *)
Fixpoint park_loop (fuel : nat) (n_waits : Z) : M t Z :=
  match fuel with
  | O => pending
  | S fuel' =>
      old <- my_atomic_fas32_explicit m_lock_word set_lock_word
               MUTEX_STATE_WAITERS MY_MEMORY_ORDER_ACQUIRE ;;
      if old =? MUTEX_STATE_UNLOCKED then ret n_waits
      else
        emit (EvFutexWait MUTEX_STATE_WAITERS) ;;;
        park_loop fuel' (uint32 (n_waits + 1))
  end.

(** ib0mutex.h:212-242. *)
Definition enter (fuel : nat) (max_spins max_delay : Z) (filename : string) (line : Z)
  : M t unit :=
  r <- spin_loop (Z.to_nat max_spins) 0 max_spins max_delay ;;
  match r with
  | inl _ => ret tt
  | inr n_spins =>
      n_waits <- park_loop fuel 0 ;;
      policy_add n_spins n_waits
  end.

(** ib0mutex.h:245-253. *)
Definition exit : M t unit :=
  old <- my_atomic_fas32_explicit m_lock_word set_lock_word
           MUTEX_STATE_UNLOCKED MY_MEMORY_ORDER_RELEASE ;;
  if old =? MUTEX_STATE_WAITERS then emit (EvFutexWake 1) else ret tt.

End WithPolicy.

(** The calls of a round of the first loop of [enter] whose [try_lock] found
    [old] in the lock word, and of a round of the second loop whose swap
    replaced [old]. *)
Definition spin_round (max_delay old : Z) : list event :=
  [EvCas32 old MUTEX_STATE_UNLOCKED MUTEX_STATE_LOCKED
     MY_MEMORY_ORDER_ACQUIRE MY_MEMORY_ORDER_RELAXED;
   EvDelay max_delay].

Definition park_round (old : Z) : list event :=
  [EvFas32 old MUTEX_STATE_WAITERS MY_MEMORY_ORDER_ACQUIRE;
   EvFutexWait MUTEX_STATE_WAITERS].

Arguments mk {P}.
Arguments m_policy {P}.
Arguments m_lock_word {P}.
Arguments set_lock_word {P}.
Arguments set_policy {P}.
Arguments construct {P}.
Arguments taken {P}.
Arguments init {P}.
Arguments destroy {P}.
Arguments try_lock {P}.
Arguments policy_add {P}.
Arguments spin_loop {P}.
Arguments park_loop {P}.
Arguments enter {P}.
Arguments exit {P}.

End TTASFutexMutex.

(* ================================================================== *)
(** * TTASMutex (ib0mutex.h:288-396) *)

Module TTASMutex.
Import Exec Sync CTypes.
Local Open Scope exec_scope.

Section WithPolicy.
Variable P : Type.

Record t : Type := mk {
  m_policy : P;
  m_lock_word : Z
}.

Variable hooks : policy_hooks P t.

(** Build with UNIV_DEBUG. *)
Variable univ_debug : bool.

Definition set_lock_word (v : Z) (m : t) : t := mk (m_policy m) v.
Definition set_policy (p : P) (m : t) : t := mk p (m_lock_word m).

(** ib0mutex.h:293-299. *)
Definition construct (p : P) : t := mk p MUTEX_STATE_UNLOCKED.

(** Whether some thread has the mutex: the lock word is not UNLOCKED. *)
Definition taken (m : t) : bool := negb (m_lock_word m =? MUTEX_STATE_UNLOCKED).

(** ib0mutex.h:311-318. *)
Definition init (id : Z) (filename : string) (line : Z) : M t unit :=
  ut_ad univ_debug (fun m => m_lock_word m =? MUTEX_STATE_UNLOCKED).

(** ib0mutex.h:321-325. *)
Definition destroy : M t unit :=
  ut_ad univ_debug (fun m => m_lock_word m =? MUTEX_STATE_UNLOCKED).

(** ib0mutex.h:329-336. *)
Definition try_lock : M t bool :=
  my_atomic_cas32_strong_explicit m_lock_word set_lock_word
    MUTEX_STATE_UNLOCKED MUTEX_STATE_LOCKED
    MY_MEMORY_ORDER_ACQUIRE MY_MEMORY_ORDER_RELAXED.

(** ib0mutex.h:339-344. *)
Definition exit : M t unit :=
  ut_ad univ_debug (fun m => m_lock_word m =? MUTEX_STATE_LOCKED) ;;;
  my_atomic_store32_explicit set_lock_word MUTEX_STATE_UNLOCKED MY_MEMORY_ORDER_RELEASE.

Definition policy_add (n_spins n_waits : Z) : M t unit :=
  emit (EvPolicyAdd n_spins n_waits) ;;;
  modify (fun m => set_policy (pol_add hooks n_spins n_waits (m_policy m)) m).

(** ib0mutex.h:360-368, the loop of [enter]; returns [n_spins]. *)
Fixpoint enter_loop (fuel : nat) (step n_spins max_spins max_delay : Z) : M t Z :=
  match fuel with
  | O => pending
  | S fuel' =>
      locked <- try_lock ;;
      if locked : bool then ret n_spins
      else
        emit (EvDelay max_delay) ;;;
        let n_spins := uint32 (n_spins + 1) in
        if n_spins =? max_spins then
          emit EvYield ;;;
          enter_loop fuel' step n_spins (uint32 (max_spins + step)) max_delay
        else
          enter_loop fuel' step n_spins max_spins max_delay
  end.

(** ib0mutex.h:351-371. *)
Definition enter (fuel : nat) (max_spins max_delay : Z) (filename : string) (line : Z)
  : M t unit :=
  let step := max_spins in
  n_spins <- enter_loop fuel step 0 max_spins max_delay ;;
  policy_add n_spins 0.

End WithPolicy.

Arguments mk {P}.
Arguments m_policy {P}.
Arguments m_lock_word {P}.
Arguments set_lock_word {P}.
Arguments set_policy {P}.
Arguments construct {P}.
Arguments taken {P}.
Arguments init {P}.
Arguments destroy {P}.
Arguments try_lock {P}.
Arguments exit {P}.
Arguments policy_add {P}.
Arguments enter_loop {P}.
Arguments enter {P}.

End TTASMutex.

(* ================================================================== *)
(** * TTASEventMutex (ib0mutex.h:398-699) *)

Module TTASEventMutex.
Import Exec Sync CTypes.
Local Open Scope exec_scope.

Section WithPolicy.
Variable P : Type.

Record t : Type := mk {
  m_lock_word : Z;
  m_waiters : Z;
  m_event : Z;
  m_policy : P
}.

Variable hooks : policy_hooks P t.

(** Build with UNIV_DEBUG. *)
Variable univ_debug : bool.

Definition set_lock_word (v : Z) (m : t) : t :=
  mk v (m_waiters m) (m_event m) (m_policy m).
Definition set_waiters_word (v : Z) (m : t) : t :=
  mk (m_lock_word m) v (m_event m) (m_policy m).
Definition set_event (v : Z) (m : t) : t :=
  mk (m_lock_word m) (m_waiters m) v (m_policy m).
Definition set_policy (p : P) (m : t) : t :=
  mk (m_lock_word m) (m_waiters m) (m_event m) p.

(** ib0mutex.h:403-412: [m_waiters()] and [m_event()] are zero. *)
Definition construct (p : P) : t := mk MUTEX_STATE_UNLOCKED 0 0 p.

(** Whether some thread has the mutex: the lock word is not UNLOCKED. *)
Definition taken (m : t) : bool := negb (m_lock_word m =? MUTEX_STATE_UNLOCKED).

(** ib0mutex.h:425-435.  [new_event] is the handle that
    [os_event_create(sync_latch_get_name(id))] returns. *)
Definition init (new_event : Z) (id : Z) (filename : string) (line : Z) : M t unit :=
  ut_a (fun m => m_event m =? 0) ;;;
  ut_a (fun m => m_lock_word m =? MUTEX_STATE_UNLOCKED) ;;;
  emit (EvEventCreate id new_event) ;;;
  modify (set_event new_event).

(** ib0mutex.h:440-448. *)
Definition destroy : M t unit :=
  ut_ad univ_debug (fun m => m_lock_word m =? MUTEX_STATE_UNLOCKED) ;;;
  m <- get ;;
  emit (EvEventDestroy (m_event m)) ;;;
  modify (set_event 0).

(** ib0mutex.h:664-668. *)
Definition tas_lock : M t bool :=
  old <- my_atomic_faslong m_lock_word set_lock_word MUTEX_STATE_LOCKED ;;
  ret (old =? MUTEX_STATE_UNLOCKED).

(** ib0mutex.h:673-676. *)
Definition tas_unlock : M t unit :=
  my_atomic_storelong set_lock_word MUTEX_STATE_UNLOCKED.

(** ib0mutex.h:452-456. *)
Definition try_lock : M t bool := tas_lock.

(** ib0mutex.h:643-646. *)
Definition waiters : M t Z := read_word m_waiters EvReadWaiters.

(** ib0mutex.h:649-653. *)
Definition set_waiters : M t unit :=
  write_word set_waiters_word EvWriteWaiters 1 ;;;
  emit EvWmb.

(** ib0mutex.h:656-660. *)
Definition clear_waiters : M t unit :=
  write_word set_waiters_word EvWriteWaiters 0 ;;;
  emit EvWmb.

(** Modelled from the spec: [signal()] is declared at ib0mutex.h:679 and
    defined outside the sources; it obtains the wait-array slot of this
    mutex, sets its event and wakes the parked threads (spec 4.G).  The
    fields of the mutex are left as they are. *)
Definition signal : M t unit :=
  m <- get ;;
  emit (EvSignal (m_event m)).

(** ib0mutex.h:459-479. *)
Definition exit : M t unit :=
  tas_unlock ;;;
  w <- read_word m_waiters EvReadWaiters ;;
  if negb (w =? 0) then signal else ret tt.

(** ib0mutex.h:499-503. *)
Definition state : M t Z := read_word m_lock_word EvReadLockWord.

(** ib0mutex.h:507-511. *)
Definition event : M t Z := m <- get ;; ret (m_event m).

(** ib0mutex.h:514-518. *)
Definition is_locked : M t bool :=
  v <- read_word m_lock_word EvReadLockWord ;;
  ret (negb (v =? MUTEX_STATE_UNLOCKED)).

(** The retries of [wait]: up to [spin] calls of [try_lock]. *)
Fixpoint wait_retry (spin : nat) : M t bool :=
  match spin with
  | O => ret false
  | S spin' =>
      locked <- try_lock ;;
      if locked : bool then ret true else wait_retry spin'
  end.

(** Modelled from the spec: [wait()] is declared at ib0mutex.h:540-544 and
    defined outside the sources; it reserves a slot keyed by the event of
    this mutex, sets the waiter flag, tries the lock word again, and when it
    is still locked after [spin] retries blocks on the event; true when it
    acquired the mutex, false when the caller has to go round its loop
    again (spec 4.G). *)
Definition wait (filename : string) (line : Z) (spin : Z) : M t bool :=
  emit EvSyncArrayReserve ;;;
  set_waiters ;;;
  locked <- wait_retry (Z.to_nat spin) ;;
  if locked : bool then
    emit EvSyncArrayFree ;;;
    ret true
  else
    emit EvSyncArrayWaitEvent ;;;
    ret false.

(** ib0mutex.h:565-576, the do-while loop of [is_free]; returns the result
    and [n_spins]. *)
Fixpoint is_free_loop (fuel : nat) (max_spins max_delay n_spins : Z) : M t (bool * Z) :=
  match fuel with
  | O => pending
  | S fuel' =>
      locked <- is_locked ;;
      if negb locked then ret (true, n_spins)
      else
        emit (EvDelay max_delay) ;;;
        let n_spins := uint32 (n_spins + 1) in
        if n_spins <? max_spins
        then is_free_loop fuel' max_spins max_delay n_spins
        else ret (false, n_spins)
  end.

(** ib0mutex.h:551-577. *)
Definition is_free (fuel : nat) (max_spins max_delay n_spins : Z) : M t (bool * Z) :=
  ut_ad univ_debug (fun _ => n_spins <=? max_spins) ;;;
  is_free_loop fuel max_spins max_delay n_spins.

Definition policy_add (n_spins n_waits : Z) : M t unit :=
  emit (EvPolicyAdd n_spins n_waits) ;;;
  modify (fun m => set_policy (pol_add hooks n_spins n_waits (m_policy m)) m).

(** ib0mutex.h:597-634, the loop of [spin_and_try_lock]; returns [n_spins]
    and [n_waits]. *)
Fixpoint spin_and_try_lock_loop (fuel : nat) (step n_spins n_waits max_spins max_delay : Z)
    (filename : string) (line : Z) : M t (Z * Z) :=
  match fuel with
  | O => pending
  | S fuel' =>
      r <- is_free fuel' max_spins max_delay n_spins ;;
      let '(free, n_spins) := r in
      if free : bool then
        locked <- try_lock ;;
        if locked : bool then ret (n_spins, n_waits)
        else spin_and_try_lock_loop fuel' step n_spins n_waits max_spins max_delay filename line
      else
        let max_spins := uint32 (n_spins + step) in
        let n_waits := uint32 (n_waits + 1) in
        emit EvYield ;;;
        acquired <- wait filename line 4 ;;
        if acquired : bool then ret (uint32 (n_spins + 4), n_waits)
        else spin_and_try_lock_loop fuel' step n_spins n_waits max_spins max_delay filename line
  end.

(** ib0mutex.h:584-640. *)
Definition spin_and_try_lock (fuel : nat) (max_spins max_delay : Z)
    (filename : string) (line : Z) : M t unit :=
  let step := max_spins in
  emit EvRmb ;;;
  r <- spin_and_try_lock_loop fuel step 0 0 max_spins max_delay filename line ;;
  let '(n_spins, n_waits) := r in
  policy_add n_spins n_waits.

(** ib0mutex.h:486-496. *)
Definition enter (fuel : nat) (max_spins max_delay : Z) (filename : string) (line : Z)
  : M t unit :=
  locked <- try_lock ;;
  if negb locked then spin_and_try_lock fuel max_spins max_delay filename line
  else ret tt.

End WithPolicy.

Arguments mk {P}.
Arguments m_lock_word {P}.
Arguments m_waiters {P}.
Arguments m_event {P}.
Arguments m_policy {P}.
Arguments set_lock_word {P}.
Arguments set_waiters_word {P}.
Arguments set_event {P}.
Arguments set_policy {P}.
Arguments construct {P}.
Arguments taken {P}.
Arguments init {P}.
Arguments destroy {P}.
Arguments tas_lock {P}.
Arguments tas_unlock {P}.
Arguments try_lock {P}.
Arguments waiters {P}.
Arguments set_waiters {P}.
Arguments clear_waiters {P}.
Arguments signal {P}.
Arguments exit {P}.
Arguments state {P}.
Arguments event {P}.
Arguments is_locked {P}.
Arguments wait_retry {P}.
Arguments wait {P}.
Arguments is_free_loop {P}.
Arguments is_free {P}.
Arguments policy_add {P}.
Arguments spin_and_try_lock_loop {P}.
Arguments spin_and_try_lock {P}.
Arguments enter {P}.

(** A caller: a sequence of member function calls on one mutex. *)
Inductive call : Type :=
| CallInit (new_event id : Z) (filename : string) (line : Z)
| CallDestroy
| CallTryLock
| CallExit
| CallEnter (fuel : nat) (max_spins max_delay : Z) (filename : string) (line : Z).

Definition do_call {P : Type} (hooks : policy_hooks P (t P)) (univ_debug : bool)
    (c : call) : M (t P) unit :=
  match c with
  | CallInit new_event id filename line => init new_event id filename line
  | CallDestroy => destroy univ_debug
  | CallTryLock => (_ <- try_lock ;; ret tt)%exec
  | CallExit => exit
  | CallEnter fuel max_spins max_delay filename line =>
      enter hooks univ_debug fuel max_spins max_delay filename line
  end.

Fixpoint do_calls {P : Type} (hooks : policy_hooks P (t P)) (univ_debug : bool)
    (cs : list call) : M (t P) unit :=
  match cs with
  | [] => ret tt
  | c :: cs' => (do_call hooks univ_debug c ;;; do_calls hooks univ_debug cs')%exec
  end.

(** Whether the mutex is between [init] and [destroy] after the calls [cs],
    when it was ([b] true) or was not before them. *)
Fixpoint initialised_after (b : bool) (cs : list call) : bool :=
  match cs with
  | [] => b
  | CallInit _ _ _ _ :: cs' => initialised_after true cs'
  | CallDestroy :: cs' => initialised_after false cs'
  | _ :: cs' => initialised_after b cs'
  end.

(** Every [os_event_create] of the calls returned an event (a failed
    allocation is fatal, spec 7). *)
Definition events_created (cs : list call) : Prop :=
  Forall (fun c => match c with
                   | CallInit new_event _ _ _ => new_event <> 0
                   | _ => True
                   end) cs.

End TTASEventMutex.

(* ================================================================== *)
(** * The native mutex behind OSTrackMutex *)

Module OSMutex.
Import Exec.
Local Open Scope exec_scope.

(** Modelled from the spec: [OSMutex] is not among the sources; it is the
    adapter over the native mutex of the platform (spec 4.B): [enter] blocks
    until the mutex is acquired, [try_lock] returns false without blocking
    when it is held.  [os_locked] tells whether some thread owns it. *)
Record t : Type := mk {
  os_locked : bool
}.

Definition init : M t unit := emit EvOSMutexInit.

Definition destroy : M t unit := emit EvOSMutexDestroy.

Definition try_lock : M t bool :=
  atomically
    (fun m => if os_locked m then (false, m) else (true, mk true))
    (fun _ acquired => [EvOSMutexTryLock acquired]).

(** Each round is one look of the blocked thread at the native mutex. *)
Fixpoint enter (fuel : nat) : M t unit :=
  match fuel with
  | O => pending
  | S fuel' =>
      acquired <- atomically
                    (fun m => if os_locked m then (false, m) else (true, mk true))
                    (fun _ acquired => if acquired : bool then [EvOSMutexEnter] else []) ;;
      if acquired : bool then ret tt else enter fuel'
  end.

Definition exit : M t unit :=
  atomically (fun _ => (tt, mk false)) (fun _ _ => [EvOSMutexExit]).

End OSMutex.

(* ================================================================== *)
(** * OSTrackMutex (ib0mutex.h:36-159) *)

Module OSTrackMutex.
Import Exec Sync CTypes.
Local Open Scope exec_scope.

Section WithPolicy.
Variable P : Type.

(** [m_freed], [m_locked] and [m_destroy_at_exit] are members in a build
    with UNIV_DEBUG only; without it no function reads or writes them. *)
Record t : Type := mk {
  m_freed : bool;
  m_locked : bool;
  m_destroy_at_exit : bool;
  m_mutex : OSMutex.t;
  m_policy : P
}.

(** Build with UNIV_DEBUG. *)
Variable univ_debug : bool.

(** The global [innodb_calling_exit] when the function is called. *)
Variable innodb_calling_exit : bool.

Definition set_freed (b : bool) (m : t) : t :=
  mk b (m_locked m) (m_destroy_at_exit m) (m_mutex m) (m_policy m).
Definition set_locked (b : bool) (m : t) : t :=
  mk (m_freed m) b (m_destroy_at_exit m) (m_mutex m) (m_policy m).
Definition set_mutex (o : OSMutex.t) (m : t) : t :=
  mk (m_freed m) (m_locked m) (m_destroy_at_exit m) o (m_policy m).
Definition set_policy (p : P) (m : t) : t :=
  mk (m_freed m) (m_locked m) (m_destroy_at_exit m) (m_mutex m) p.

(** ib0mutex.h:41-47. *)
Definition construct (destroy_mutex_at_exit : bool) (o : OSMutex.t) (p : P) : t :=
  mk true false destroy_mutex_at_exit o p.

(** Whether some thread has the mutex: it owns the native mutex. *)
Definition taken (m : t) : bool := OSMutex.os_locked (m_mutex m).

(** ib0mutex.h:49-52. *)
Definition destructor : M t unit :=
  ut_ad univ_debug (fun m => negb (m_destroy_at_exit m) || negb (m_locked m)).

(** ib0mutex.h:58-70. *)
Definition init (id : Z) (filename : string) (line : Z) : M t unit :=
  ut_ad univ_debug (fun m => m_freed m) ;;;
  ut_ad univ_debug (fun m => negb (m_locked m)) ;;;
  zoom m_mutex set_mutex OSMutex.init ;;;
  ut_d univ_debug (set_freed false).

(** ib0mutex.h:73-81. *)
Definition destroy : M t unit :=
  ut_ad univ_debug (fun m => negb (m_locked m)) ;;;
  ut_ad univ_debug (fun m => innodb_calling_exit || negb (m_freed m)) ;;;
  zoom m_mutex set_mutex OSMutex.destroy ;;;
  ut_d univ_debug (set_freed true).

(** ib0mutex.h:84-91. *)
Definition exit : M t unit :=
  ut_ad univ_debug (fun m => m_locked m) ;;;
  ut_d univ_debug (set_locked false) ;;;
  ut_ad univ_debug (fun m => innodb_calling_exit || negb (m_freed m)) ;;;
  zoom m_mutex set_mutex OSMutex.exit.

(** ib0mutex.h:98-111. *)
Definition enter (fuel : nat) (max_spins max_delay : Z) (filename : string) (line : Z)
  : M t unit :=
  ut_ad univ_debug (fun m => innodb_calling_exit || negb (m_freed m)) ;;;
  zoom m_mutex set_mutex (OSMutex.enter fuel) ;;;
  ut_ad univ_debug (fun m => negb (m_locked m)) ;;;
  ut_d univ_debug (set_locked true).

(** ib0mutex.h:114-126. *)
Definition try_lock : M t bool :=
  ut_ad univ_debug (fun m => innodb_calling_exit || negb (m_freed m)) ;;;
  locked <- zoom m_mutex set_mutex OSMutex.try_lock ;;
  (if locked : bool then
     ut_ad univ_debug (fun m => negb (m_locked m)) ;;;
     ut_d univ_debug (set_locked locked)
   else ret tt) ;;;
  ret locked.

End WithPolicy.

Arguments mk {P}.
Arguments m_freed {P}.
Arguments m_locked {P}.
Arguments m_destroy_at_exit {P}.
Arguments m_mutex {P}.
Arguments m_policy {P}.
Arguments set_freed {P}.
Arguments set_locked {P}.
Arguments set_mutex {P}.
Arguments set_policy {P}.
Arguments construct {P}.
Arguments taken {P}.
Arguments destructor {P}.
Arguments init {P}.
Arguments destroy {P}.
Arguments exit {P}.
Arguments enter {P}.
Arguments try_lock {P}.

End OSTrackMutex.

(* ================================================================== *)
(** * PolicyMutex (ib0mutex.h:703-942) *)

Module PolicyMutex.
Import Exec Sync CTypes.
Local Open Scope exec_scope.

(** What the template asks of [MutexImpl]: the member functions called
    through [m_impl] and the access to its policy record. *)
Record mutex_impl (P Impl : Type) : Type := mk_mutex_impl {
  impl_init : Z -> string -> Z -> M Impl unit;
  impl_destroy : M Impl unit;
  impl_enter : nat -> Z -> Z -> string -> Z -> M Impl unit;
  impl_try_lock : M Impl bool;
  impl_exit : M Impl unit;
  impl_policy : Impl -> P;
  impl_set_policy : P -> Impl -> Impl
}.
Arguments impl_init {P Impl}.
Arguments impl_destroy {P Impl}.
Arguments impl_enter {P Impl}.
Arguments impl_try_lock {P Impl}.
Arguments impl_exit {P Impl}.
Arguments impl_policy {P Impl}.
Arguments impl_set_policy {P Impl}.

Section WithImpl.
Variable P : Type.
Variable Impl : Type.
Variable I : mutex_impl P Impl.
Variable hooks : policy_hooks P Impl.

(** Build with UNIV_PFS_MUTEX, build with UNIV_DEBUG. *)
Variable univ_pfs_mutex : bool.
Variable univ_debug : bool.

(** The registry and the instrumentation (spec 6): the key of a latch id,
    the handle [init_mutex] returns for a key, the locker
    [start_mutex_wait] returns. *)
Variable sync_latch_get_pfs_key : Z -> Z.
Variable psi_init_mutex : Z -> Z.
Variable psi_start_mutex_wait : Z -> psi_mutex_operation -> string -> Z -> Z.

(** [m_ptr] is a member in a build with UNIV_PFS_MUTEX only. *)
Record t : Type := mk {
  m_impl : Impl;
  m_ptr : Z
}.

Definition set_impl (i : Impl) (m : t) : t := mk i (m_ptr m).
Definition set_ptr (p : Z) (m : t) : t := mk (m_impl m) p.

(** ib0mutex.h:709-714. *)
Definition construct (i : Impl) : t := mk i 0.

(** ib0mutex.h:719-728. *)
Definition policy (m : t) : P := impl_policy I (m_impl m).

(** A call [policy().hook(m_impl, ...)]: the hook sees the implementation
    as it is and its result becomes the policy record. *)
Definition call_policy (ev : event) (hook : Impl -> P -> P) : M t unit :=
  emit ev ;;;
  modify (fun m => set_impl (impl_set_policy I (hook (m_impl m) (policy m)) (m_impl m)) m).

(** ib0mutex.h:861-865. *)
Definition pfs_add (key : Z) : M t unit :=
  ut_ad univ_debug (fun m => m_ptr m =? 0) ;;;
  emit (EvPsiInit key (psi_init_mutex key)) ;;;
  modify (set_ptr (psi_init_mutex key)).

(** ib0mutex.h:873-885. *)
Definition pfs_begin_lock (name : string) (line : Z) : M t Z :=
  m <- get ;;
  if negb (m_ptr m =? 0) then
    let locker := psi_start_mutex_wait (m_ptr m) PSI_MUTEX_LOCK name line in
    emit (EvPsiStart (m_ptr m) PSI_MUTEX_LOCK name line locker) ;;;
    ret locker
  else ret 0.

(** ib0mutex.h:891-903. *)
Definition pfs_begin_trylock (name : string) (line : Z) : M t Z :=
  m <- get ;;
  if negb (m_ptr m =? 0) then
    let locker := psi_start_mutex_wait (m_ptr m) PSI_MUTEX_TRYLOCK name line in
    emit (EvPsiStart (m_ptr m) PSI_MUTEX_TRYLOCK name line locker) ;;;
    ret locker
  else ret 0.

(** ib0mutex.h:908-913. *)
Definition pfs_end (locker : Z) (rc : Z) : M t unit :=
  if negb (locker =? 0) then emit (EvPsiEnd locker rc) else ret tt.

(** ib0mutex.h:916-921. *)
Definition pfs_exit : M t unit :=
  m <- get ;;
  if negb (m_ptr m =? 0) then emit (EvPsiUnlock (m_ptr m)) else ret tt.

(** ib0mutex.h:924-930. *)
Definition pfs_del : M t unit :=
  m <- get ;;
  if negb (m_ptr m =? 0) then
    emit (EvPsiDestroy (m_ptr m)) ;;;
    modify (set_ptr 0)
  else ret tt.

(** What [pfs_begin_trylock] and [pfs_end] amount to on the mutex [m]: the
    locker, the call made to start the wait and the call made to end it. *)
Definition trylock_locker (m : t) (name : string) (line : Z) : Z :=
  if univ_pfs_mutex && negb (m_ptr m =? 0)
  then psi_start_mutex_wait (m_ptr m) PSI_MUTEX_TRYLOCK name line
  else 0.

Definition trylock_begin_events (m : t) (name : string) (line : Z) : list event :=
  if univ_pfs_mutex && negb (m_ptr m =? 0)
  then [EvPsiStart (m_ptr m) PSI_MUTEX_TRYLOCK name line (trylock_locker m name line)]
  else [].

Definition trylock_end_events (m : t) (name : string) (line : Z) : list event :=
  if univ_pfs_mutex && negb (trylock_locker m name line =? 0)
  then [EvPsiEnd (trylock_locker m name line) 0]
  else [].

(** A block under [#ifdef UNIV_PFS_MUTEX]. *)
Definition ifdef_pfs {A : Type} (c : M t A) (otherwise : A) : M t A :=
  if univ_pfs_mutex then c else ret otherwise.

(** ib0mutex.h:731-740. *)
Definition exit : M t unit :=
  ifdef_pfs pfs_exit tt ;;;
  call_policy EvPolicyRelease (fun impl => pol_release hooks impl) ;;;
  zoom m_impl set_impl (impl_exit I).

(** ib0mutex.h:747-771. *)
Definition enter (fuel : nat) (n_spins n_delay : Z) (name : string) (line : Z) : M t unit :=
  locker <- ifdef_pfs (pfs_begin_lock name line) 0 ;;
  call_policy (EvPolicyEnter name line) (fun impl => pol_enter hooks impl name line) ;;;
  zoom m_impl set_impl (impl_enter I fuel n_spins n_delay name line) ;;;
  call_policy (EvPolicyLocked name line) (fun impl => pol_locked hooks impl name line) ;;;
  ifdef_pfs (pfs_end locker 0) tt.

(** ib0mutex.h:776-806. *)
Definition trylock (name : string) (line : Z) : M t Z :=
  locker <- ifdef_pfs (pfs_begin_trylock name line) 0 ;;
  locked <- zoom m_impl set_impl (impl_try_lock I) ;;
  let ret_ := if locked : bool then 0 else 1 in
  (if ret_ =? 0 then
     call_policy (EvPolicyEnter name line) (fun impl => pol_enter hooks impl name line) ;;;
     call_policy (EvPolicyLocked name line) (fun impl => pol_locked hooks impl name line)
   else ret tt) ;;;
  ifdef_pfs (pfs_end locker 0) tt ;;;
  ret ret_.

(** ib0mutex.h:810-813 (UNIV_DEBUG). *)
Definition is_owned (m : t) : bool := pol_is_owned hooks (policy m).

(** ib0mutex.h:822-834. *)
Definition init (id : Z) (filename : string) (line : Z) : M t unit :=
  ifdef_pfs (pfs_add (sync_latch_get_pfs_key id)) tt ;;;
  zoom m_impl set_impl (impl_init I id filename line) ;;;
  call_policy (EvPolicyInit id filename line) (fun impl => pol_init hooks impl id filename line).

(** ib0mutex.h:837-844. *)
Definition destroy : M t unit :=
  ifdef_pfs pfs_del tt ;;;
  zoom m_impl set_impl (impl_destroy I) ;;;
  call_policy EvPolicyDestroy (fun _ => pol_destroy hooks).

End WithImpl.

Arguments mk {Impl}.
Arguments m_impl {Impl}.
Arguments m_ptr {Impl}.
Arguments set_impl {Impl}.
Arguments set_ptr {Impl}.
Arguments construct {Impl}.
Arguments policy {P Impl}.
Arguments call_policy {P Impl}.
Arguments pfs_add {Impl}.
Arguments pfs_begin_lock {Impl}.
Arguments pfs_begin_trylock {Impl}.
Arguments pfs_end {Impl}.
Arguments pfs_exit {Impl}.
Arguments pfs_del {Impl}.
Arguments ifdef_pfs {Impl} _ {A}.
Arguments trylock_locker {Impl}.
Arguments trylock_begin_events {Impl}.
Arguments trylock_end_events {Impl}.
Arguments exit {P Impl}.
Arguments enter {P Impl}.
Arguments trylock {P Impl}.
Arguments is_owned {P Impl}.
Arguments init {P Impl}.
Arguments destroy {P Impl}.

(** The four implementations as [MutexImpl]. *)

Definition OSTrackMutex_impl (P : Type) (univ_debug innodb_calling_exit : bool)
  : mutex_impl P (OSTrackMutex.t P) :=
  mk_mutex_impl P _
    (OSTrackMutex.init univ_debug)
    (OSTrackMutex.destroy univ_debug innodb_calling_exit)
    (OSTrackMutex.enter univ_debug innodb_calling_exit)
    (OSTrackMutex.try_lock univ_debug innodb_calling_exit)
    (OSTrackMutex.exit univ_debug innodb_calling_exit)
    OSTrackMutex.m_policy
    OSTrackMutex.set_policy.

Definition TTASFutexMutex_impl (P : Type) (hooks : Sync.policy_hooks P (TTASFutexMutex.t P))
  : mutex_impl P (TTASFutexMutex.t P) :=
  mk_mutex_impl P _
    TTASFutexMutex.init
    TTASFutexMutex.destroy
    (TTASFutexMutex.enter hooks)
    TTASFutexMutex.try_lock
    TTASFutexMutex.exit
    TTASFutexMutex.m_policy
    TTASFutexMutex.set_policy.

Definition TTASMutex_impl (P : Type) (hooks : Sync.policy_hooks P (TTASMutex.t P))
    (univ_debug : bool) : mutex_impl P (TTASMutex.t P) :=
  mk_mutex_impl P _
    (TTASMutex.init univ_debug)
    (TTASMutex.destroy univ_debug)
    (TTASMutex.enter hooks)
    TTASMutex.try_lock
    (TTASMutex.exit univ_debug)
    TTASMutex.m_policy
    TTASMutex.set_policy.

Definition TTASEventMutex_impl (P : Type) (hooks : Sync.policy_hooks P (TTASEventMutex.t P))
    (univ_debug : bool) (new_event : Z) : mutex_impl P (TTASEventMutex.t P) :=
  mk_mutex_impl P _
    (TTASEventMutex.init new_event)
    (TTASEventMutex.destroy univ_debug)
    (TTASEventMutex.enter hooks univ_debug)
    TTASEventMutex.try_lock
    TTASEventMutex.exit
    TTASEventMutex.m_policy
    TTASEventMutex.set_policy.

End PolicyMutex.

(* ================================================================== *)
(** * Threads on one mutex

    The caller of the testable properties (spec 8): [N] threads, each of
    which runs [K] rounds of [enter; x++; exit] on the same mutex and the
    same counter [x].  A thread is the code it has still to run; one step of
    the system is one action of one thread, so a schedule (the list of the
    threads that step, in order) is one interleaving.  The increment is two
    actions, a read and a write. *)

Module Pool.
Import Exec.

(** What a call gives when the thread that makes it is the only one to step
    until it has returned: the value it returns and the shared state it
    leaves; nothing when an assertion stops it or when it has not returned
    at the end of its fuel. *)
Fixpoint alone {S A : Type} (c : prog S A) (s : S) : option (A * S) :=
  match c with
  | Ret a => Some (a, s)
  | Act _ _ f _ k => let (x, s') := f s in alone (k x) s'
  | Stop => None
  | Block => None
  end.

Inductive phase : Type :=
| Entering
| InCritical
| Exiting
| Finished.

Section WithCode.
Variable S : Type.

(** The code of a call of [enter], of the critical section and of a call of
    [exit]. *)
Variable enter_code critical_code exit_code : prog S unit.

(** [th_rounds] is the number of rounds after the current one. *)
Record thread : Type := mk_thread {
  th_phase : phase;
  th_code : prog S unit;
  th_rounds : nat
}.

(** A thread whose current call has returned goes on with the next one. *)
Definition advance (t : thread) : thread :=
  match th_code t with
  | Ret _ =>
      match th_phase t with
      | Entering => mk_thread InCritical critical_code (th_rounds t)
      | InCritical => mk_thread Exiting exit_code (th_rounds t)
      | Exiting =>
          match th_rounds t with
          | O => mk_thread Finished (Ret tt) O
          | Datatypes.S r => mk_thread Entering enter_code r
          end
      | Finished => t
      end
  | _ => t
  end.

Definition start (K : nat) : thread :=
  match K with
  | O => mk_thread Finished (Ret tt) O
  | Datatypes.S r => mk_thread Entering enter_code r
  end.

(** One action of a thread on the shared state.  A thread that is stopped
    or blocked does nothing. *)
Definition step_thread (s : S) (t : thread) : S * thread :=
  match th_code t with
  | Act X shared f ev k =>
      let (x, s') := f s in
      (s', advance (mk_thread (th_phase t) (k x) (th_rounds t)))
  | _ => (s, advance t)
  end.

Record config : Type := mk_config {
  shared_state : S;
  pool : list thread
}.

Fixpoint set_nth {A : Type} (i : nat) (x : A) (l : list A) : list A :=
  match l, i with
  | [], _ => []
  | _ :: l', O => x :: l'
  | y :: l', Datatypes.S i' => y :: set_nth i' x l'
  end.

Definition step (i : nat) (c : config) : config :=
  match nth_error (pool c) i with
  | Some t =>
      let (s', t') := step_thread (shared_state c) t in
      mk_config s' (set_nth i t' (pool c))
  | None => c
  end.

Definition run_schedule (schedule : list nat) (c : config) : config :=
  fold_left (fun c i => step i c) schedule c.

Definition initial (s : S) (N K : nat) : config :=
  mk_config s (repeat (start K) N).

(** A thread is inside its critical section from the return of [enter] to
    the call of [exit]. *)
Definition in_critical (t : thread) : bool :=
  match th_phase t with
  | InCritical => true
  | _ => false
  end.

Definition finished (t : thread) : bool :=
  match th_phase t with
  | Finished => true
  | _ => false
  end.

Definition holders (c : config) : nat := List.length (filter in_critical (pool c)).

Definition all_finished (c : config) : bool := forallb finished (pool c).

End WithCode.

Arguments mk_thread {S}.
Arguments th_phase {S}.
Arguments th_code {S}.
Arguments th_rounds {S}.
Arguments mk_config {S}.
Arguments shared_state {S}.
Arguments pool {S}.
Arguments in_critical {S}.
Arguments finished {S}.
Arguments holders {S}.
Arguments all_finished {S}.
Arguments advance {S}.
Arguments start {S}.
Arguments step_thread {S}.
Arguments step {S}.
Arguments run_schedule {S}.
Arguments initial {S}.

End Pool.

(* ================================================================== *)
(** * Proof outlines

    [outline pre trans g c Q]: from the ghost state [g], every action of the
    code [c], made in a shared state that [pre] allows, is a transition that
    [trans] allows to a ghost state from which the rest of [c] has an
    outline again, and [c] returns in a ghost state that satisfies [Q]. *)

Module Outline.
Import Exec.

Section WithGhost.
Variable S G : Type.
Variable pre : G -> S -> Prop.
Variable trans : G -> S -> G -> S -> Prop.

Fixpoint outline {A : Type} (g : G) (c : prog S A) (Q : A -> G -> Prop) : Prop :=
  match c with
  | Ret a => Q a g
  | Act X shared f ev k =>
      forall s, pre g s ->
        exists g', trans g s g' (snd (f s)) /\ outline g' (k (fst (f s))) Q
  | Stop => True
  | Block => True
  end.

End WithGhost.

Arguments outline {S G} pre trans {A}.

(** Ghost state of a thread: whether it owns the mutex, with the value of
    the counter it has read when it has read one, and the number of
    increments it has made. *)
Inductive owning : Type :=
| GOut
| GHeld
| GRead (v : Z).

Definition ghost : Type := (owning * Z)%type.

Section Transitions.
Variable S : Type.

(** Whether the mutex is taken, and the counter, in a shared state. *)
Variable taken : S -> bool.
Variable counter : S -> Z.

(** What a thread in ghost state [g] knows of the shared state: the mutex
    it owns is taken, and the counter is the value it read. *)
Definition knows (g : ghost) (s : S) : Prop :=
  (fst g <> GOut -> taken s = true) /\
  (forall v, fst g = GRead v -> counter s = v).

Definition t_skip (g : ghost) (s : S) (g' : ghost) (s' : S) : Prop :=
  g' = g /\ taken s' = taken s /\ counter s' = counter s.

Definition t_acquire (g : ghost) (s : S) (g' : ghost) (s' : S) : Prop :=
  fst g = GOut /\ g' = (GHeld, snd g) /\
  taken s = false /\ taken s' = true /\ counter s' = counter s.

Definition t_release (g : ghost) (s : S) (g' : ghost) (s' : S) : Prop :=
  fst g = GHeld /\ g' = (GOut, snd g) /\
  taken s' = false /\ counter s' = counter s.

Definition t_read (g : ghost) (s : S) (g' : ghost) (s' : S) : Prop :=
  fst g = GHeld /\ g' = (GRead (counter s), snd g) /\
  taken s' = taken s /\ counter s' = counter s.

Definition t_write (g : ghost) (s : S) (g' : ghost) (s' : S) : Prop :=
  exists v, fst g = GRead v /\ g' = (GHeld, snd g + 1) /\
  taken s' = taken s /\ counter s' = v + 1.

(** What a thread knows inside the code of the mutex, which does not touch
    the counter. *)
Definition owns (g : ghost) (s : S) : Prop :=
  fst g <> GOut -> taken s = true.

(** The transitions of a call of [enter], of the critical section and of a
    call of [exit]. *)
Definition t_enter (g : ghost) (s : S) (g' : ghost) (s' : S) : Prop :=
  t_skip g s g' s' \/ t_acquire g s g' s'.

Definition t_critical (g : ghost) (s : S) (g' : ghost) (s' : S) : Prop :=
  t_skip g s g' s' \/ t_read g s g' s' \/ t_write g s g' s'.

Definition t_exit (g : ghost) (s : S) (g' : ghost) (s' : S) : Prop :=
  t_skip g s g' s' \/ t_release g s g' s'.

End Transitions.

Arguments knows {S}.
Arguments owns {S}.
Arguments t_skip {S}.
Arguments t_acquire {S}.
Arguments t_release {S}.
Arguments t_read {S}.
Arguments t_write {S}.
Arguments t_enter {S}.
Arguments t_critical {S}.
Arguments t_exit {S}.

End Outline.

(* ================================================================== *)
(** * The invariant of the threads on one mutex *)

Module Invariant.
Import Exec Pool Outline.

Definition is_out (o : owning) : bool :=
  match o with
  | GOut => true
  | _ => false
  end.

(** The number of ghost states that own the mutex, and the increments made
    in all. *)
Definition owners (gs : list ghost) : nat :=
  List.length (filter (fun g => negb (is_out (fst g))) gs).

Definition increments (gs : list ghost) : Z :=
  fold_right (fun g acc => snd g + acc) 0 gs.

Section WithState.
Variable S : Type.
Variable taken : S -> bool.
Variable counter : S -> Z.

(** The number of rounds of every thread. *)
Variable K : nat.

(** The increments a thread had made when it began its current round. *)
Definition made (t : thread S) : Z := Z.of_nat K - Z.of_nat (th_rounds t) - 1.

Definition thread_inv (t : thread S) (g : ghost) : Prop :=
  match th_phase t with
  | Entering =>
      outline (knows taken counter) (t_enter taken counter) g (th_code t)
              (fun _ g' => g' = (GHeld, made t))
  | InCritical =>
      fst g <> GOut /\
      outline (knows taken counter) (t_critical taken counter) g (th_code t)
              (fun _ g' => g' = (GHeld, made t + 1))
  | Exiting =>
      outline (knows taken counter) (t_exit taken counter) g (th_code t)
              (fun _ g' => g' = (GOut, made t + 1))
  | Finished => g = (GOut, Z.of_nat K) /\ th_code t = Ret tt
  end.

Definition measure (gs : list ghost) (s : S) : Prop :=
  owners gs = (if taken s then 1 else 0)%nat /\
  counter s = increments gs /\
  Forall (fun g => forall v, fst g = GRead v -> counter s = v) gs.

Definition invariant (c : config S) : Prop :=
  exists gs, Forall2 thread_inv (pool c) gs /\ measure gs (shared_state c).

End WithState.

Arguments made {S}.
Arguments thread_inv {S}.
Arguments measure {S}.
Arguments invariant {S}.

End Invariant.

(* ================================================================== *)
(** * The threads of the testable properties *)

Module Workers.
Import Exec Sync PolicyMutex.
Local Open Scope exec_scope.

Section WithImpl.
Variable P Impl : Type.
Variable I : mutex_impl P Impl.
Variable hooks : policy_hooks P Impl.
Variable univ_pfs_mutex : bool.
Variable psi_start_mutex_wait : Z -> psi_mutex_operation -> string -> Z -> Z.

(** The fuel of the unbounded loops of [enter] and the arguments of its
    calls. *)
Variable fuel : nat.
Variable n_spins n_delay : Z.
Variable name : string.
Variable line : Z.

(** What the threads share: the mutex and the counter. *)
Record shared : Type := mk_shared {
  mtx : PolicyMutex.t Impl;
  x : Z
}.

Definition set_mtx (m : PolicyMutex.t Impl) (s : shared) : shared := mk_shared m (x s).
Definition set_x (v : Z) (s : shared) : shared := mk_shared (mtx s) v.

Definition enter_code : prog shared unit :=
  zoom mtx set_mtx
    (PolicyMutex.enter I hooks univ_pfs_mutex psi_start_mutex_wait fuel n_spins n_delay
       name line).

(** [x++]: a read and a write. *)
Definition increment : prog shared unit :=
  v <- atomically (fun s => (x s, s)) (fun _ _ => []) ;;
  atomically (fun s => (tt, set_x (v + 1) s)) (fun _ _ => []).

Definition exit_code : prog shared unit :=
  zoom mtx set_mtx (PolicyMutex.exit I hooks univ_pfs_mutex).

(** [N] threads of [K] rounds on the mutex [m], the counter at zero. *)
Definition system (m : PolicyMutex.t Impl) (N K : nat) : Pool.config shared :=
  Pool.initial enter_code (mk_shared m 0) N K.

Definition run_threads (schedule : list nat) (c : Pool.config shared) : Pool.config shared :=
  Pool.run_schedule enter_code increment exit_code schedule c.

End WithImpl.

Arguments mk_shared {Impl}.
Arguments mtx {Impl}.
Arguments x {Impl}.
Arguments set_mtx {Impl}.
Arguments set_x {Impl}.
Arguments enter_code {P Impl}.
Arguments increment {Impl}.
Arguments exit_code {P Impl}.
Arguments system {P Impl}.
Arguments run_threads {P Impl}.

(** Whether the mutex behind the facade, and the mutex the threads share, is
    taken, from whether its implementation is. *)
Definition taken_facade {Impl : Type} (takenI : Impl -> bool) (m : PolicyMutex.t Impl) : bool :=
  takenI (m_impl m).

Definition taken_shared {Impl : Type} (takenI : Impl -> bool) (s : shared Impl) : bool :=
  taken_facade takenI (mtx s).

End Workers.

(* ================================================================== *)
(** * The four implementations behind the facade *)

Module Implementations.
Import Sync PolicyMutex.

(** The spec's names: [D] is OSTrackMutex, [E] is TTASMutex, [F] is
    TTASFutexMutex and [G] is TTASEventMutex. *)
Inductive implementation : Type :=
| D
| E
| F
| G.

Section WithPolicy.
Variable P : Type.

Definition state (i : implementation) : Type :=
  match i with
  | D => OSTrackMutex.t P
  | E => TTASMutex.t P
  | F => TTASFutexMutex.t P
  | G => TTASEventMutex.t P
  end.

Variable hooks : forall i, policy_hooks P (state i).
Variable univ_debug innodb_calling_exit : bool.
Variable new_event : Z.

Definition impl (i : implementation) : mutex_impl P (state i) :=
  match i with
  | D => OSTrackMutex_impl P univ_debug innodb_calling_exit
  | E => TTASMutex_impl P (hooks E) univ_debug
  | F => TTASFutexMutex_impl P (hooks F)
  | G => TTASEventMutex_impl P (hooks G) univ_debug new_event
  end.

Definition taken (i : implementation) : state i -> bool :=
  match i with
  | D => OSTrackMutex.taken
  | E => TTASMutex.taken
  | F => TTASFutexMutex.taken
  | G => TTASEventMutex.taken
  end.

(** The mutex is initialised and free: the lock word is UNLOCKED; for
    OSTrackMutex, the native mutex is free and the members of the debug
    build say initialised and not locked. *)
Definition usable (i : implementation) : state i -> bool :=
  match i with
  | D => fun m => negb (OSTrackMutex.m_freed m) && negb (OSTrackMutex.m_locked m) &&
                  negb (OSMutex.os_locked (OSTrackMutex.m_mutex m))
  | E => fun m => TTASMutex.m_lock_word m =? MUTEX_STATE_UNLOCKED
  | F => fun m => TTASFutexMutex.m_lock_word m =? MUTEX_STATE_UNLOCKED
  | G => fun m => TTASEventMutex.m_lock_word m =? MUTEX_STATE_UNLOCKED
  end.

(** The mutex as [enter] leaves it: the lock word is LOCKED (or WAITERS,
    for TTASFutexMutex); for OSTrackMutex, the native mutex is held and
    [m_locked] is set in a debug build. *)
Definition holding (i : implementation) : state i -> bool :=
  match i with
  | D => fun m => negb (OSTrackMutex.m_freed m) &&
                  Bool.eqb (OSTrackMutex.m_locked m) univ_debug &&
                  OSMutex.os_locked (OSTrackMutex.m_mutex m)
  | E => fun m => TTASMutex.m_lock_word m =? MUTEX_STATE_LOCKED
  | F => fun m => negb (TTASFutexMutex.m_lock_word m =? MUTEX_STATE_UNLOCKED)
  | G => fun m => TTASEventMutex.m_lock_word m =? MUTEX_STATE_LOCKED
  end.

End WithPolicy.

Arguments taken {P}.
Arguments usable {P}.

End Implementations.

(* ================================================================== *)
(** * Scenarios

    Concrete mutexes, policies and schedules, on which the functions above
    are run. *)

Module Scenarios.
Import Exec Sync PolicyMutex Implementations.

(** A policy that records nothing. *)
Definition no_policy (Impl : Type) : policy_hooks unit Impl :=
  mk_policy_hooks unit Impl
    (fun _ _ _ _ p => p) (fun _ _ _ p => p) (fun _ _ _ p => p)
    (fun _ p => p) (fun _ _ p => p) (fun p => p) (fun _ => false).

Definition no_policies (i : implementation) : policy_hooks unit (state unit i) :=
  no_policy (state unit i).

(** A policy that counts the calls of its hooks. *)
Definition counting_policy (Impl : Type) : policy_hooks Z Impl :=
  mk_policy_hooks Z Impl
    (fun _ _ _ _ p => p + 1) (fun _ _ _ p => p + 1) (fun _ _ _ p => p + 1)
    (fun _ p => p + 1) (fun _ _ p => p + 1) (fun p => p + 1) (fun _ => false).

(** A TTASMutex behind the facade, held by another thread, and the same
    mutex free; no hook has been called. *)
Definition held_spin_mutex : world (PolicyMutex.t (TTASMutex.t Z)) :=
  mk_world (PolicyMutex.mk (TTASMutex.mk 0 MUTEX_STATE_LOCKED) 0) [] [].

Definition free_spin_mutex : world (PolicyMutex.t (TTASMutex.t Z)) :=
  mk_world (PolicyMutex.mk (TTASMutex.mk 0 MUTEX_STATE_UNLOCKED) 0) [] [].

(** No instrumentation: no locker is returned. *)
Definition no_psi (handle : Z) (op : psi_mutex_operation) (name : string) (line : Z) : Z := 0.

(** A free, initialised mutex of each implementation behind the facade. *)
Definition free_mutex (i : implementation) : PolicyMutex.t (state unit i) :=
  match i return PolicyMutex.t (state unit i) with
  | D => PolicyMutex.mk (OSTrackMutex.mk false false false (OSMutex.mk false) tt) 0
  | E => PolicyMutex.mk (TTASMutex.mk tt MUTEX_STATE_UNLOCKED) 0
  | F => PolicyMutex.mk (TTASFutexMutex.mk tt MUTEX_STATE_UNLOCKED) 0
  | G => PolicyMutex.mk (TTASEventMutex.mk MUTEX_STATE_UNLOCKED 0 7 tt) 0
  end.

(** Two threads that take turns, [n] actions each. *)
Fixpoint alternate (n : nat) : list nat :=
  match n with
  | O => []
  | Datatypes.S n' => 0%nat :: 1%nat :: alternate n'
  end.

(** Two threads of two rounds each on the free mutex of [i], under the
    schedule [schedule]. *)
Definition two_threads (i : implementation) (schedule : list nat)
  : Pool.config (Workers.shared (state unit i)) :=
  Workers.run_threads (impl unit no_policies true false 7 i) (no_policies i) true no_psi
    20 2 1 "sync0sync.cc" 1 schedule
    (Workers.system (impl unit no_policies true false 7 i) (no_policies i) true no_psi
       20 2 1 "sync0sync.cc" 1 (free_mutex i) 2 2).

(** A TTASFutexMutex held by another thread, which releases it after the
    first attempt of the caller. *)
Definition held_then_released : world (TTASFutexMutex.t unit) :=
  mk_world (TTASFutexMutex.mk tt MUTEX_STATE_LOCKED)
           [fun m => m; TTASFutexMutex.set_lock_word MUTEX_STATE_UNLOCKED]
           [].

(** An initialised TTASEventMutex, free, with no other thread. *)
Definition initialised_event_mutex : world (TTASEventMutex.t unit) :=
  mk_world (TTASEventMutex.mk MUTEX_STATE_UNLOCKED 0 7 tt) [] [].

(** A successful [try_lock], [exit], [destroy], [init] again and
    [destroy]. *)
Definition lifecycle : list TTASEventMutex.call :=
  [TTASEventMutex.CallTryLock; TTASEventMutex.CallExit; TTASEventMutex.CallDestroy;
   TTASEventMutex.CallInit 9 1 "sync0sync.cc" 1; TTASEventMutex.CallDestroy].

End Scenarios.

(* ================================================================== *)
(** * Counting the calls of a run *)

Module Trace.
Import Exec.

(** The number of calls of a trace that [p] selects. *)
Definition count (p : event -> bool) (tr : list event) : nat :=
  List.length (filter p tr).

Definition is_delay (e : event) : bool :=
  match e with
  | EvDelay _ => true
  | _ => false
  end.

Definition is_yield (e : event) : bool :=
  match e with
  | EvYield => true
  | _ => false
  end.

Definition is_reserve (e : event) : bool :=
  match e with
  | EvSyncArrayReserve => true
  | _ => false
  end.

(** A compare-and-swap on the lock word: an attempt of [try_lock]. *)
Definition is_attempt (e : event) : bool :=
  match e with
  | EvCas32 _ _ _ _ _ => true
  | _ => false
  end.

Definition is_lock_word_read (e : event) : bool :=
  match e with
  | EvReadLockWord _ => true
  | _ => false
  end.

(** A swap on the lock word of a TTASEventMutex, and a swap that replaced
    UNLOCKED: the thread that made it has acquired the mutex. *)
Definition is_swap (e : event) : bool :=
  match e with
  | EvFasLong _ _ => true
  | _ => false
  end.

Definition is_won (e : event) : bool :=
  match e with
  | EvFasLong old _ => old =? Sync.MUTEX_STATE_UNLOCKED
  | _ => false
  end.

(** [acquires tr tr']: the calls made from [tr] to [tr'] contain a swap
    that replaced UNLOCKED by LOCKED, after swaps that all replaced another
    value, and no swap follows it.  [loses tr tr']: they contain no swap
    that replaced UNLOCKED. *)
Definition acquires (tr tr' : list event) : Prop :=
  exists pre post,
    tr' = tr ++ pre ++ EvFasLong Sync.MUTEX_STATE_UNLOCKED Sync.MUTEX_STATE_LOCKED :: post /\
    count is_won pre = 0%nat /\ count is_swap post = 0%nat.

Definition loses (tr tr' : list event) : Prop :=
  exists added, tr' = tr ++ added /\ count is_won added = 0%nat.

(** A call that neither yields the processor nor reserves a cell of the wait
    array. *)
Definition quiet (e : event) : bool := negb (is_yield e || is_reserve e).

(** [emits ok c]: every call that an action of [c] makes is one that [ok]
    selects. *)
Fixpoint emits {S A : Type} (ok : event -> bool) (c : prog S A) : Prop :=
  match c with
  | Act _ _ _ ev k => (forall s x, forallb ok (ev s x) = true) /\ forall x, emits ok (k x)
  | _ => True
  end.

(** [no_stop c]: no assertion is left in [c]. *)
Fixpoint no_stop {S A : Type} (c : prog S A) : Prop :=
  match c with
  | Act _ _ _ _ k => forall x, no_stop (k x)
  | Stop => False
  | _ => True
  end.

(** How a call on a member object ends, seen from its owner [s], when no
    other thread runs. *)
Definition zoom_outcome {S T A : Type} (upd : T -> S -> S) (s : S) (o : outcome T A)
  : outcome S A :=
  match o with
  | Returned a wt => Returned a (mk_world (upd (w_state wt) s) [] (w_trace wt))
  | Aborted wt => Aborted (mk_world (upd (w_state wt) s) [] (w_trace wt))
  | Pending wt => Pending (mk_world (upd (w_state wt) s) [] (w_trace wt))
  end.

End Trace.

(* ================================================================== *)
(** * Callers of OSTrackMutex *)

Module OSTrackMutexCalls.
Import Exec Sync OSTrackMutex.
Local Open Scope exec_scope.

(** A caller: a sequence of member function calls on one mutex. *)
Inductive call : Type :=
| CallInit (id : Z) (filename : string) (line : Z)
| CallDestroy
| CallEnter (fuel : nat) (max_spins max_delay : Z) (filename : string) (line : Z)
| CallTryLock
| CallExit.

Definition do_call {P : Type} (univ_debug innodb_calling_exit : bool) (c : call)
  : M (t P) unit :=
  match c with
  | CallInit id filename line => init univ_debug id filename line
  | CallDestroy => destroy univ_debug innodb_calling_exit
  | CallEnter fuel max_spins max_delay filename line =>
      enter univ_debug innodb_calling_exit fuel max_spins max_delay filename line
  | CallTryLock => _ <- try_lock univ_debug innodb_calling_exit ;; ret tt
  | CallExit => exit univ_debug innodb_calling_exit
  end.

Fixpoint do_calls {P : Type} (univ_debug innodb_calling_exit : bool) (cs : list call)
  : M (t P) unit :=
  match cs with
  | [] => ret tt
  | c :: cs' =>
      do_call univ_debug innodb_calling_exit c ;;;
      do_calls univ_debug innodb_calling_exit cs'
  end.

(** The life of a mutex: not initialised (as constructed, or destroyed),
    initialised and free, held. *)
Inductive track : Type :=
| Freed
| Ready
| Held.

(** The calls that one thread may make in each state.  [try_lock] on the
    held mutex is allowed and fails; [enter] with no fuel stands for a call
    that has not come back yet. *)
Definition next (st : track) (c : call) : option track :=
  match st, c with
  | Freed, CallInit _ _ _ => Some Ready
  | Ready, CallDestroy => Some Freed
  | Ready, CallEnter (S _) _ _ _ _ => Some Held
  | Ready, CallTryLock => Some Held
  | Held, CallTryLock => Some Held
  | Held, CallExit => Some Ready
  | _, _ => None
  end.

Fixpoint follow (st : track) (cs : list call) : option track :=
  match cs with
  | [] => Some st
  | c :: cs' =>
      match next st c with
      | Some st' => follow st' cs'
      | None => None
      end
  end.

(** The members of the mutex in each state. *)
Definition tracks {P : Type} (st : track) (m : t P) : Prop :=
  match st with
  | Freed => m_freed m = true /\ m_locked m = false /\ OSMutex.os_locked (m_mutex m) = false
  | Ready => m_freed m = false /\ m_locked m = false /\ OSMutex.os_locked (m_mutex m) = false
  | Held => m_freed m = false /\ m_locked m = true /\ OSMutex.os_locked (m_mutex m) = true
  end.

(** The members that a build with UNIV_DEBUG adds. *)
Definition tracking {P : Type} (m : t P) : bool * bool * bool :=
  (m_freed m, m_locked m, m_destroy_at_exit m).

End OSTrackMutexCalls.

(* ================================================================== *)
(** * The instrumentation calls of PolicyMutex::enter and ::exit *)

Module PolicyMutexCalls.
Import Exec Sync PolicyMutex.

Section WithPfs.
Variable Impl : Type.
Variable univ_pfs_mutex : bool.
Variable psi_start_mutex_wait : Z -> psi_mutex_operation -> string -> Z -> Z.

(** What [pfs_begin_lock], [pfs_end] and [pfs_exit] amount to on the mutex
    [m]. *)
Definition lock_locker (m : t Impl) (name : string) (line : Z) : Z :=
  if univ_pfs_mutex && negb (m_ptr m =? 0)
  then psi_start_mutex_wait (m_ptr m) PSI_MUTEX_LOCK name line
  else 0.

Definition lock_begin_events (m : t Impl) (name : string) (line : Z) : list event :=
  if univ_pfs_mutex && negb (m_ptr m =? 0)
  then [EvPsiStart (m_ptr m) PSI_MUTEX_LOCK name line (lock_locker m name line)]
  else [].

Definition lock_end_events (m : t Impl) (name : string) (line : Z) : list event :=
  if univ_pfs_mutex && negb (lock_locker m name line =? 0)
  then [EvPsiEnd (lock_locker m name line) 0]
  else [].

Definition unlock_events (m : t Impl) : list event :=
  if univ_pfs_mutex && negb (m_ptr m =? 0) then [EvPsiUnlock (m_ptr m)] else [].

End WithPfs.

Arguments lock_locker {Impl}.
Arguments lock_begin_events {Impl}.
Arguments lock_end_events {Impl}.
Arguments unlock_events {Impl}.

(** A caller: a sequence of member function calls on one mutex. *)
Inductive call : Type :=
| CallInit (id : Z) (filename : string) (line : Z)
| CallDestroy
| CallEnter (fuel : nat) (n_spins n_delay : Z) (name : string) (line : Z)
| CallTrylock (name : string) (line : Z)
| CallExit.

Section WithImpl.
Variable P Impl : Type.
Variable I : mutex_impl P Impl.
Variable hooks : policy_hooks P Impl.
Variable univ_pfs_mutex univ_debug : bool.
Variable sync_latch_get_pfs_key : Z -> Z.
Variable psi_init_mutex : Z -> Z.
Variable psi_start_mutex_wait : Z -> psi_mutex_operation -> string -> Z -> Z.

Definition do_call (c : call) : M (t Impl) unit :=
  match c with
  | CallInit id filename line =>
      init I hooks univ_pfs_mutex univ_debug sync_latch_get_pfs_key psi_init_mutex
           id filename line
  | CallDestroy => destroy I hooks univ_pfs_mutex
  | CallEnter fuel n_spins n_delay name line =>
      enter I hooks univ_pfs_mutex psi_start_mutex_wait fuel n_spins n_delay name line
  | CallTrylock name line =>
      bind (trylock I hooks univ_pfs_mutex psi_start_mutex_wait name line) (fun _ => ret tt)
  | CallExit => exit I hooks univ_pfs_mutex
  end.

Fixpoint do_calls (cs : list call) : M (t Impl) unit :=
  match cs with
  | [] => ret tt
  | c :: cs' => bind (do_call c) (fun _ => do_calls cs')
  end.

(** The instrumentation handle after the calls [cs], from the handle [h]:
    the one that the last [init] registered, none after a [destroy]. *)
Fixpoint handle_after (h : Z) (cs : list call) : Z :=
  match cs with
  | [] => h
  | CallInit id _ _ :: cs' => handle_after (psi_init_mutex (sync_latch_get_pfs_key id)) cs'
  | CallDestroy :: cs' => handle_after 0 cs'
  | _ :: cs' => handle_after h cs'
  end.

End WithImpl.

Arguments do_call {P Impl}.
Arguments do_calls {P Impl}.

End PolicyMutexCalls.

(* ================================================================== *)
(** * More scenarios *)

Module MoreScenarios.
Import Exec Sync.

(** A TTASMutex held by another thread, which releases it after the third
    attempt of the caller. *)
Definition released_after_three : world (TTASMutex.t unit) :=
  mk_world (TTASMutex.mk tt MUTEX_STATE_LOCKED)
           [fun m => m; fun m => m; fun m => m;
            TTASMutex.set_lock_word MUTEX_STATE_UNLOCKED]
           [].

(** A TTASEventMutex held by another thread, which releases it after the
    sixth access of the caller to a shared word. *)
Definition event_mutex_released_late : world (TTASEventMutex.t unit) :=
  mk_world (TTASEventMutex.mk MUTEX_STATE_LOCKED 0 7 tt)
           [fun m => m; fun m => m; fun m => m; fun m => m; fun m => m; fun m => m;
            TTASEventMutex.set_lock_word MUTEX_STATE_UNLOCKED]
           [].

(** A TTASEventMutex held by another thread that does not run. *)
Definition event_mutex_held : world (TTASEventMutex.t unit) :=
  mk_world (TTASEventMutex.mk MUTEX_STATE_LOCKED 0 7 tt) [] [].

(** A free TTASFutexMutex, alone. *)
Definition free_futex_mutex : world (TTASFutexMutex.t unit) :=
  mk_world (TTASFutexMutex.mk tt MUTEX_STATE_UNLOCKED) [] [].

(** A free mutex of each implementation behind the facade, and the same
    mutex taken by one [trylock]; no other thread runs. *)
Definition free_alone (i : Implementations.implementation)
  : world (PolicyMutex.t (Implementations.state unit i)) :=
  mk_world (Scenarios.free_mutex i) [] [].

Definition taken_alone (i : Implementations.implementation)
  : world (PolicyMutex.t (Implementations.state unit i)) :=
  final_world
    (run (PolicyMutex.trylock
            (Implementations.impl unit Scenarios.no_policies true false 7 i)
            (Scenarios.no_policies i) true Scenarios.no_psi "sync0sync.cc" 1)
         (free_alone i)).

(** A free TTASMutex behind the facade, not registered, alone. *)
Definition unregistered_spin_mutex : world (PolicyMutex.t (TTASMutex.t unit)) :=
  mk_world (PolicyMutex.mk (TTASMutex.mk tt MUTEX_STATE_UNLOCKED) 0) [] [].

(** [init], a round of [enter] and [exit], [destroy], and [init] again with
    another latch. *)
Definition registrations : list PolicyMutexCalls.call :=
  [PolicyMutexCalls.CallInit 1 "sync0sync.cc" 1;
   PolicyMutexCalls.CallEnter 5 2 1 "sync0sync.cc" 2; PolicyMutexCalls.CallExit;
   PolicyMutexCalls.CallDestroy; PolicyMutexCalls.CallInit 2 "sync0sync.cc" 3].

End MoreScenarios.

(* ================================================================== *)
(** * Facts about binary64 used for my_rnd *)

Module DoubleFacts.
Import CTypes.

Local Abbreviation P52 := 4503599627370496 (only parsing).
Local Abbreviation P53 := 9007199254740992 (only parsing).
Local Abbreviation P54 := 18014398509481984 (only parsing).
Local Abbreviation RMAX := 1073741823 (only parsing).
Local Abbreviation YM := 9007199246352384 (only parsing).

Lemma digits2_pos_bounds (p : positive) :
  2 ^ (Zpos (digits2_pos p) - 1) <= Zpos p < 2 ^ Zpos (digits2_pos p).
Proof.
  induction p as [p IH | p IH | ]; cbn [digits2_pos].
  - rewrite Pos2Z.inj_succ, (Pos2Z.inj_xI p).
    replace (Z.succ (Zpos (digits2_pos p)) - 1) with (Z.succ (Zpos (digits2_pos p) - 1)) by lia.
    rewrite !Z.pow_succ_r by lia.
    generalize dependent (2 ^ (Zpos (digits2_pos p) - 1)).
    generalize dependent (2 ^ Zpos (digits2_pos p)). intros; lia.
  - rewrite Pos2Z.inj_succ, (Pos2Z.inj_xO p).
    replace (Z.succ (Zpos (digits2_pos p)) - 1) with (Z.succ (Zpos (digits2_pos p) - 1)) by lia.
    rewrite !Z.pow_succ_r by lia.
    generalize dependent (2 ^ (Zpos (digits2_pos p) - 1)).
    generalize dependent (2 ^ Zpos (digits2_pos p)). intros; lia.
  - cbn. lia.
Qed.

Lemma Zdigits2_of_bounds (z k : Z) :
  0 < k -> 2 ^ (k - 1) <= z < 2 ^ k -> Zdigits2 z = k.
Proof.
  intros Hk [Hlo Hhi].
  assert (Hp : 0 < 2 ^ (k - 1)) by (apply Z.pow_pos_nonneg; lia).
  destruct z as [ | p | p ]; [ lia | | lia ].
  cbn [Zdigits2]. pose proof (digits2_pos_bounds p) as [Blo Bhi].
  set (d := Zpos (digits2_pos p)) in *.
  assert (Hd : 0 < d) by (subst d; lia).
  destruct (Z.lt_trichotomy d k) as [Hlt | [Heq | Hgt]]; [ | exact Heq | ].
  - assert (2 ^ d <= 2 ^ (k - 1)) by (apply Z.pow_le_mono_r; lia). lia.
  - assert (2 ^ k <= 2 ^ (d - 1)) by (apply Z.pow_le_mono_r; lia). lia.
Qed.

Lemma Zdigits2_53 (z : Z) : P52 <= z < P53 -> Zdigits2 z = 53.
Proof. intros H. apply Zdigits2_of_bounds; [ lia | exact H ]. Qed.

Lemma Zdigits2_54 (z : Z) : P53 <= z < P54 -> Zdigits2 z = 54.
Proof. intros H. apply Zdigits2_of_bounds; [ lia | exact H ]. Qed.

Lemma shr_fexp_53 (m e : Z) (l : location) :
  Zdigits2 m = 53 -> -1074 <= e ->
  shr_fexp 53 1024 m e l = (shr_record_of_loc m l, e).
Proof.
  intros Hd He. unfold shr_fexp, fexp, emin. rewrite Hd.
  replace (Z.max (53 + e - 53) (3 - 1024 - 53) - e) with 0 by lia.
  reflexivity.
Qed.

Lemma shr_fexp_54 (m e : Z) (l : location) :
  Zdigits2 m = 54 -> -1075 <= e ->
  shr_fexp 53 1024 m e l = (shr_1 (shr_record_of_loc m l), e + 1).
Proof.
  intros Hd He. unfold shr_fexp, fexp, emin. rewrite Hd.
  replace (Z.max (54 + e - 53) (3 - 1024 - 53) - e) with 1 by lia.
  reflexivity.
Qed.

Lemma shr_m_of_loc (m : Z) (l : location) : shr_m (shr_record_of_loc m l) = m.
Proof. destruct l as [ | [ | | ] ]; reflexivity. Qed.

Lemma loc_of_shr_of_loc (m : Z) (l : location) :
  loc_of_shr_record (shr_record_of_loc m l) = l.
Proof. destruct l as [ | [ | | ] ]; reflexivity. Qed.

Lemma round_nearest_even_bounds (m : Z) (l : location) :
  m <= round_nearest_even m l <= m + 1.
Proof.
  unfold round_nearest_even.
  destruct l as [ | [ | | ] ]; try lia.
  destruct (Z.even m); lia.
Qed.

Lemma shr_1_m_bounds (r : shr_record) :
  0 < shr_m r -> 2 * shr_m (shr_1 r) <= shr_m r <= 2 * shr_m (shr_1 r) + 1.
Proof.
  destruct r as [m r s]. cbn [shr_m]. intros Hm.
  destruct m as [ | p | p ]; [ lia | | lia ].
  destruct p as [ p | p | ]; cbn [shr_1 shr_m]; lia.
Qed.

(** Rounding a mantissa of 53 or 54 digits gives a positive finite number
    whose exponent grows by at most one, and not at all when [m + 1] still
    has 53 digits. *)
Lemma binary_round_aux_exponent (m e : Z) (l : location) :
  P52 <= m < P54 - 2 -> -1074 <= e <= 969 ->
  exists m' e',
    binary_round_aux 53 1024 false m e l = S754_finite false m' e' /\
    e <= e' <= e + 1 /\ (m + 1 < P53 -> e' = e).
Proof.
  intros Hm He. unfold binary_round_aux.
  destruct (Z_lt_le_dec m P53) as [Hlt | Hge].
  - rewrite shr_fexp_53 by (try apply Zdigits2_53; lia).
    rewrite shr_m_of_loc, loc_of_shr_of_loc.
    pose proof (round_nearest_even_bounds m l) as Hr.
    set (m1 := round_nearest_even m l) in *.
    destruct (Z_lt_le_dec m1 P53) as [Hlt1 | Hge1].
    + rewrite shr_fexp_53 by (try apply Zdigits2_53; lia).
      cbn [shr_m shr_record_of_loc].
      clearbody m1. destruct m1 as [ | p | p ]; [ lia | | lia ].
      replace (e <=? 1024 - 53) with true by (symmetry; apply Z.leb_le; lia).
      exists p, e. split; [ reflexivity | lia ].
    + assert (Hm1 : m1 = P53) by lia. rewrite Hm1.
      exists (Z.to_pos P52), (e + 1).
      split; [ | lia ].
      unfold shr_fexp. cbn [Zdigits2 digits2_pos Pos.succ].
      unfold fexp, emin.
      replace (Z.max (54 + e - 53) (3 - 1024 - 53) - e) with 1 by lia.
      cbn [shr shr_record_of_loc iter_pos shr_1 shr_m].
      replace (e + 1 <=? 1024 - 53) with true by (symmetry; apply Z.leb_le; lia).
      reflexivity.
  - rewrite shr_fexp_54 by (try apply Zdigits2_54; lia).
    pose proof (shr_1_m_bounds (shr_record_of_loc m l)) as Hs.
    rewrite shr_m_of_loc in Hs.
    set (r1 := shr_1 (shr_record_of_loc m l)) in *.
    pose proof (round_nearest_even_bounds (shr_m r1) (loc_of_shr_record r1)) as Hr.
    set (m1 := round_nearest_even (shr_m r1) (loc_of_shr_record r1)) in *.
    assert (Hm1 : P52 <= m1 < P53) by lia.
    rewrite shr_fexp_53 by (try apply Zdigits2_53; lia).
    cbn [shr_m shr_record_of_loc].
    clearbody m1. destruct m1 as [ | p | p ]; [ lia | | lia ].
    replace (e + 1 <=? 1024 - 53) with true by (symmetry; apply Z.leb_le; lia).
    exists p, (e + 1). split; [ reflexivity | lia ].
Qed.

Lemma binary_round_aux_exact (m e : Z) :
  P52 <= m < P53 -> -1074 <= e <= 971 ->
  binary_round_aux 53 1024 false m e loc_Exact = S754_finite false (Z.to_pos m) e.
Proof.
  intros Hm He. unfold binary_round_aux.
  rewrite shr_fexp_53 by (try apply Zdigits2_53; lia).
  cbn [shr_record_of_loc shr_m loc_of_shr_record round_nearest_even].
  rewrite shr_fexp_53 by (try apply Zdigits2_53; lia).
  cbn [shr_record_of_loc shr_m].
  destruct m as [ | p | p ]; [ lia | | lia ].
  replace (e <=? 1024 - 53) with true by (symmetry; apply Z.leb_le; lia).
  reflexivity.
Qed.

Lemma Zpos_iter_xO (p k : positive) :
  Zpos (Pos.iter xO p k) = Zpos p * 2 ^ Zpos k.
Proof.
  induction k as [ | k IH ] using Pos.peano_ind.
  - cbn [Pos.iter]. rewrite (Pos2Z.inj_xO p). change (2 ^ 1) with 2. lia.
  - rewrite Pos.iter_succ, (Pos2Z.inj_xO (Pos.iter xO p k)), IH, Pos2Z.inj_succ.
    rewrite Z.pow_succ_r by lia. lia.
Qed.

(** The shape of [(double) s] for a positive integer below [2^53]: the
    mantissa is normalised and the value is exact. *)
Lemma double_of_Z_shape (s : Z) :
  0 < s < P53 ->
  exists mx ex,
    double_of_Z s = S754_finite false mx ex /\
    P52 <= Zpos mx < P53 /\ -52 <= ex <= 0 /\
    Zpos mx = s * 2 ^ (- ex).
Proof.
  intros Hs. destruct s as [ | p | p ]; [ lia | | lia ].
  unfold double_of_Z, binary_normalize, binary_round, dprec, demax.
  pose proof (digits2_pos_bounds p) as Hd.
  set (d := Zpos (digits2_pos p)) in *.
  assert (Hd1 : 1 <= d) by (subst d; lia).
  assert (Hd53 : d <= 53).
  { destruct (Z_le_gt_dec d 53) as [ | Hgt ]; [ assumption | ].
    assert (2 ^ 53 <= 2 ^ (d - 1)) by (apply Z.pow_le_mono_r; lia). lia. }
  unfold fexp, emin.
  replace (Z.max (d + 0 - 53) (3 - 1024 - 53)) with (d - 53) by lia.
  unfold shl_align.
  destruct (d - 53 - 0) as [ | k | k ] eqn:Ek; [ | lia | ].
  - assert (d = 53) by lia.
    replace (d - 1) with 52 in Hd by lia. replace d with 53 in Hd by lia.
    rewrite binary_round_aux_exact by lia.
    exists p, 0. split; [ reflexivity | ].
    change (2 ^ (- 0)) with 1. lia.
  - assert (Hk : Zpos k = 53 - d) by lia.
    pose proof (Zpos_iter_xO p k) as Hit. rewrite Hk in Hit.
    assert (Hpow : 2 ^ (d - 1) * 2 ^ (53 - d) = P52).
    { rewrite <- Z.pow_add_r by lia. replace (d - 1 + (53 - d)) with 52 by lia. reflexivity. }
    assert (Hpow' : 2 ^ d * 2 ^ (53 - d) = P53).
    { rewrite <- Z.pow_add_r by lia. replace (d + (53 - d)) with 53 by lia. reflexivity. }
    assert (Hpos : 0 < 2 ^ (53 - d)) by (apply Z.pow_pos_nonneg; lia).
    assert (Hb : P52 <= Zpos (Pos.iter xO p k) < P53).
    { rewrite Hit. split.
      - rewrite <- Hpow. apply Z.mul_le_mono_nonneg_r; lia.
      - rewrite <- Hpow'. apply Z.mul_lt_mono_pos_r; lia. }
    rewrite binary_round_aux_exact by lia.
    exists (Pos.iter xO p k), (d - 53). split; [ reflexivity | ].
    replace (- (d - 53)) with (53 - d) by lia.
    repeat split; lia.
Qed.

Lemma double_of_RMAX : double_of_Z RMAX = S754_finite false 9007199246352384 (-23).
Proof. vm_compute. reflexivity. Qed.

Lemma SFdiv_core_binary_RMAX (mx : positive) (ex : Z) :
  P52 <= Zpos mx < P53 -> -52 <= ex <= 0 ->
  SFdiv_core_binary 53 1024 (Zpos mx) ex YM (-23) =
  (Zpos mx * P53 / YM, ex - 30, new_location YM (Zpos mx * P53 mod YM)).
Proof.
  intros Hm He. unfold SFdiv_core_binary.
  rewrite (Zdigits2_53 (Zpos mx)) by lia.
  replace (Zdigits2 YM) with 53 by reflexivity.
  unfold fexp, emin.
  replace (Z.min (Z.max (53 + ex - (53 + -23) - 53) (3 - 1024 - 53)) (ex - -23))
    with (ex - 30) by lia.
  replace (ex - -23 - (ex - 30)) with 53 by lia.
  rewrite Z.shiftl_mul_pow2 by lia. change (2 ^ 53) with P53.
  unfold Z.div, Z.modulo.
  destruct (Z.div_eucl (Zpos mx * P53) YM) as [q r]. reflexivity.
Qed.

(** The binary64 quotient of an integer in [0, 0x3FFFFFFF) by 0x3FFFFFFF is
    at least zero and below one. *)
Lemma quotient_in_unit_interval (s : Z) :
  0 <= s < RMAX ->
  double_leb double_zero (double_div (double_of_Z s) (double_of_Z RMAX)) = true /\
  double_ltb (double_div (double_of_Z s) (double_of_Z RMAX)) double_one = true.
Proof.
  intros Hs.
  destruct (Z.eq_dec s 0) as [-> | Hnz]; [ vm_compute; auto | ].
  destruct (double_of_Z_shape s) as (mx & ex & Hx & Hmx & Hex & Hval); [ lia | ].
  rewrite Hx, double_of_RMAX.
  unfold double_div, SFdiv, dprec, demax. cbn [xorb].
  rewrite SFdiv_core_binary_RMAX by lia.
  assert (Hex23 : ex <= -23).
  { destruct (Z_le_gt_dec ex (-23)) as [ | Hgt ]; [ assumption | ].
    assert (2 ^ (- ex) <= 2 ^ 22) by (apply Z.pow_le_mono_r; lia).
    assert (0 < 2 ^ (- ex)) by (apply Z.pow_pos_nonneg; lia).
    assert (s * 2 ^ (- ex) <= s * 2 ^ 22) by (apply Z.mul_le_mono_nonneg_l; lia).
    change (2 ^ 22) with 4194304 in *. lia. }
  set (q := Zpos mx * P53 / YM).
  assert (Hq : Zpos mx * P53 = YM * q + Zpos mx * P53 mod YM)
    by (apply Z.div_mod; lia).
  assert (Hr : 0 <= Zpos mx * P53 mod YM < YM) by (apply Z.mod_pos_bound; lia).
  destruct (binary_round_aux_exponent q (ex - 30)
              (new_location YM (Zpos mx * P53 mod YM)))
    as (m' & e' & Hres & He' & Hsame); [ lia | lia | ].
  rewrite Hres.
  assert (He53 : e' <= -53).
  { destruct (Z.eq_dec ex (-23)) as [E | E]; [ | lia ].
    rewrite E in Hval. change (2 ^ (- -23)) with 8388608 in Hval.
    rewrite Hsame; lia. }
  split; [ reflexivity | ].
  unfold double_one, dprec, demax.
  replace (SFone 53 1024) with (S754_finite false 4503599627370496 (-52))
    by (vm_compute; reflexivity).
  unfold double_ltb, SFltb, SFcompare.
  replace (e' ?= -52) with Lt by (symmetry; apply Z.compare_lt_iff; lia).
  reflexivity.
Qed.

End DoubleFacts.

(* ================================================================== *)
(** * my_rnd.cc: the generator *)

Module MyRndFacts.
Import CTypes MyRnd.

Section ULong.
Variable ulong_bits : Z.
Hypothesis ulong_bits_ge_32 : 32 <= ulong_bits.

Lemma ulong_small (z : Z) : 0 <= z < 2 ^ 32 -> ulong ulong_bits z = z.
Proof.
  intros Hz. unfold ulong. apply Z.mod_small.
  assert (2 ^ 32 <= 2 ^ ulong_bits) by (apply Z.pow_le_mono_r; lia).
  lia.
Qed.

Lemma my_rnd_init_initialised (rand_st : my_rnd_struct) (s1 s2 : Z) :
  initialised (my_rnd_init ulong_bits rand_st s1 s2).
Proof.
  unfold initialised, my_rnd_init. cbn [seed1 seed2 max_value max_value_dbl].
  repeat split; try apply Z.mod_pos_bound; lia.
Qed.

(** C7. From a state whose seeds lie in [0, 0x3FFFFFFF), as [my_rnd_init]
    leaves it, [my_rnd] returns: seed1 becomes (seed1*3 + seed2) mod
    0x3FFFFFFF, seed2 becomes (new seed1 + seed2 + 33) mod 0x3FFFFFFF, the
    value returned is the binary64 quotient of the new seed1 by 0x3FFFFFFF,
    and that value is at least 0 and below 1.  The state reached is again
    such a state. *)
Theorem my_rnd_update_and_range (rand_st : my_rnd_struct) :
  initialised rand_st ->
  exists (v : double) (st' : my_rnd_struct),
    my_rnd ulong_bits rand_st = Some (v, st') /\
    seed1 st' = (seed1 rand_st * 3 + seed2 rand_st) mod 0x3FFFFFFF /\
    seed2 st' = (seed1 st' + seed2 rand_st + 33) mod 0x3FFFFFFF /\
    max_value st' = max_value rand_st /\
    max_value_dbl st' = max_value_dbl rand_st /\
    v = double_div (double_of_Z (seed1 st')) (double_of_Z 0x3FFFFFFF) /\
    double_leb double_zero v = true /\
    double_ltb v double_one = true /\
    initialised st'.
Proof.
  intros (Hmax & Hdbl & Hs1 & Hs2).
  unfold my_rnd. rewrite Hmax. cbn [Z.eqb].
  cbn [seed1 seed2 max_value max_value_dbl].
  rewrite (ulong_small (seed1 rand_st * 3)) by lia.
  rewrite (ulong_small (seed1 rand_st * 3 + seed2 rand_st)) by lia.
  set (n1 := (seed1 rand_st * 3 + seed2 rand_st) mod 1073741823).
  assert (Hn1 : 0 <= n1 < 1073741823) by (apply Z.mod_pos_bound; lia).
  rewrite (ulong_small (n1 + seed2 rand_st)) by lia.
  rewrite (ulong_small (n1 + seed2 rand_st + 33)) by lia.
  set (n2 := (n1 + seed2 rand_st + 33) mod 1073741823).
  assert (Hn2 : 0 <= n2 < 1073741823) by (apply Z.mod_pos_bound; lia).
  rewrite Hdbl.
  destruct (DoubleFacts.quotient_in_unit_interval n1 Hn1) as [Hge Hlt].
  eexists; eexists.
  split; [ reflexivity | ].
  cbn [seed1 seed2 max_value max_value_dbl].
  repeat split; auto; cbn [seed1 seed2]; lia.
Qed.

(** Without a library generator, or when its call returns 0, [my_rnd_ssl]
    is [my_rnd]: same value, same new state.  When the call returns nonzero
    the value is the binary64 quotient of the 32-bit integer by UINT_MAX. *)
Lemma my_rnd_ssl_fallback (rand_st : my_rnd_struct) (r : rand_bytes_result) :
  my_rnd_ssl ulong_bits None rand_st = my_rnd ulong_bits rand_st /\
  (rc r = 0 ->
   my_rnd_ssl ulong_bits (Some r) rand_st = my_rnd ulong_bits rand_st) /\
  (rc r <> 0 ->
   my_rnd_ssl ulong_bits (Some r) rand_st =
   Some (double_div (double_of_Z (res r)) (double_of_Z UINT_MAX), rand_st)).
Proof.
  split; [ reflexivity | split ]; intros Hrc; unfold my_rnd_ssl.
  - rewrite Hrc. reflexivity.
  - replace (rc r =? 0) with false by (symmetry; apply Z.eqb_neq; exact Hrc).
    reflexivity.
Qed.

(** C8.  [my_rnd_ssl] falls back to [my_rnd] only when the library call
    returns 0.  A call that fails with -1, as [RAND_bytes] does when the
    generator is not supported, is taken as a success by [if (rc)]: whatever
    [res] holds (the call has not filled it), [my_rnd_ssl] returns
    [res / UINT_MAX] and leaves the structure as it was; on the structure
    that [my_rnd_init(&st, 1, 2)] leaves, this is not what the fallback
    [my_rnd] gives, while the failure 0 on the same structure does fall
    back. *)
Theorem my_rnd_ssl_error_taken_as_success (res0 : Z) (rand_st : my_rnd_struct) :
  my_rnd_ssl ulong_bits (Some (mk_rand_bytes (-1) res0)) rand_st =
    Some (double_div (double_of_Z res0) (double_of_Z UINT_MAX), rand_st) /\
  my_rnd_ssl 64 (Some (mk_rand_bytes (-1) 7))
             (my_rnd_init 64 (mk_rnd 0 0 0 double_zero) 1 2) <>
  my_rnd 64 (my_rnd_init 64 (mk_rnd 0 0 0 double_zero) 1 2) /\
  my_rnd_ssl 64 (Some (mk_rand_bytes 0 7))
             (my_rnd_init 64 (mk_rnd 0 0 0 double_zero) 1 2) =
  my_rnd 64 (my_rnd_init 64 (mk_rnd 0 0 0 double_zero) 1 2).
Proof.
  split; [ reflexivity | ]. split; [ | reflexivity ].
  intros H. vm_compute in H. discriminate H.
Qed.

Lemma do_call_ssl_succeeded (c : call) (rand_st : my_rnd_struct) :
  ssl_succeeded c = true ->
  exists v, do_call ulong_bits c rand_st = Some (v, rand_st) /\
            forall st, do_call ulong_bits c st = Some (v, st).
Proof.
  destruct c as [ | [ r | ] ]; cbn [ssl_succeeded]; try discriminate.
  intros Hrc. cbn [do_call my_rnd_ssl]. rewrite Hrc.
  eexists. split; [ reflexivity | intros st; reflexivity ].
Qed.

(** C9. A call of [my_rnd_ssl] whose library call succeeded returns a value
    that does not depend on the structure and leaves the structure as it
    was; so, in any sequence of calls, dropping those calls changes neither
    the values the calls of [my_rnd] return nor the final structure. *)
Theorem my_rnd_ssl_success_frame (cs : list call) (rand_st : my_rnd_struct) :
  (forall r st, rc r <> 0 ->
     my_rnd_ssl ulong_bits (Some r) st =
     Some (double_div (double_of_Z (res r)) (double_of_Z UINT_MAX), st)) /\
  option_map (fun o => (my_rnd_values (fst o), snd o)) (do_calls ulong_bits cs rand_st) =
  option_map (fun o => (my_rnd_values (fst o), snd o))
    (do_calls ulong_bits (filter (fun c => negb (ssl_succeeded c)) cs) rand_st).
Proof.
  split.
  - intros r st Hrc. unfold my_rnd_ssl.
    replace (rc r =? 0) with false by (symmetry; apply Z.eqb_neq; exact Hrc).
    reflexivity.
  - revert rand_st. induction cs as [ | c cs IH ]; intros rand_st; [ reflexivity | ].
    cbn [filter]. destruct (ssl_succeeded c) eqn:Hc; cbn [negb].
    + destruct (do_call_ssl_succeeded c rand_st Hc) as (v & Hv & _).
      cbn [do_calls]. rewrite Hv. rewrite <- IH.
      destruct (do_calls ulong_bits cs rand_st) as [ [out st''] | ]; cbn [option_map fst snd].
      * destruct c as [ | ssl ]; [ discriminate Hc | reflexivity ].
      * reflexivity.
    + cbn [do_calls].
      destruct (do_call ulong_bits c rand_st) as [ [v st'] | ]; [ | reflexivity ].
      specialize (IH st').
      destruct (do_calls ulong_bits cs st') as [ [out st''] | ];
        destruct (do_calls ulong_bits (filter (fun c => negb (ssl_succeeded c)) cs) st')
          as [ [out2 st2] | ]; cbn [option_map fst snd] in *; try discriminate; try reflexivity.
      injection IH as Hout Hst. subst st2.
      destruct c as [ | ssl ]; cbn [my_rnd_values]; rewrite Hout; reflexivity.
Qed.

End ULong.

(** The state after [my_rnd_init(&st, 1, 2)] with a 64-bit [unsigned long]. *)
Lemma my_rnd_update_and_range_witness :
  exists (v : double) (st' : my_rnd_struct),
    my_rnd 64 (my_rnd_init 64 (mk_rnd 0 0 0 double_zero) 1 2) = Some (v, st') /\
    seed1 st' = 5 /\ seed2 st' = 40 /\
    double_leb double_zero v = true /\ double_ltb v double_one = true.
Proof.
  destruct (my_rnd_update_and_range 64 ltac:(lia)
              (my_rnd_init 64 (mk_rnd 0 0 0 double_zero) 1 2)
              ltac:(vm_compute; repeat split; try reflexivity; discriminate))
    as (v & st' & Hrun & H1 & H2 & _ & _ & _ & Hge & Hlt & _).
  exists v, st'. rewrite H2, H1. repeat split; assumption.
Defined.

Lemma my_rnd_ssl_fallback_witness :
  my_rnd_ssl 64 (Some (mk_rand_bytes 0 7)) (mk_rnd 1 2 0x3FFFFFFF (double_of_Z 0x3FFFFFFF)) =
  my_rnd 64 (mk_rnd 1 2 0x3FFFFFFF (double_of_Z 0x3FFFFFFF)).
Proof.
  apply (proj1 (proj2 (my_rnd_ssl_fallback 64
                         (mk_rnd 1 2 0x3FFFFFFF (double_of_Z 0x3FFFFFFF))
                         (mk_rand_bytes 0 7)))).
  reflexivity.
Defined.

End MyRndFacts.

(* ================================================================== *)
(** * The execution model *)

Module ExecFacts.
Import Exec.

Lemma interfere_trace {S : Type} (w : world S) : w_trace (interfere w) = w_trace w.
Proof. unfold interfere. destruct (w_env w); reflexivity. Qed.

Lemma log_app (tr evs : list event) : log tr evs = tr ++ evs.
Proof. destruct evs; [ symmetry; apply app_nil_r | reflexivity ]. Qed.

Lemma run_bind {S A B : Type} (c : M S A) (k : A -> M S B) (w : world S) :
  run (bind c k) w =
  match run c w with
  | Returned a w' => run (k a) w'
  | Aborted w' => Aborted w'
  | Pending w' => Pending w'
  end.
Proof.
  revert w. induction c as [ a | X shared f ev k' IH | | ]; intros w;
    cbn [run bind]; try reflexivity.
  destruct (f _) as [x s']. apply IH.
Qed.

Lemma bind_returned {S A B : Type} (c : M S A) (k : A -> M S B) (w w' : world S) (a : A) :
  run c w = Returned a w' -> run (bind c k) w = run (k a) w'.
Proof. intros H. rewrite run_bind, H. reflexivity. Qed.

Lemma bind_aborted {S A B : Type} (c : M S A) (k : A -> M S B) (w w' : world S) :
  run c w = Aborted w' -> run (bind c k) w = Aborted w'.
Proof. intros H. rewrite run_bind, H. reflexivity. Qed.

Lemma bind_pending {S A B : Type} (c : M S A) (k : A -> M S B) (w w' : world S) :
  run c w = Pending w' -> run (bind c k) w = Pending w'.
Proof. intros H. rewrite run_bind, H. reflexivity. Qed.

Lemma run_emit {S : Type} (e : event) (w : world S) :
  run (emit e) w = Returned tt (mk_world (w_state w) (w_env w) (w_trace w ++ [e])).
Proof. reflexivity. Qed.

Lemma run_modify {S : Type} (f : S -> S) (w : world S) :
  run (modify f) w = Returned tt (mk_world (f (w_state w)) (w_env w) (w_trace w)).
Proof. reflexivity. Qed.

Lemma run_get {S : Type} (w : world S) :
  run get w = Returned (w_state w) (mk_world (w_state w) (w_env w) (w_trace w)).
Proof. reflexivity. Qed.

Lemma run_ut_a {S : Type} (b : S -> bool) (w : world S) :
  run (ut_a b) w =
  if b (w_state w)
  then Returned tt (mk_world (w_state w) (w_env w) (w_trace w))
  else Aborted (mk_world (w_state w) (w_env w) (w_trace w)).
Proof. unfold ut_a. cbn [run]. destruct (b (w_state w)); reflexivity. Qed.

Lemma world_eta {S : Type} (w : world S) :
  mk_world (w_state w) (w_env w) (w_trace w) = w.
Proof. destruct w; reflexivity. Qed.

Lemma run_atomically {S A : Type} (f : S -> A * S) (ev : S -> A -> list event) (w : world S) :
  run (atomically f ev) w =
  Returned (fst (f (w_state (interfere w))))
    (mk_world (snd (f (w_state (interfere w)))) (w_env (interfere w))
       (w_trace w ++ ev (w_state (interfere w)) (fst (f (w_state (interfere w)))))).
Proof.
  unfold atomically. cbn [run].
  destruct (f (w_state (interfere w))) as [a s']. cbn [fst snd].
  rewrite log_app, interfere_trace. reflexivity.
Qed.

Lemma interfere_stable {S X : Type} (obs : S -> X) (w : world S) :
  stable obs w ->
  obs (w_state (interfere w)) = obs (w_state w) /\ stable obs (interfere w).
Proof.
  unfold stable, interfere. intros Hst.
  destruct (w_env w) as [ | f rest ] eqn:Henv.
  - rewrite Henv. split; [ reflexivity | constructor ].
  - inversion Hst as [ | ? ? Hf Hrest ]; subst. cbn [w_state w_env].
    split; [ apply Hf | exact Hrest ].
Qed.

Lemma keeps_ret {S A X : Type} (obs : S -> X) (a : A) : keeps obs (ret (S:=S) a).
Proof. intros w Hst. cbn. auto. Qed.

Lemma keeps_pending {S A X : Type} (obs : S -> X) : keeps obs (pending (S:=S) (A:=A)).
Proof. intros w Hst. cbn. auto. Qed.

Lemma keeps_emit {S X : Type} (obs : S -> X) (e : event) : keeps obs (emit (S:=S) e).
Proof. intros w Hst. cbn. auto. Qed.

Lemma keeps_get {S X : Type} (obs : S -> X) : keeps obs (get (S:=S)).
Proof. intros w Hst. cbn. auto. Qed.

Lemma keeps_modify {S X : Type} (obs : S -> X) (f : S -> S) :
  (forall s, obs (f s) = obs s) -> keeps obs (modify f).
Proof. intros Hf w Hst. cbn. auto. Qed.

Lemma keeps_ut_a {S X : Type} (obs : S -> X) (b : S -> bool) : keeps obs (ut_a b).
Proof. intros w Hst. rewrite run_ut_a. destruct (b (w_state w)); cbn; auto. Qed.

Lemma keeps_ut_ad {S X : Type} (obs : S -> X) (dbg : bool) (b : S -> bool) :
  keeps obs (ut_ad dbg b).
Proof. unfold ut_ad. destruct dbg; [ apply keeps_ut_a | apply keeps_ret ]. Qed.

Lemma keeps_atomically {S A X : Type} (obs : S -> X) (f : S -> A * S)
    (ev : S -> A -> list event) :
  (forall s, obs (snd (f s)) = obs s) -> keeps obs (atomically f ev).
Proof.
  intros Hf w Hst. rewrite run_atomically. cbn [final_world w_state w_env].
  destruct (interfere_stable obs w Hst) as [Hobs Hst'].
  split; [ rewrite Hf; exact Hobs | exact Hst' ].
Qed.

Lemma keeps_bind {S A B X : Type} (obs : S -> X) (c : M S A) (k : A -> M S B) :
  keeps obs c -> (forall a, keeps obs (k a)) -> keeps obs (bind c k).
Proof.
  intros Hc Hk w Hst. rewrite run_bind.
  specialize (Hc w Hst).
  destruct (run c w) as [ a w1 | w1 | w1 ]; cbn [final_world] in *; try exact Hc.
  destruct Hc as [Hobs Hst1].
  destruct (Hk a w1 Hst1) as [Hobs2 Hst2].
  split; [ congruence | exact Hst2 ].
Qed.

Lemma preserves_keeps {S A X : Type} (obs : S -> X) (c : M S A) :
  preserves obs c -> keeps obs c.
Proof.
  induction c as [ a | B shared f ev k IH | | ]; intros Hc w Hst;
    try (cbn; split; [ reflexivity | exact Hst ]).
  destruct Hc as [Hf Hk]. cbn [run].
  assert (Hw : obs (w_state (if shared then interfere w else w)) = obs (w_state w) /\
               stable obs (if shared then interfere w else w)).
  { destruct shared; [ apply interfere_stable; exact Hst | split; [ reflexivity | exact Hst ] ]. }
  destruct Hw as [Hobs Hst1].
  specialize (Hf (w_state (if shared then interfere w else w))).
  destruct (f (w_state (if shared then interfere w else w))) as [x s'] eqn:Hfx.
  cbn [snd] in Hf.
  destruct (IH x (Hk x) (mk_world s' (w_env (if shared then interfere w else w))
                           (log (w_trace (if shared then interfere w else w))
                                (ev (w_state (if shared then interfere w else w)) x))))
    as [H1 H2]; [ exact Hst1 | ].
  split; [ | exact H2 ].
  rewrite H1. cbn [w_state]. rewrite Hf. exact Hobs.
Qed.

Lemma preserves_bind {S A B X : Type} (obs : S -> X) (c : M S A) (k : A -> M S B) :
  preserves obs c -> (forall a, preserves obs (k a)) -> preserves obs (bind c k).
Proof.
  intros Hc Hk. induction c as [ a | C shared f ev k' IH | | ]; cbn [bind preserves].
  - apply Hk.
  - destruct Hc as [Hf Hk']. split; [ exact Hf | intros x; apply IH; apply Hk' ].
  - exact Logic.I.
  - exact Logic.I.
Qed.

Lemma preserves_zoom {S T A X : Type} (obsS : S -> X) (obsT : T -> X)
    (proj : S -> T) (upd : T -> S -> S) (c : M T A) :
  (forall s, obsS s = obsT (proj s)) ->
  (forall t s, obsS (upd t s) = obsT t) ->
  preserves obsT c -> preserves obsS (zoom proj upd c).
Proof.
  intros Hproj Hupd. induction c as [ a | B shared f ev k IH | | ]; cbn [zoom preserves];
    try (intros; exact Logic.I).
  intros [Hf Hk]. split; [ | intros x; apply IH; apply Hk ].
  intros s. specialize (Hf (proj s)). destruct (f (proj s)) as [x t']. cbn [snd] in *.
  rewrite Hupd, Hf, Hproj. reflexivity.
Qed.

End ExecFacts.

(* ================================================================== *)
(** * TTASFutexMutex *)

Module TTASFutexMutexFacts.
Import Exec Sync CTypes TTASFutexMutex ExecFacts.

(** C3. [exit] swaps the lock word to UNLOCKED with release ordering, and
    wakes one waiter on the futex exactly when the value replaced was
    WAITERS; the lock word it leaves is UNLOCKED.  The value replaced is the
    lock word at the moment of the swap, whatever the other threads did
    before. *)
Theorem exit_swaps_and_wakes (P : Type) (w : world (t P)) :
  run exit w =
  Returned tt
    (mk_world
       (set_lock_word MUTEX_STATE_UNLOCKED (w_state (interfere w)))
       (w_env (interfere w))
       (w_trace w ++
        EvFas32 (m_lock_word (w_state (interfere w))) MUTEX_STATE_UNLOCKED
                MY_MEMORY_ORDER_RELEASE ::
        (if m_lock_word (w_state (interfere w)) =? MUTEX_STATE_WAITERS
         then [EvFutexWake 1] else []))) /\
  m_lock_word (set_lock_word MUTEX_STATE_UNLOCKED (w_state (interfere w))) =
  MUTEX_STATE_UNLOCKED.
Proof.
  split; [ | reflexivity ].
  unfold exit, my_atomic_fas32_explicit.
  rewrite (bind_returned _ _ _ _ _ (run_atomically _ _ w)). cbn [fst snd].
  destruct (m_lock_word (w_state (interfere w)) =? MUTEX_STATE_WAITERS).
  - rewrite run_emit. cbn [w_state w_env w_trace].
    rewrite <- app_assoc. reflexivity.
  - reflexivity.
Qed.

Section Enter.
Variable P : Type.
Variable hooks : policy_hooks P (t P).
Variable max_spins max_delay : Z.
Hypothesis max_spins_range : 0 <= max_spins < 2 ^ 32.

Local Abbreviation cas_won :=
  (EvCas32 MUTEX_STATE_UNLOCKED MUTEX_STATE_UNLOCKED MUTEX_STATE_LOCKED
     MY_MEMORY_ORDER_ACQUIRE MY_MEMORY_ORDER_RELAXED).

Local Abbreviation swap_won :=
  (EvFas32 MUTEX_STATE_UNLOCKED MUTEX_STATE_WAITERS MY_MEMORY_ORDER_ACQUIRE).

Lemma uint32_small (z : Z) : 0 <= z < 2 ^ 32 -> uint32 z = z.
Proof. intros H. unfold uint32. apply Z.mod_small. exact H. Qed.

Lemma run_policy_add (n_spins n_waits : Z) (w : world (t P)) :
  run (policy_add hooks n_spins n_waits) w =
  Returned tt
    (mk_world (set_policy (pol_add hooks n_spins n_waits (m_policy (w_state w))) (w_state w))
              (w_env w) (w_trace w ++ [EvPolicyAdd n_spins n_waits])).
Proof. reflexivity. Qed.

(** One round of the first loop. *)
Lemma spin_loop_round (fuel : nat) (n : Z) (w : world (t P)) :
  0 <= n < max_spins ->
  run (spin_loop hooks (S fuel) n max_spins max_delay) w =
  if m_lock_word (w_state (interfere w)) =? MUTEX_STATE_UNLOCKED then
    Returned (inl n)
      (mk_world (mk (pol_add hooks n 0 (m_policy (w_state (interfere w))))
                    MUTEX_STATE_LOCKED)
                (w_env (interfere w))
                (w_trace w ++ [cas_won; EvPolicyAdd n 0]))
  else
    run (spin_loop hooks fuel (n + 1) max_spins max_delay)
      (mk_world (w_state (interfere w)) (w_env (interfere w))
                (w_trace w ++ spin_round max_delay (m_lock_word (w_state (interfere w))))).
Proof.
  intros Hn. cbn [spin_loop].
  replace (n <? max_spins) with true by (symmetry; apply Z.ltb_lt; lia).
  unfold try_lock, my_atomic_cas32_strong_explicit.
  rewrite (bind_returned _ _ _ _ _ (run_atomically _ _ w)).
  destruct (m_lock_word (w_state (interfere w)) =? MUTEX_STATE_UNLOCKED) eqn:Hold;
    cbn [fst snd].
  - apply Z.eqb_eq in Hold.
    rewrite (bind_returned _ _ _ _ _ (run_policy_add _ _ _)).
    cbn [run ret w_state w_env w_trace set_policy set_lock_word m_policy m_lock_word].
    rewrite Hold, <- app_assoc. reflexivity.
  - rewrite (bind_returned _ _ _ _ _ (run_emit _ _)).
    cbn [w_state w_env w_trace].
    rewrite uint32_small by lia.
    unfold spin_round. rewrite <- app_assoc. reflexivity.
Qed.

(** The first loop: it returns, either from inside at the first round that
    finds the lock word UNLOCKED, or at its end after [max_spins - n]
    rounds that all found it taken. *)
Lemma spin_loop_outcome (fuel : nat) (n : Z) (w : world (t P)) :
  0 <= n -> n + Z.of_nat fuel = max_spins ->
  (exists (olds : list Z) (w' : world (t P)) (p : P),
      run (spin_loop hooks fuel n max_spins max_delay) w =
        Returned (inl (n + Z.of_nat (List.length olds))) w' /\
      n + Z.of_nat (List.length olds) < max_spins /\
      Forall (fun old => old <> MUTEX_STATE_UNLOCKED) olds /\
      w_trace w' =
        w_trace w ++ flat_map (spin_round max_delay) olds ++
        [cas_won; EvPolicyAdd (n + Z.of_nat (List.length olds)) 0] /\
      w_state w' =
        mk (pol_add hooks (n + Z.of_nat (List.length olds)) 0 p) MUTEX_STATE_LOCKED) \/
  (exists (olds : list Z) (w' : world (t P)),
      run (spin_loop hooks fuel n max_spins max_delay) w = Returned (inr max_spins) w' /\
      n + Z.of_nat (List.length olds) = max_spins /\
      Forall (fun old => old <> MUTEX_STATE_UNLOCKED) olds /\
      w_trace w' = w_trace w ++ flat_map (spin_round max_delay) olds).
Proof.
  revert n w. induction fuel as [ | fuel IH ]; intros n w Hn Hfuel.
  - right. exists [], w. cbn [spin_loop].
    replace (n <? max_spins) with false by (symmetry; apply Z.ltb_ge; lia).
    cbn [List.length flat_map run ret]. rewrite app_nil_r.
    assert (n = max_spins) as -> by lia.
    repeat split; [ lia | constructor ].
  - rewrite spin_loop_round by lia.
    destruct (m_lock_word (w_state (interfere w)) =? MUTEX_STATE_UNLOCKED) eqn:Hold.
    + left. exists []. eexists. exists (m_policy (w_state (interfere w))).
      cbn [List.length flat_map Z.of_nat app]. rewrite Z.add_0_r.
      repeat split; [ lia | constructor ].
    + apply Z.eqb_neq in Hold.
      match goal with
      | |- context [run (spin_loop hooks fuel (n + 1) max_spins max_delay) ?w2] =>
          destruct (IH (n + 1) w2 ltac:(lia) ltac:(lia))
            as [ (olds & w' & p & Hrun & Hlt & Hall & Htr & Hst)
               | (olds & w' & Hrun & Hlen & Hall & Htr) ]
      end.
      * left. exists (m_lock_word (w_state (interfere w)) :: olds), w', p.
        cbn [List.length flat_map]. rewrite Nat2Z.inj_succ.
        replace (n + Z.succ (Z.of_nat (List.length olds)))
          with (n + 1 + Z.of_nat (List.length olds)) by lia.
        rewrite Hrun, Htr. cbn [w_trace].
        repeat split; try assumption; [ constructor; assumption | ].
        rewrite <- !app_assoc. reflexivity.
      * right. exists (m_lock_word (w_state (interfere w)) :: olds), w'.
        cbn [List.length flat_map]. rewrite Nat2Z.inj_succ.
        rewrite Hrun, Htr. cbn [w_trace].
        repeat split; [ lia | constructor; assumption | ].
        rewrite <- !app_assoc. reflexivity.
Qed.

(** One round of the second loop. *)
Lemma park_loop_round (fuel : nat) (n : Z) (w : world (t P)) :
  run (park_loop (S fuel) n) w =
  if m_lock_word (w_state (interfere w)) =? MUTEX_STATE_UNLOCKED then
    Returned n
      (mk_world (set_lock_word MUTEX_STATE_WAITERS (w_state (interfere w)))
                (w_env (interfere w))
                (w_trace w ++ [swap_won]))
  else
    run (park_loop fuel (uint32 (n + 1)))
      (mk_world (set_lock_word MUTEX_STATE_WAITERS (w_state (interfere w)))
                (w_env (interfere w))
                (w_trace w ++ park_round (m_lock_word (w_state (interfere w))))).
Proof.
  cbn [park_loop]. unfold my_atomic_fas32_explicit.
  rewrite (bind_returned _ _ _ _ _ (run_atomically _ _ w)). cbn [fst snd].
  destruct (m_lock_word (w_state (interfere w)) =? MUTEX_STATE_UNLOCKED) eqn:Hold.
  - apply Z.eqb_eq in Hold. cbn [run ret]. rewrite Hold. reflexivity.
  - rewrite (bind_returned _ _ _ _ _ (run_emit _ _)).
    cbn [w_state w_env w_trace].
    unfold park_round. rewrite <- app_assoc. reflexivity.
Qed.

(** The second loop: it returns at the first swap that replaces UNLOCKED,
    with the number of swaps before it (modulo 2^32); it is still parked
    when [fuel] swaps all replaced another value. *)
Lemma park_loop_outcome (fuel : nat) (n : Z) (w : world (t P)) :
  (exists (olds : list Z) (w' : world (t P)),
      (List.length olds < fuel)%nat /\
      Forall (fun old => old <> MUTEX_STATE_UNLOCKED) olds /\
      run (park_loop fuel n) w =
        Returned (Nat.iter (List.length olds) (fun k => uint32 (k + 1)) n) w' /\
      w_trace w' = w_trace w ++ flat_map park_round olds ++ [swap_won] /\
      m_lock_word (w_state w') = MUTEX_STATE_WAITERS) \/
  (exists (olds : list Z) (w' : world (t P)),
      List.length olds = fuel /\
      Forall (fun old => old <> MUTEX_STATE_UNLOCKED) olds /\
      run (park_loop fuel n) w = Pending w' /\
      w_trace w' = w_trace w ++ flat_map park_round olds).
Proof.
  revert n w. induction fuel as [ | fuel IH ]; intros n w.
  - right. exists [], w. cbn [park_loop List.length flat_map run pending]. rewrite app_nil_r.
    repeat split. constructor.
  - rewrite park_loop_round.
    destruct (m_lock_word (w_state (interfere w)) =? MUTEX_STATE_UNLOCKED) eqn:Hold.
    + left. exists []. eexists.
      cbn [List.length flat_map app Nat.iter nat_rect w_trace w_state set_lock_word m_lock_word].
      repeat split; [ lia | constructor ].
    + apply Z.eqb_neq in Hold.
      match goal with
      | |- context [run (park_loop fuel ?n2) ?w2] =>
          destruct (IH n2 w2)
            as [ (olds & w' & Hlen & Hall & Hrun & Htr & Hst)
               | (olds & w' & Hlen & Hall & Hrun & Htr) ]
      end.
      * left. exists (m_lock_word (w_state (interfere w)) :: olds), w'.
        rewrite Hrun, Htr. cbn [List.length flat_map w_trace].
        rewrite Nat.iter_succ_r.
        repeat split;
          first [ lia | assumption | constructor; assumption
                | rewrite <- !app_assoc; reflexivity ].
      * right. exists (m_lock_word (w_state (interfere w)) :: olds), w'.
        rewrite Hrun, Htr. cbn [List.length flat_map w_trace].
        repeat split; [ lia | constructor; assumption | ].
        rewrite <- !app_assoc. reflexivity.
Qed.

Lemma iter_uint32_succ (k : nat) : Nat.iter k (fun n => uint32 (n + 1)) 0 = uint32 (Z.of_nat k).
Proof.
  induction k as [ | k IH ]; [ reflexivity | ].
  cbn [Nat.iter nat_rect]. change (nat_rect _ _ _ k) with (Nat.iter k (fun n => uint32 (n + 1)) 0).
  rewrite IH, Nat2Z.inj_succ. unfold uint32.
  rewrite Z.add_mod_idemp_l by lia. reflexivity.
Qed.

(** C4. [enter(max_spins, max_delay, ...)] ends in one of three ways.
    (1) Some attempt [i < max_spins] of the spin phase found the lock word
    UNLOCKED after [i] attempts that did not, each followed by a delay: the
    compare-and-swap sets it to LOCKED, [policy.add(i, 0)] is called and
    [enter] returns with the lock word LOCKED.  (2) All [max_spins] attempts
    failed, each followed by a delay, and no further attempt is made: the
    park phase swaps the lock word to WAITERS with acquire ordering, waits
    on the futex after every swap that replaced another value than
    UNLOCKED, stops at the first swap that replaced UNLOCKED, and
    [policy.add(max_spins, n_waits)] is called with the number of waits.
    (3) The thread is still parked: the [fuel] swaps made so far all
    replaced a value other than UNLOCKED.  [olds] and [polds] are the values
    found in the lock word by the successive attempts and swaps. *)
Theorem enter_spin_then_park (fuel : nat) (filename : string) (line : Z) (w : world (t P)) :
  (exists (olds : list Z) (w' : world (t P)) (p : P),
      run (enter hooks fuel max_spins max_delay filename line) w = Returned tt w' /\
      Z.of_nat (List.length olds) < max_spins /\
      Forall (fun old => old <> MUTEX_STATE_UNLOCKED) olds /\
      w_trace w' =
        w_trace w ++ flat_map (spin_round max_delay) olds ++
        [cas_won; EvPolicyAdd (Z.of_nat (List.length olds)) 0] /\
      w_state w' =
        mk (pol_add hooks (Z.of_nat (List.length olds)) 0 p) MUTEX_STATE_LOCKED) \/
  (exists (olds polds : list Z) (w' : world (t P)) (p : P),
      run (enter hooks fuel max_spins max_delay filename line) w = Returned tt w' /\
      Z.of_nat (List.length olds) = max_spins /\
      Forall (fun old => old <> MUTEX_STATE_UNLOCKED) olds /\
      (List.length polds < fuel)%nat /\
      Forall (fun old => old <> MUTEX_STATE_UNLOCKED) polds /\
      w_trace w' =
        w_trace w ++ flat_map (spin_round max_delay) olds ++
        flat_map park_round polds ++
        [swap_won; EvPolicyAdd max_spins (uint32 (Z.of_nat (List.length polds)))] /\
      w_state w' =
        mk (pol_add hooks max_spins (uint32 (Z.of_nat (List.length polds))) p)
           MUTEX_STATE_WAITERS) \/
  (exists (olds polds : list Z) (w' : world (t P)),
      run (enter hooks fuel max_spins max_delay filename line) w = Pending w' /\
      Z.of_nat (List.length olds) = max_spins /\
      Forall (fun old => old <> MUTEX_STATE_UNLOCKED) olds /\
      List.length polds = fuel /\
      Forall (fun old => old <> MUTEX_STATE_UNLOCKED) polds /\
      w_trace w' =
        w_trace w ++ flat_map (spin_round max_delay) olds ++ flat_map park_round polds).
Proof.
  unfold enter.
  destruct (spin_loop_outcome (Z.to_nat max_spins) 0 w ltac:(lia) ltac:(lia))
    as [ (olds & w1 & p & Hrun & Hlt & Hall & Htr & Hst)
       | (olds & w1 & Hrun & Hlen & Hall & Htr) ].
  - left. exists olds, w1, p. rewrite Z.add_0_l in *.
    rewrite (bind_returned _ _ _ _ _ Hrun). cbn [run ret].
    repeat split; assumption.
  - right. rewrite Z.add_0_l in Hlen.
    rewrite (bind_returned _ _ _ _ _ Hrun).
    destruct (park_loop_outcome fuel 0 w1)
      as [ (polds & w2 & Hplen & Hpall & Hprun & Hptr & Hpst)
         | (polds & w2 & Hplen & Hpall & Hprun & Hptr) ].
    + left. rewrite iter_uint32_succ in Hprun.
      rewrite (bind_returned _ _ _ _ _ Hprun), run_policy_add.
      exists olds, polds. eexists. exists (m_policy (w_state w2)).
      unfold set_policy. cbn [w_state w_env w_trace].
      rewrite Hpst, Hptr, Htr.
      repeat split; try assumption.
      rewrite <- !app_assoc. reflexivity.
    + right. rewrite (bind_pending _ _ _ _ Hprun).
      exists olds, polds, w2. rewrite Hptr, Htr.
      repeat split; try assumption.
      rewrite <- !app_assoc. reflexivity.
Qed.

End Enter.

(** The lock is held when [enter] is called and released after its first
    attempt: the second attempt of the spin phase takes it. *)
Lemma enter_spin_then_park_witness :
  0 <= 2 < 2 ^ 32 /\
  exists w',
    run (enter (Scenarios.no_policy _) 3 2 1 "sync0sync.cc" 1) Scenarios.held_then_released =
    Returned tt w' /\
    m_lock_word (w_state w') = MUTEX_STATE_LOCKED /\
    w_trace w' =
      [EvCas32 MUTEX_STATE_LOCKED MUTEX_STATE_UNLOCKED MUTEX_STATE_LOCKED
         MY_MEMORY_ORDER_ACQUIRE MY_MEMORY_ORDER_RELAXED;
       EvDelay 1;
       EvCas32 MUTEX_STATE_UNLOCKED MUTEX_STATE_UNLOCKED MUTEX_STATE_LOCKED
         MY_MEMORY_ORDER_ACQUIRE MY_MEMORY_ORDER_RELAXED;
       EvPolicyAdd 1 0].
Proof.
  split; [ lia | ].
  destruct (enter_spin_then_park unit (Scenarios.no_policy _) 2 1 ltac:(lia) 3
              "sync0sync.cc" 1 Scenarios.held_then_released)
    as [ (olds & w' & p & Hrun & _)
       | [ (olds & polds & w' & p & Hrun & _ & _ & _ & _ & _ & Hst)
         | (olds & polds & w' & Hrun & _) ] ].
  - exists w'. split; [ exact Hrun | ].
    vm_compute in Hrun. injection Hrun as <-. split; reflexivity.
  - vm_compute in Hrun. injection Hrun as <-. discriminate Hst.
  - vm_compute in Hrun. discriminate Hrun.
Defined.

End TTASFutexMutexFacts.

(* ================================================================== *)
(** * TTASEventMutex *)

Module TTASEventMutexFacts.
Import Exec Sync CTypes TTASEventMutex ExecFacts.



(** On a locked mutex with one waiter and no other thread, [exit] leaves
    the lock word UNLOCKED, reads the waiter flag after that and calls
    [signal()]. *)
Lemma exit_with_a_waiter :
  run exit (mk_world (mk MUTEX_STATE_LOCKED 1 7 tt) [] []) =
  Returned tt
    (mk_world (mk MUTEX_STATE_UNLOCKED 1 7 tt) []
       [EvStoreLong MUTEX_STATE_UNLOCKED; EvReadWaiters 1; EvSignal 7]).
Proof. reflexivity. Qed.

(** [exit] on the same mutex with no waiter calls nothing after the read. *)
Lemma exit_without_waiter :
  run exit (mk_world (mk MUTEX_STATE_LOCKED 0 7 tt) [] []) =
  Returned tt
    (mk_world (mk MUTEX_STATE_UNLOCKED 0 7 tt) []
       [EvStoreLong MUTEX_STATE_UNLOCKED; EvReadWaiters 0]).
Proof. reflexivity. Qed.

(** ** The event handle *)

Section EventHandle.
Variable P : Type.
Variable hooks : policy_hooks P (t P).
Variable univ_debug : bool.

Local Abbreviation handle := (m_event (P:=P)) (only parsing).

Local Ltac keeps_step :=
  first
    [ apply keeps_ret
    | apply keeps_pending
    | apply keeps_emit
    | apply keeps_get
    | apply keeps_ut_ad
    | apply keeps_ut_a
    | apply keeps_atomically; intros; reflexivity
    | apply keeps_modify; intros; reflexivity
    | apply keeps_bind; [ | intros ] ].

Lemma keeps_try_lock : keeps handle (try_lock (P:=P)).
Proof. unfold try_lock, tas_lock, my_atomic_faslong. repeat keeps_step. Qed.

Lemma keeps_exit : keeps handle (exit (P:=P)).
Proof.
  unfold exit, tas_unlock, my_atomic_storelong, read_word, signal.
  repeat keeps_step.
  destruct (negb _); repeat keeps_step.
Qed.

Lemma keeps_is_locked : keeps handle (is_locked (P:=P)).
Proof. unfold is_locked, read_word. repeat keeps_step. Qed.

Lemma keeps_set_waiters : keeps handle (set_waiters (P:=P)).
Proof. unfold set_waiters, write_word. repeat keeps_step. Qed.

Lemma keeps_policy_add (n_spins n_waits : Z) : keeps handle (policy_add hooks n_spins n_waits).
Proof. unfold policy_add. repeat keeps_step. Qed.

Lemma keeps_wait_retry (spin : nat) : keeps handle (wait_retry (P:=P) spin).
Proof.
  induction spin as [ | spin IH ]; cbn [wait_retry]; [ keeps_step | ].
  apply keeps_bind; [ apply keeps_try_lock | intros [ | ]; [ keeps_step | exact IH ] ].
Qed.

Lemma keeps_wait (filename : string) (line spin : Z) :
  keeps handle (wait (P:=P) filename line spin).
Proof.
  unfold wait.
  apply keeps_bind; [ keeps_step | intros _ ].
  apply keeps_bind; [ apply keeps_set_waiters | intros _ ].
  apply keeps_bind; [ apply keeps_wait_retry | intros [ | ]; repeat keeps_step ].
Qed.

Lemma keeps_is_free (fuel : nat) (max_spins max_delay n_spins : Z) :
  keeps handle (is_free (P:=P) univ_debug fuel max_spins max_delay n_spins).
Proof.
  unfold is_free. apply keeps_bind; [ keeps_step | intros _ ].
  revert n_spins. induction fuel as [ | fuel IH ]; intros n_spins;
    cbn [is_free_loop]; [ keeps_step | ].
  apply keeps_bind; [ apply keeps_is_locked | intros locked ].
  destruct (negb locked); [ keeps_step | ].
  apply keeps_bind; [ keeps_step | intros _ ].
  destruct (_ <? _); [ apply IH | keeps_step ].
Qed.

Lemma keeps_spin_and_try_lock_loop (fuel : nat) (step n_spins n_waits max_spins max_delay : Z)
    (filename : string) (line : Z) :
  keeps handle
    (spin_and_try_lock_loop (P:=P) univ_debug fuel step n_spins n_waits max_spins max_delay
       filename line).
Proof.
  revert n_spins n_waits max_spins.
  induction fuel as [ | fuel IH ]; intros n_spins n_waits max_spins;
    cbn [spin_and_try_lock_loop]; [ keeps_step | ].
  apply keeps_bind; [ apply keeps_is_free | intros [ [ | ] n ] ].
  - apply keeps_bind; [ apply keeps_try_lock | intros [ | ]; [ keeps_step | apply IH ] ].
  - apply keeps_bind; [ keeps_step | intros _ ].
    apply keeps_bind; [ apply keeps_wait | intros [ | ]; [ keeps_step | apply IH ] ].
Qed.

Lemma keeps_enter (fuel : nat) (max_spins max_delay : Z) (filename : string) (line : Z) :
  keeps handle (enter hooks univ_debug fuel max_spins max_delay filename line).
Proof.
  unfold enter. apply keeps_bind; [ apply keeps_try_lock | intros locked ].
  destruct (negb locked); [ | keeps_step ].
  unfold spin_and_try_lock.
  apply keeps_bind; [ keeps_step | intros _ ].
  apply keeps_bind; [ apply keeps_spin_and_try_lock_loop | intros [n_spins n_waits] ].
  apply keeps_policy_add.
Qed.

(** [init] on its own: it returns exactly on a mutex without event whose
    lock word is UNLOCKED, and then holds the event created. *)
Lemma init_outcome (new_event id : Z) (filename : string) (line : Z) (w : world (t P)) :
  run (init new_event id filename line) w =
  if (m_event (w_state w) =? 0) && (m_lock_word (w_state w) =? MUTEX_STATE_UNLOCKED)
  then Returned tt (mk_world (set_event new_event (w_state w)) (w_env w)
                             (w_trace w ++ [EvEventCreate id new_event]))
  else Aborted w.
Proof.
  destruct w as [s env tr].
  cbv beta iota zeta delta [init bind ut_a emit modify run log w_state w_env w_trace].
  destruct (m_event s =? 0); [ | reflexivity ].
  destruct (m_lock_word s =? MUTEX_STATE_UNLOCKED); reflexivity.
Qed.

(** [destroy] on its own: the event is destroyed, then [m_event] is reset. *)
Lemma destroy_outcome (w : world (t P)) :
  run (destroy univ_debug) w =
  if negb univ_debug || (m_lock_word (w_state w) =? MUTEX_STATE_UNLOCKED)
  then Returned tt (mk_world (set_event 0 (w_state w)) (w_env w)
                             (w_trace w ++ [EvEventDestroy (m_event (w_state w))]))
  else Aborted w.
Proof.
  destruct w as [s env tr].
  destruct univ_debug;
    cbv beta iota zeta delta
      [destroy bind ut_ad ut_a get emit modify ret run log w_state w_env w_trace negb orb];
    [ | reflexivity ].
  destruct (m_lock_word s =? MUTEX_STATE_UNLOCKED); reflexivity.
Qed.

Lemma do_call_handle (c : call) (b : bool) (w w' : world (t P)) :
  stable handle w ->
  events_created [c] ->
  run (do_call hooks univ_debug c) w = Returned tt w' ->
  (m_event (w_state w) <> 0 <-> b = true) ->
  stable handle w' /\
  (m_event (w_state w') <> 0 <-> initialised_after b [c] = true).
Proof.
  intros Hst Hcr Hrun Hb.
  assert (Hkeep : forall (c0 : M (t P) unit),
             keeps handle c0 -> run c0 w = Returned tt w' ->
             stable handle w' /\ (m_event (w_state w') <> 0 <-> b = true)).
  { intros c0 Hk Hr. destruct (Hk w Hst) as [Hobs Hst'].
    rewrite Hr in Hobs, Hst'. cbn [final_world] in *.
    split; [ exact Hst' | rewrite Hobs; exact Hb ]. }
  destruct c as [ new_event id filename line | | | | fuel max_spins max_delay filename line ];
    cbn [do_call initialised_after] in *.
  - rewrite init_outcome in Hrun.
    destruct (_ && _); [ | discriminate Hrun ].
    injection Hrun as <-. cbn [w_state w_env set_event m_event].
    inversion Hcr as [ | ? ? Hne _ ]; subst.
    split; [ exact Hst | split; [ reflexivity | intros _; exact Hne ] ].
  - rewrite destroy_outcome in Hrun.
    destruct (_ || _); [ | discriminate Hrun ].
    injection Hrun as <-. cbn [w_state w_env set_event m_event].
    split; [ exact Hst | split; [ intros H; contradiction H; reflexivity | discriminate ] ].
  - refine (Hkeep _ _ Hrun).
    apply keeps_bind; [ apply keeps_try_lock | intros; apply keeps_ret ].
  - refine (Hkeep _ _ Hrun). apply keeps_exit.
  - refine (Hkeep _ _ Hrun). apply keeps_enter.
Qed.

(** C10. Through any sequence of calls that return, [m_event] is nonzero
    exactly when the mutex is between [init] and [destroy]: [init] stores the
    event it created, [destroy] resets [m_event] to 0 after destroying the
    event, and [try_lock], [exit] and [enter] leave it alone.  So on an
    initialised mutex whose lock word is UNLOCKED, [destroy(); init(...)]
    passes the two [ut_a] of [init] and returns with the new event.  The
    events created are not null, and the other threads do not write
    [m_event]. *)
Theorem event_handle_lifecycle (cs : list call) (b : bool) (w : world (t P)) :
  stable handle w ->
  events_created cs ->
  (m_event (w_state w) <> 0 <-> b = true) ->
  (forall w', run (do_calls hooks univ_debug cs) w = Returned tt w' ->
     (m_event (w_state w') <> 0 <-> initialised_after b cs = true)) /\
  (forall new_event id filename line,
     new_event <> 0 ->
     m_lock_word (w_state w) = MUTEX_STATE_UNLOCKED ->
     run (do_calls hooks univ_debug [CallDestroy; CallInit new_event id filename line]) w =
     Returned tt
       (mk_world (mk MUTEX_STATE_UNLOCKED (m_waiters (w_state w)) new_event
                     (m_policy (w_state w)))
                 (w_env w)
                 (w_trace w ++ [EvEventDestroy (m_event (w_state w));
                                EvEventCreate id new_event]))).
Proof.
  intros Hst Hcr Hb. split.
  - revert b w Hst Hcr Hb.
    induction cs as [ | c cs' IH ]; intros b w Hst Hcr Hb w' Hrun.
    + cbn in Hrun. injection Hrun as <-. exact Hb.
    + cbn [do_calls] in Hrun. rewrite run_bind in Hrun.
      destruct (run (do_call hooks univ_debug c) w) as [ [] w1 | w1 | w1 ] eqn:Hc;
        try discriminate Hrun.
      inversion Hcr as [ | ? ? Hc1 Hcs ]; subst.
      destruct (do_call_handle c b w w1 Hst (Forall_cons _ Hc1 (Forall_nil _)) Hc Hb)
        as [Hst1 Hb1].
      specialize (IH (initialised_after b [c]) w1 Hst1 Hcs Hb1 w' Hrun).
      destruct c; exact IH.
  - intros new_event id filename line Hne Hlock.
    cbn [do_calls do_call]. rewrite run_bind, destroy_outcome, Hlock.
    cbn [Z.eqb MUTEX_STATE_UNLOCKED]. rewrite orb_true_r.
    rewrite run_bind, init_outcome.
    cbn [w_state w_env w_trace set_event m_event m_lock_word m_waiters m_policy].
    rewrite Hlock. cbn [Z.eqb MUTEX_STATE_UNLOCKED andb run ret]. unfold set_event.
    cbn [m_event m_lock_word m_waiters m_policy].
    rewrite <- app_assoc, Hlock. reflexivity.
Qed.

End EventHandle.

(** An initialised mutex is locked, unlocked, destroyed, initialised again
    and destroyed: [m_event] ends null. *)
Lemma event_handle_lifecycle_witness :
  stable (m_event (P:=unit)) Scenarios.initialised_event_mutex /\
  events_created Scenarios.lifecycle /\
  (m_event (w_state Scenarios.initialised_event_mutex) <> 0 <-> true = true) /\
  forall w',
    run (do_calls (Scenarios.no_policy _) true Scenarios.lifecycle)
        Scenarios.initialised_event_mutex = Returned tt w' ->
    (m_event (w_state w') <> 0 <-> initialised_after true Scenarios.lifecycle = true).
Proof.
  assert (Hs : stable (m_event (P:=unit)) Scenarios.initialised_event_mutex)
    by (vm_compute; constructor).
  assert (Hc : events_created Scenarios.lifecycle)
    by (repeat constructor; vm_compute; discriminate).
  assert (Hb : m_event (w_state Scenarios.initialised_event_mutex) <> 0 <-> true = true)
    by (split; [ reflexivity | vm_compute; discriminate ]).
  split; [ exact Hs | ]. split; [ exact Hc | ]. split; [ exact Hb | ].
  exact (proj1 (event_handle_lifecycle unit (Scenarios.no_policy _) true
                  Scenarios.lifecycle true Scenarios.initialised_event_mutex Hs Hc Hb)).
Defined.

End TTASEventMutexFacts.

(* ================================================================== *)
(** * OSTrackMutex *)

Module OSTrackMutexFacts.
Import Exec Sync CTypes OSTrackMutex ExecFacts.

Lemma set_mutex_same (P : Type) (m : t P) : set_mutex (m_mutex m) m = m.
Proof. destruct m; reflexivity. Qed.

(** C6, as amended. In a debug build [destroy()] requires [!m_locked] and
    [innodb_calling_exit || !m_freed]: it stops on a locked mutex, and on a
    mutex already freed unless [innodb_calling_exit] is set; otherwise it
    destroys the native mutex and returns with [m_freed] set. *)
Theorem destroy_debug_contract (P : Type) (innodb_calling_exit : bool) (w : world (t P)) :
  run (destroy true innodb_calling_exit) w =
  if negb (m_locked (w_state w)) && (innodb_calling_exit || negb (m_freed (w_state w)))
  then Returned tt (mk_world (set_freed true (w_state w)) (w_env w)
                             (w_trace w ++ [EvOSMutexDestroy]))
  else Aborted w.
Proof.
  destruct w as [s env tr].
  cbv beta iota zeta delta
    [destroy bind ut_ad ut_a ut_d modify emit zoom OSMutex.destroy run log
     w_state w_env w_trace].
  destruct (negb (m_locked s)); [ | reflexivity ].
  destruct (innodb_calling_exit || negb (m_freed s)); [ | reflexivity ].
  cbn [andb]. rewrite set_mutex_same. reflexivity.
Qed.

(** C6, as stated, fails: during the exit of the server, [destroy()] on a
    mutex that is already freed passes both assertions and returns. *)
Lemma destroy_freed_mutex_returns :
  m_freed (mk true false true (OSMutex.mk false) tt) = true /\
  ~ (exists w',
        run (destroy true true)
            (mk_world (mk true false true (OSMutex.mk false) tt) [] []) =
        Aborted w').
Proof.
  split; [ reflexivity | ].
  intros (w' & Hrun). vm_compute in Hrun. discriminate Hrun.
Qed.

End OSTrackMutexFacts.

(* ================================================================== *)
(** * PolicyMutex *)

Module PolicyMutexFacts.
Import Exec Sync CTypes PolicyMutex ExecFacts.

Section WithImpl.
Variable P : Type.
Variable Impl : Type.
Variable I : mutex_impl P Impl.
Variable hooks : policy_hooks P Impl.
Variable univ_pfs_mutex : bool.
Variable psi_start_mutex_wait : Z -> psi_mutex_operation -> string -> Z -> Z.

Local Abbreviation begin_events :=
  (trylock_begin_events univ_pfs_mutex psi_start_mutex_wait) (only parsing).
Local Abbreviation end_events :=
  (trylock_end_events univ_pfs_mutex psi_start_mutex_wait) (only parsing).

Lemma pfs_begin_trylock_outcome (name : string) (line : Z) (w : world (t Impl)) :
  run (ifdef_pfs univ_pfs_mutex (pfs_begin_trylock psi_start_mutex_wait name line) 0) w =
  Returned (trylock_locker univ_pfs_mutex psi_start_mutex_wait (w_state w) name line)
    (mk_world (w_state w) (w_env w) (w_trace w ++ begin_events (w_state w) name line)).
Proof.
  unfold ifdef_pfs, trylock_begin_events, trylock_locker.
  destruct w as [m env tr].
  destruct univ_pfs_mutex; cbn [andb w_state w_env w_trace];
    [ | rewrite app_nil_r; reflexivity ].
  unfold pfs_begin_trylock. rewrite (bind_returned _ _ _ _ _ (run_get _)).
  cbn [w_state w_env w_trace].
  destruct (negb (m_ptr m =? 0)); [ reflexivity | rewrite app_nil_r; reflexivity ].
Qed.

Lemma pfs_end_outcome (m : t Impl) (name : string) (line : Z) (w : world (t Impl)) :
  run (ifdef_pfs univ_pfs_mutex
         (pfs_end (trylock_locker univ_pfs_mutex psi_start_mutex_wait m name line) 0) tt) w =
  Returned tt (mk_world (w_state w) (w_env w) (w_trace w ++ end_events m name line)).
Proof.
  unfold ifdef_pfs, pfs_end, trylock_end_events.
  destruct w as [m' env tr].
  destruct univ_pfs_mutex; cbn [andb w_state w_env w_trace];
    [ | rewrite app_nil_r; reflexivity ].
  destruct (negb (_ =? 0)); [ reflexivity | rewrite app_nil_r; reflexivity ].
Qed.

Lemma run_call_policy (ev : event) (hook : Impl -> P -> P) (w : world (t Impl)) :
  run (call_policy I ev hook) w =
  Returned tt
    (mk_world
       (set_impl (impl_set_policy I (hook (m_impl (w_state w)) (policy I (w_state w)))
                    (m_impl (w_state w)))
                 (w_state w))
       (w_env w) (w_trace w ++ [ev])).
Proof. reflexivity. Qed.

(** [trylock], call by call, from the world [w1] in which [try_lock] of the
    implementation ended. *)
Lemma trylock_run (name : string) (line : Z) (w : world (t Impl)) :
  let m := w_state w in
  let w0 := mk_world m (w_env w) (w_trace w ++ begin_events m name line) in
  match run (zoom m_impl set_impl (impl_try_lock I)) w0 with
  | Returned true w1 =>
      let i1 := m_impl (w_state w1) in
      let i2 := impl_set_policy I (pol_enter hooks i1 name line (impl_policy I i1)) i1 in
      let i3 := impl_set_policy I (pol_locked hooks i2 name line (impl_policy I i2)) i2 in
      run (trylock I hooks univ_pfs_mutex psi_start_mutex_wait name line) w =
      Returned 0
        (mk_world (set_impl i3 (w_state w1)) (w_env w1)
           (w_trace w1 ++ [EvPolicyEnter name line; EvPolicyLocked name line] ++
            end_events m name line))
  | Returned false w1 =>
      run (trylock I hooks univ_pfs_mutex psi_start_mutex_wait name line) w =
      Returned 1
        (mk_world (w_state w1) (w_env w1) (w_trace w1 ++ end_events m name line))
  | Aborted w1 =>
      run (trylock I hooks univ_pfs_mutex psi_start_mutex_wait name line) w = Aborted w1
  | Pending w1 =>
      run (trylock I hooks univ_pfs_mutex psi_start_mutex_wait name line) w = Pending w1
  end.
Proof.
  cbv zeta.
  destruct (run (zoom m_impl set_impl (impl_try_lock I)) _)
    as [ [ | ] w1 | w1 | w1 ] eqn:Htry;
    unfold trylock;
    rewrite (bind_returned _ _ _ _ _ (pfs_begin_trylock_outcome name line w));
    rewrite run_bind, Htry; try reflexivity; cbn [Z.eqb].
  - rewrite run_bind, run_bind, run_call_policy, run_call_policy.
    cbn [w_state w_env w_trace m_impl set_impl].
    rewrite run_bind, pfs_end_outcome. cbn [run ret w_state w_env w_trace].
    unfold policy. cbn [m_impl].
    rewrite <- !app_assoc. reflexivity.
  - rewrite run_bind. cbn [run ret].
    rewrite run_bind, pfs_end_outcome. cbn [run ret].
    reflexivity.
Qed.

(** C5. [trylock] returns 0 when [try_lock] of the implementation returned
    true and 1 when it returned false.  In the first case the two hooks are
    called after [try_lock] has returned, [enter] then [locked], each on the
    implementation as it is then; in the second no hook is called and the
    policy record is the one [try_lock] left, [w1] being the world in which
    [try_lock] ended.  So when [try_lock] itself does not write the policy
    record, as with each of the four implementations, and no other thread
    does, a [trylock] that returns 1 leaves the policy record as it was. *)
Theorem trylock_outcome (name : string) (line : Z) (w : world (t Impl)) :
  (let m := w_state w in
    let w0 := mk_world m (w_env w) (w_trace w ++ begin_events m name line) in
    match run (zoom m_impl set_impl (impl_try_lock I)) w0 with
    | Returned true w1 =>
        let i1 := m_impl (w_state w1) in
        let i2 := impl_set_policy I (pol_enter hooks i1 name line (impl_policy I i1)) i1 in
        let i3 := impl_set_policy I (pol_locked hooks i2 name line (impl_policy I i2)) i2 in
        run (trylock I hooks univ_pfs_mutex psi_start_mutex_wait name line) w =
        Returned 0
          (mk_world (set_impl i3 (w_state w1)) (w_env w1)
             (w_trace w1 ++ [EvPolicyEnter name line; EvPolicyLocked name line] ++
              end_events m name line))
    | Returned false w1 =>
        run (trylock I hooks univ_pfs_mutex psi_start_mutex_wait name line) w =
        Returned 1
          (mk_world (w_state w1) (w_env w1) (w_trace w1 ++ end_events m name line))
    | Aborted w1 =>
        run (trylock I hooks univ_pfs_mutex psi_start_mutex_wait name line) w = Aborted w1
    | Pending w1 =>
        run (trylock I hooks univ_pfs_mutex psi_start_mutex_wait name line) w = Pending w1
    end) /\
  (preserves (impl_policy I) (impl_try_lock I) ->
   stable (policy I) w ->
   forall w',
     run (trylock I hooks univ_pfs_mutex psi_start_mutex_wait name line) w = Returned 1 w' ->
     policy I (w_state w') = policy I (w_state w)).
Proof.
  split; [ apply trylock_run | ].
  intros Hpres Hst w' Hrun.
  pose proof (trylock_run name line w) as Hout. cbv zeta in Hout.
  assert (Hkeep : keeps (policy I) (zoom m_impl set_impl (impl_try_lock I))).
  { apply preserves_keeps.
    apply (preserves_zoom (policy I) (impl_policy I) m_impl set_impl);
      [ reflexivity | reflexivity | exact Hpres ]. }
  specialize (Hkeep (mk_world (w_state w) (w_env w)
                       (w_trace w ++ begin_events (w_state w) name line)) Hst).
  destruct (run (zoom m_impl set_impl (impl_try_lock I)) _)
    as [ [ | ] w1 | w1 | w1 ];
    rewrite Hout in Hrun; try discriminate Hrun.
  injection Hrun as <-. cbn [w_state final_world] in *.
  exact (proj1 Hkeep).
Qed.

End WithImpl.

(** [try_lock] of each of the four implementations leaves the policy record
    alone. *)
Lemma try_lock_preserves_policy (P : Type)
    (hooks : forall i, policy_hooks P (Implementations.state P i))
    (univ_debug innodb_calling_exit : bool) (new_event : Z)
    (i : Implementations.implementation) :
  preserves
    (impl_policy (Implementations.impl P hooks univ_debug innodb_calling_exit new_event i))
    (impl_try_lock (Implementations.impl P hooks univ_debug innodb_calling_exit new_event i)).
Proof.
  destruct i; cbn.
  - destruct univ_debug;
      repeat first
        [ progress intros
        | split
        | match goal with
          | |- context [ if ?b then _ else _ ] => destruct b
          end
        | progress cbn ].
  - split; [ | intros; exact Logic.I ].
    intros s. destruct (_ =? _); reflexivity.
  - split; [ | intros; exact Logic.I ].
    intros s. destruct (_ =? _); reflexivity.
  - split; [ | intros; exact Logic.I ].
    intros s. reflexivity.
Qed.

(** A [trylock] on a held TTASMutex fails: it returns 1 and the counting
    policy has counted no call. *)
Lemma trylock_outcome_witness :
  exists w',
    run (trylock (TTASMutex_impl Z (Scenarios.counting_policy _) true)
           (Scenarios.counting_policy _) true Scenarios.no_psi "sync0sync.cc" 1)
        Scenarios.held_spin_mutex = Returned 1 w' /\
    policy (TTASMutex_impl Z (Scenarios.counting_policy _) true) (w_state w') = 0.
Proof.
  eexists. split; [ vm_compute; reflexivity | ].
  apply (proj2 (trylock_outcome Z (TTASMutex.t Z)
                  (TTASMutex_impl Z (Scenarios.counting_policy _) true)
                  (Scenarios.counting_policy _) true Scenarios.no_psi "sync0sync.cc" 1
                  Scenarios.held_spin_mutex)).
  - cbn. split; [ intros s; destruct (_ =? _); reflexivity | intros; exact Logic.I ].
  - constructor.
  - vm_compute. reflexivity.
Defined.

(** The same [trylock] on the free mutex returns 0, with the lock word
    LOCKED and the two hooks called. *)
Lemma trylock_succeeds_on_free_mutex :
  run (trylock (TTASMutex_impl Z (Scenarios.counting_policy _) true)
         (Scenarios.counting_policy _) true Scenarios.no_psi "sync0sync.cc" 1)
      Scenarios.free_spin_mutex =
  Returned 0
    (mk_world (PolicyMutex.mk (TTASMutex.mk 2 MUTEX_STATE_LOCKED) 0) []
       [EvCas32 MUTEX_STATE_UNLOCKED MUTEX_STATE_UNLOCKED MUTEX_STATE_LOCKED
          MY_MEMORY_ORDER_ACQUIRE MY_MEMORY_ORDER_RELAXED;
        EvPolicyEnter "sync0sync.cc" 1; EvPolicyLocked "sync0sync.cc" 1]).
Proof. vm_compute. reflexivity. Qed.

End PolicyMutexFacts.

(* ================================================================== *)
(** * Proof outlines *)

Module OutlineFacts.
Import Exec Outline.

Section WithGhost.
Variable S G : Type.
Variable pre : G -> S -> Prop.
Variable trans : G -> S -> G -> S -> Prop.

Lemma outline_bind {A B : Type} (g : G) (c : prog S A) (k : A -> prog S B)
    (Q : B -> G -> Prop) :
  outline pre trans g c (fun a g' => outline pre trans g' (k a) Q) ->
  outline pre trans g (bind c k) Q.
Proof.
  revert g. induction c as [ a | X shared f ev k' IH | | ]; intros g H;
    cbn [bind outline] in *; try exact H.
  intros s Hs. destruct (H s Hs) as (g' & Ht & Hk).
  exists g'. split; [ exact Ht | apply IH; exact Hk ].
Qed.

Lemma outline_post {A : Type} (g : G) (c : prog S A) (Q Q' : A -> G -> Prop) :
  (forall a g', Q a g' -> Q' a g') ->
  outline pre trans g c Q -> outline pre trans g c Q'.
Proof.
  intros HQ. revert g. induction c as [ a | X shared f ev k IH | | ]; intros g H;
    cbn [outline] in *; auto.
  intros s Hs. destruct (H s Hs) as (g' & Ht & Hk).
  exists g'. split; [ exact Ht | apply IH; exact Hk ].
Qed.

(** An action that is the same transition in every state. *)
Lemma outline_act {A X : Type} (g g' : G) (shared : bool) (f : S -> X * S)
    (ev : S -> X -> list event) (k : X -> prog S A) (Q : A -> G -> Prop) :
  (forall s, pre g s -> trans g s g' (snd (f s))) ->
  (forall x, outline pre trans g' (k x) Q) ->
  outline pre trans g (Act X shared f ev k) Q.
Proof.
  intros Ht Hk s Hs. exists g'. split; [ apply Ht; exact Hs | apply Hk ].
Qed.

End WithGhost.

(** The code of a member object, run inside its owner. *)
Lemma outline_zoom {S T G A : Type}
    (preS : G -> S -> Prop) (transS : G -> S -> G -> S -> Prop)
    (preT : G -> T -> Prop) (transT : G -> T -> G -> T -> Prop)
    (proj : S -> T) (upd : T -> S -> S) (g : G) (c : prog T A) (Q : A -> G -> Prop) :
  (forall g s, preS g s -> preT g (proj s)) ->
  (forall g s g' t', preS g s -> transT g (proj s) g' t' -> transS g s g' (upd t' s)) ->
  outline preT transT g c Q ->
  outline preS transS g (zoom proj upd c) Q.
Proof.
  intros Hpre Htrans. revert g.
  induction c as [ a | X shared f ev k IH | | ]; intros g H; cbn [zoom outline] in *; auto.
  intros s Hs. destruct (H (proj s) (Hpre g s Hs)) as (g' & Ht & Hk).
  exists g'. destruct (f (proj s)) as [x t'] eqn:Hf. cbn [fst snd] in *.
  split; [ apply Htrans; assumption | apply IH; exact Hk ].
Qed.

End OutlineFacts.

(* ================================================================== *)
(** * Mutual exclusion and the counter, for any code with outlines *)

Module PoolFacts.
Import Exec Pool Outline Invariant OutlineFacts.

Lemma owners_app (g1 g2 : list ghost) : owners (g1 ++ g2) = (owners g1 + owners g2)%nat.
Proof. unfold owners. rewrite filter_app, length_app. reflexivity. Qed.

Lemma owners_cons (g : ghost) (gs : list ghost) :
  owners (g :: gs) = ((if is_out (fst g) then 0 else 1) + owners gs)%nat.
Proof. unfold owners. cbn [filter]. destruct (is_out (fst g)); reflexivity. Qed.

Lemma increments_app (g1 g2 : list ghost) :
  increments (g1 ++ g2) = increments g1 + increments g2.
Proof.
  unfold increments. induction g1 as [ | g g1 IH ]; cbn [app fold_right]; [ lia | ].
  rewrite IH. lia.
Qed.

Lemma owners_zero (gs : list ghost) :
  owners gs = 0%nat -> Forall (fun g => fst g = GOut) gs.
Proof.
  induction gs as [ | g gs IH ]; intros H; [ constructor | ].
  rewrite owners_cons in H.
  destruct (fst g) eqn:Hg; cbn [is_out] in H; try discriminate H.
  constructor; [ exact Hg | apply IH; exact H ].
Qed.

Lemma out_no_read {S : Type} (counter : S -> Z) (s : S) (gs : list ghost) :
  Forall (fun g => fst g = GOut) gs ->
  Forall (fun g => forall v, fst g = GRead v -> counter s = v) gs.
Proof.
  intros H. eapply Forall_impl; [ | exact H ].
  intros g Hg v Hv. rewrite Hg in Hv. discriminate Hv.
Qed.

Lemma is_out_false (o : owning) : o <> GOut -> is_out o = false.
Proof. destruct o; [ intros H; contradiction H; reflexivity | reflexivity | reflexivity ]. Qed.

Section WithState.
Variable S : Type.
Variable taken : S -> bool.
Variable counter : S -> Z.

Local Abbreviation measure' := (measure taken counter) (only parsing).

(** What the thread at [g] knows follows from the measure. *)
Lemma measure_knows (g1 g2 : list ghost) (g : ghost) (s : S) :
  measure' (g1 ++ g :: g2) s -> knows taken counter g s.
Proof.
  intros (Hown & Hcnt & Hread). split.
  - intros Hg. rewrite owners_app, owners_cons, (is_out_false _ Hg) in Hown.
    destruct (taken s); [ reflexivity | lia ].
  - apply Forall_app in Hread. destruct Hread as [_ Hread].
    inversion Hread; subst. assumption.
Qed.

(** When the thread at [g] owns the mutex, no other does. *)
Lemma measure_others_out (g1 g2 : list ghost) (g : ghost) (s : S) :
  measure' (g1 ++ g :: g2) s -> fst g <> GOut ->
  taken s = true /\ Forall (fun g => fst g = GOut) g1 /\ Forall (fun g => fst g = GOut) g2.
Proof.
  intros (Hown & _ & _) Hg.
  rewrite owners_app, owners_cons, (is_out_false _ Hg) in Hown.
  destruct (taken s); [ | lia ].
  repeat split; apply owners_zero; lia.
Qed.

Lemma measure_free_all_out (g1 g2 : list ghost) (g : ghost) (s : S) :
  measure' (g1 ++ g :: g2) s -> taken s = false ->
  Forall (fun g => fst g = GOut) g1 /\ Forall (fun g => fst g = GOut) g2.
Proof.
  intros (Hown & _ & _) Hs. rewrite Hs, owners_app, owners_cons in Hown.
  split; apply owners_zero; lia.
Qed.

Lemma owners_all_out (gs : list ghost) :
  Forall (fun g => fst g = GOut) gs -> owners gs = 0%nat.
Proof.
  induction 1 as [ | g gs Hg _ IH ]; [ reflexivity | ].
  rewrite owners_cons, Hg, IH. reflexivity.
Qed.

(** Each of the five transitions keeps the measure. *)
Lemma measure_step (g1 g2 : list ghost) (g g' : ghost) (s s' : S) :
  measure' (g1 ++ g :: g2) s ->
  t_skip taken counter g s g' s' \/ t_acquire taken counter g s g' s' \/
  t_release taken counter g s g' s' \/ t_read taken counter g s g' s' \/
  t_write taken counter g s g' s' ->
  measure' (g1 ++ g' :: g2) s'.
Proof.
  intros Hm Ht. pose proof Hm as (Hown & Hcnt & Hread).
  destruct Ht as [ (-> & Htk & Hc) | [ (Hg & -> & Hfree & Htk & Hc)
                 | [ (Hg & -> & Htk & Hc) | [ (Hg & -> & Htk & Hc)
                 | (v & Hg & -> & Htk & Hc) ] ] ] ].
  - unfold measure. rewrite Htk, Hc. exact Hm.
  - destruct (measure_free_all_out _ _ _ _ Hm Hfree) as [H1 H2].
    unfold measure. rewrite Htk, Hc.
    rewrite owners_app, owners_cons, (owners_all_out _ H1), (owners_all_out _ H2).
    rewrite increments_app in *. cbn [increments fold_right fst snd is_out] in *.
    repeat split; [ lia | ].
    apply Forall_app. split; [ apply out_no_read; exact H1 | ].
    constructor; [ intros v Hv; discriminate Hv | apply out_no_read; exact H2 ].
  - assert (Hne : fst g <> GOut) by (rewrite Hg; discriminate).
    destruct (measure_others_out _ _ _ _ Hm Hne) as (_ & H1 & H2).
    unfold measure. rewrite Htk, Hc.
    rewrite owners_app, owners_cons, (owners_all_out _ H1), (owners_all_out _ H2).
    rewrite increments_app in *. cbn [increments fold_right fst snd is_out] in *.
    repeat split; [ lia | ].
    apply Forall_app. split; [ apply out_no_read; exact H1 | ].
    constructor; [ intros v Hv; discriminate Hv | apply out_no_read; exact H2 ].
  - unfold measure. rewrite Htk, Hc.
    rewrite owners_app, owners_cons in *. rewrite Hg in Hown.
    rewrite increments_app in *. cbn [increments fold_right fst snd is_out] in *.
    repeat split; [ exact Hown | exact Hcnt | ].
    apply Forall_app in Hread. destruct Hread as [Hr1 Hr2].
    inversion Hr2; subst.
    apply Forall_app. split; [ exact Hr1 | ].
    constructor; [ intros v Hv; injection Hv as <-; reflexivity | assumption ].
  - assert (Hne : fst g <> GOut) by (rewrite Hg; discriminate).
    destruct (measure_others_out _ _ _ _ Hm Hne) as (Htaken & H1 & H2).
    destruct (measure_knows _ _ _ _ Hm) as [_ Hv]. specialize (Hv v Hg).
    unfold measure. rewrite Htk, Hc.
    rewrite owners_app, owners_cons in *. rewrite Hg in Hown.
    rewrite increments_app in *. cbn [increments fold_right fst snd is_out] in *.
    repeat split; [ exact Hown | lia | ].
    apply Forall_app. split; [ apply out_no_read; exact H1 | ].
    constructor; [ intros v' Hv'; discriminate Hv' | apply out_no_read; exact H2 ].
Qed.

End WithState.

Lemma set_nth_split {A : Type} (l : list A) (i : nat) (y : A) :
  nth_error l i = Some y ->
  exists l1 l2, l = l1 ++ y :: l2 /\ forall x, set_nth i x l = l1 ++ x :: l2.
Proof.
  revert i. induction l as [ | z l IH ]; intros [ | i ] H; cbn in H; try discriminate H.
  - injection H as ->. exists [], l. split; [ reflexivity | intros x; reflexivity ].
  - destruct (IH i H) as (l1 & l2 & -> & Hset).
    exists (z :: l1), l2. split; [ reflexivity | ].
    intros x. cbn [set_nth app]. rewrite Hset. reflexivity.
Qed.

Lemma set_nth_length {A : Type} (l : list A) (i : nat) (x : A) :
  List.length (set_nth i x l) = List.length l.
Proof.
  revert i. induction l as [ | z l IH ]; intros [ | i ]; cbn [set_nth List.length];
    try reflexivity.
  rewrite IH. reflexivity.
Qed.

Section WithCode.
Variable S : Type.
Variable taken : S -> bool.
Variable counter : S -> Z.
Variable K : nat.
Variable enter_code critical_code exit_code : prog S unit.

Hypothesis enter_code_outline :
  forall d, outline (knows taken counter) (t_enter taken counter) (GOut, d) enter_code
                    (fun _ g => g = (GHeld, d)).
Hypothesis critical_code_outline :
  forall d, outline (knows taken counter) (t_critical taken counter) (GHeld, d) critical_code
                    (fun _ g => g = (GHeld, d + 1)).
Hypothesis exit_code_outline :
  forall d, outline (knows taken counter) (t_exit taken counter) (GHeld, d) exit_code
                    (fun _ g => g = (GOut, d)).

Local Abbreviation tinv := (thread_inv taken counter K) (only parsing).
Local Abbreviation adv := (advance enter_code critical_code exit_code) (only parsing).

(** A thread that goes on with its next call keeps its invariant. *)
Lemma advance_inv (t : thread S) (g : ghost) : tinv t g -> tinv (adv t) g.
Proof.
  destruct t as [ph code r]. unfold advance, thread_inv. cbn [th_phase th_code th_rounds].
  destruct code as [ [] | X shared f ev k | | ]; try (intros H; exact H).
  destruct ph; cbn [outline th_phase th_code th_rounds]; intros H.
  - subst g. split; [ discriminate | apply critical_code_outline ].
  - destruct H as [_ ->]. apply exit_code_outline.
  - subst g. unfold made. cbn [th_rounds].
    destruct r as [ | r ]; cbn [th_phase th_code th_rounds].
    + split; [ f_equal; lia | reflexivity ].
    + unfold made. cbn [th_rounds].
      replace (Z.of_nat K - Z.of_nat (Datatypes.S r) - 1 + 1)
        with (Z.of_nat K - Z.of_nat r - 1) by lia.
      apply enter_code_outline.
  - exact H.
Qed.

(** One action of a thread: its invariant holds again for a new ghost
    state, reached by one of the five transitions. *)
Lemma act_inv (ph : phase) (r : nat) (X : Type) (shared : bool) (f : S -> X * S)
    (ev : S -> X -> list event) (k : X -> prog S unit) (g : ghost) (s : S) :
  tinv (mk_thread ph (Act X shared f ev k) r) g ->
  knows taken counter g s ->
  exists g',
    tinv (mk_thread ph (k (fst (f s))) r) g' /\
    (t_skip taken counter g s g' (snd (f s)) \/ t_acquire taken counter g s g' (snd (f s)) \/
     t_release taken counter g s g' (snd (f s)) \/ t_read taken counter g s g' (snd (f s)) \/
     t_write taken counter g s g' (snd (f s))).
Proof.
  unfold thread_inv. cbn [th_phase th_code th_rounds]. intros H Hk.
  destruct ph; cbn [outline] in H.
  - destruct (H s Hk) as (g' & Ht & Ho). exists g'. split; [ exact Ho | ].
    destruct Ht as [ Ht | Ht ]; auto.
  - destruct H as [Hne H]. destruct (H s Hk) as (g' & Ht & Ho). exists g'.
    destruct Ht as [ Ht | [ Ht | Ht ] ].
    + split; [ split; [ | exact Ho ] | auto ].
      destruct Ht as (-> & _). exact Hne.
    + split; [ split; [ | exact Ho ] | auto 6 ].
      destruct Ht as (_ & -> & _). discriminate.
    + split; [ split; [ | exact Ho ] | auto 6 ].
      destruct Ht as (v & _ & -> & _). discriminate.
  - destruct (H s Hk) as (g' & Ht & Ho). exists g'. split; [ exact Ho | ].
    destruct Ht as [ Ht | Ht ]; auto.
  - destruct H as [_ H]. discriminate H.
Qed.

Local Abbreviation inv := (invariant taken counter K) (only parsing).
Local Abbreviation stp := (step enter_code critical_code exit_code) (only parsing).

(** A step of the system keeps the invariant. *)
Lemma step_invariant (i : nat) (c : config S) : inv c -> inv (stp i c).
Proof.
  intros (gs & Hall & Hm). unfold step.
  destruct (nth_error (pool c) i) as [ t | ] eqn:Hi; [ | exists gs; split; assumption ].
  destruct (set_nth_split _ _ _ Hi) as (l1 & l2 & Hpool & Hset).
  rewrite Hpool in Hall. apply Forall2_app_inv_l in Hall.
  destruct Hall as (g1 & gr & H1 & Hr & ->).
  inversion Hr as [ | ? g ? g2 Ht H2 ]; subst.
  unfold step_thread. destruct t as [ph code r]. cbn [th_code th_phase th_rounds].
  destruct code as [ [] | X shared f ev k | | ].
  - cbn [shared_state pool]. rewrite Hset.
    exists (g1 ++ g :: g2). split; [ | exact Hm ].
    apply Forall2_app; [ exact H1 | ].
    constructor; [ apply advance_inv; exact Ht | exact H2 ].
  - pose proof (measure_knows _ taken counter _ _ _ _ Hm) as Hk.
    destruct (act_inv _ _ _ _ _ _ _ _ _ Ht Hk) as (g' & Ht' & Htrans).
    destruct (f (shared_state c)) as [x s'] eqn:Hf. cbn [fst snd] in *.
    cbn [shared_state pool]. rewrite Hset.
    exists (g1 ++ g' :: g2). split.
    + apply Forall2_app; [ exact H1 | ].
      constructor; [ apply advance_inv; exact Ht' | exact H2 ].
    + eapply measure_step; eassumption.
  - cbn [shared_state pool]. rewrite Hset.
    exists (g1 ++ g :: g2). split; [ | exact Hm ].
    apply Forall2_app; [ exact H1 | ].
    constructor; [ apply advance_inv; exact Ht | exact H2 ].
  - cbn [shared_state pool]. rewrite Hset.
    exists (g1 ++ g :: g2). split; [ | exact Hm ].
    apply Forall2_app; [ exact H1 | ].
    constructor; [ apply advance_inv; exact Ht | exact H2 ].
Qed.

Lemma step_pool_length (i : nat) (c : config S) :
  List.length (pool (stp i c)) = List.length (pool c).
Proof.
  unfold step. destruct (nth_error (pool c) i) as [ t | ]; [ | reflexivity ].
  destruct (step_thread _ _ _ _ t) as [s' t']. cbn [pool].
  apply set_nth_length.
Qed.

Lemma run_schedule_invariant (schedule : list nat) (c : config S) :
  inv c ->
  inv (run_schedule enter_code critical_code exit_code schedule c) /\
  List.length (pool (run_schedule enter_code critical_code exit_code schedule c)) =
  List.length (pool c).
Proof.
  revert c. induction schedule as [ | i schedule IH ]; intros c Hc; [ split; auto | ].
  cbn [run_schedule fold_left].
  destruct (IH (stp i c) (step_invariant i c Hc)) as [Hinv Hlen].
  split; [ exact Hinv | ].
  unfold run_schedule in Hlen. rewrite Hlen. apply step_pool_length.
Qed.

Lemma initial_invariant (s : S) (N : nat) :
  taken s = false -> counter s = 0 ->
  inv (initial enter_code s N K).
Proof.
  intros Htk Hc. exists (repeat (GOut, 0) N). unfold initial. cbn [pool shared_state].
  split.
  - induction N as [ | N IH ]; cbn [repeat]; constructor; [ | exact IH ].
    unfold start, thread_inv. destruct K as [ | r ] eqn:HK; cbn [th_phase th_code th_rounds].
    + split; reflexivity.
    + unfold made. cbn [th_rounds].
      replace (Z.of_nat (Datatypes.S r) - Z.of_nat r - 1) with 0 by lia.
      apply enter_code_outline.
  - unfold measure. rewrite Htk, Hc.
    repeat split.
    + induction N as [ | N IH ]; [ reflexivity | ].
      cbn [repeat]. rewrite owners_cons. cbn [fst is_out]. exact IH.
    + induction N as [ | N IH ]; [ reflexivity | ].
      cbn [repeat]. change (increments ((GOut, 0) :: repeat (GOut, 0) N))
        with (0 + increments (repeat (GOut, 0) N)).
      rewrite <- IH. reflexivity.
    + apply Forall_forall. intros g Hg v Hv.
      apply repeat_spec in Hg. subst g. discriminate Hv.
Qed.

(** Under the invariant at most one thread is inside its critical section. *)
Lemma invariant_holders (c : config S) : inv c -> (holders c <= 1)%nat.
Proof.
  destruct c as [s l]. unfold invariant, holders. cbn [pool shared_state].
  intros (gs & Hall & Hown & _ & _).
  assert (Hle : (List.length (filter in_critical l) <= owners gs)%nat).
  { clear Hown. induction Hall as [ | t g l gs' Ht _ IH ]; [ apply Nat.le_refl | ].
    rewrite owners_cons. cbn [filter].
    destruct t as [ph code r]. unfold in_critical at 1. cbn [th_phase].
    unfold thread_inv in Ht. cbn [th_phase] in Ht.
    destruct ph; cbn [List.length];
      try (destruct (is_out (fst g)); lia).
    destruct Ht as [Hne _]. rewrite (is_out_false _ Hne). lia. }
  destruct (taken s); lia.
Qed.

(** Under the invariant, when all threads have finished, the counter is the
    number of threads times [K]. *)
Lemma invariant_finished (c : config S) :
  inv c -> all_finished c = true ->
  counter (shared_state c) = Z.of_nat (List.length (pool c)) * Z.of_nat K.
Proof.
  destruct c as [s l]. unfold invariant, all_finished. cbn [pool shared_state].
  intros (gs & Hall & _ & Hcnt & _) Hfin. rewrite Hcnt. clear Hcnt.
  induction Hall as [ | t g l gs' Ht _ IH ]; [ reflexivity | ].
  cbn [forallb] in Hfin. apply andb_true_iff in Hfin. destruct Hfin as [Ht1 Hl].
  cbn [increments fold_right List.length]. fold (increments gs'). rewrite (IH Hl).
  destruct t as [ph code r]. unfold finished in Ht1. cbn [th_phase] in Ht1.
  unfold thread_inv in Ht. cbn [th_phase] in Ht.
  destruct ph; try discriminate Ht1.
  destruct Ht as [-> _]. cbn [snd]. lia.
Qed.

(** The two properties for every schedule from an initial state in which
    the mutex is free and the counter is zero. *)
Lemma mutual_exclusion_and_count (s : S) (N : nat) (schedule : list nat) :
  taken s = false -> counter s = 0 ->
  let c := run_schedule enter_code critical_code exit_code schedule
             (initial enter_code s N K) in
  (holders c <= 1)%nat /\
  (all_finished c = true -> counter (shared_state c) = Z.of_nat N * Z.of_nat K).
Proof.
  intros Htk Hc c.
  destruct (run_schedule_invariant schedule _ (initial_invariant s N Htk Hc)) as [Hinv Hlen].
  fold c in Hinv, Hlen.
  split; [ apply invariant_holders; exact Hinv | ].
  intros Hfin. rewrite (invariant_finished c Hinv Hfin), Hlen.
  unfold initial. cbn [pool]. rewrite repeat_length. reflexivity.
Qed.

End WithCode.

End PoolFacts.

(* ================================================================== *)
(** * Outlines of the code of the mutexes *)

Module LockOutlines.
Import Exec Sync CTypes Outline OutlineFacts.

(** ** Actions that leave the mutex as taken or as free as it was *)

Section Skips.
Variable S : Type.
Variable taken : S -> bool.
Variable trans : ghost -> S -> ghost -> S -> Prop.
Hypothesis skip_ok : forall g s s', taken s' = taken s -> trans g s g s'.

Local Abbreviation ok := (outline (owns taken) trans) (only parsing).

Lemma outline_ret {A : Type} (g : ghost) (a : A) (Q : A -> ghost -> Prop) :
  Q a g -> ok g (ret a) Q.
Proof. intros H. exact H. Qed.

Lemma outline_emit (g : ghost) (e : event) (Q : unit -> ghost -> Prop) :
  Q tt g -> ok g (emit e) Q.
Proof.
  intros H. apply outline_act with (g' := g); [ | intros []; exact H ].
  intros s _. apply skip_ok. reflexivity.
Qed.

Lemma outline_get (g : ghost) (Q : S -> ghost -> Prop) :
  (forall s, Q s g) -> ok g get Q.
Proof.
  intros H. apply outline_act with (g' := g); [ | intros x; apply H ].
  intros s _. apply skip_ok. reflexivity.
Qed.

Lemma outline_modify (g : ghost) (f : S -> S) (Q : unit -> ghost -> Prop) :
  (forall s, taken (f s) = taken s) -> Q tt g -> ok g (modify f) Q.
Proof.
  intros Hf H. apply outline_act with (g' := g); [ | intros []; exact H ].
  intros s _. apply skip_ok. apply Hf.
Qed.

Lemma outline_ut_a (g : ghost) (b : S -> bool) (Q : unit -> ghost -> Prop) :
  Q tt g -> ok g (ut_a b) Q.
Proof.
  intros H. apply outline_act with (g' := g).
  - intros s _. apply skip_ok. reflexivity.
  - intros [ | ]; [ exact H | exact Logic.I ].
Qed.

Lemma outline_ut_ad (g : ghost) (dbg : bool) (b : S -> bool) (Q : unit -> ghost -> Prop) :
  Q tt g -> ok g (ut_ad dbg b) Q.
Proof. intros H. unfold ut_ad. destruct dbg; [ apply outline_ut_a | ]; exact H. Qed.

Lemma outline_ut_d (g : ghost) (dbg : bool) (f : S -> S) (Q : unit -> ghost -> Prop) :
  (forall s, taken (f s) = taken s) -> Q tt g -> ok g (ut_d dbg f) Q.
Proof.
  intros Hf H. unfold ut_d. destruct dbg; [ apply outline_modify; assumption | exact H ].
Qed.

Lemma outline_atomically {A : Type} (g : ghost) (f : S -> A * S)
    (ev : S -> A -> list event) (Q : A -> ghost -> Prop) :
  (forall s, taken (snd (f s)) = taken s) -> (forall a, Q a g) ->
  ok g (atomically f ev) Q.
Proof.
  intros Hf H. apply outline_act with (g' := g); [ | intros a; apply H ].
  intros s _. apply skip_ok. apply Hf.
Qed.

Lemma outline_seq {A B : Type} (g : ghost) (c : prog S A) (k : A -> prog S B)
    (Q : B -> ghost -> Prop) :
  ok g c (fun _ g' => g' = g) -> (forall a, ok g (k a) Q) -> ok g (bind c k) Q.
Proof.
  intros Hc Hk. apply outline_bind.
  eapply outline_post; [ | exact Hc ].
  intros a g' ->. apply Hk.
Qed.

End Skips.

(** ** The transitions of [enter] and [exit] on the mutex alone *)

Section LockLevel.
Variable S : Type.
Variable taken : S -> bool.

Local Abbreviation none := (fun _ : S => 0) (only parsing).

Lemma enter_skip_ok (g : ghost) (s s' : S) :
  taken s' = taken s -> t_enter taken none g s g s'.
Proof. intros H. left. repeat split. exact H. Qed.

Lemma exit_skip_ok (g : ghost) (s s' : S) :
  taken s' = taken s -> t_exit taken none g s g s'.
Proof. intros H. left. repeat split. exact H. Qed.

(** An action that takes the mutex when it is free and leaves it taken
    otherwise, and tells which. *)
Lemma outline_acquire (d : Z) (f : S -> bool * S) (ev : S -> bool -> list event)
    (Q : bool -> ghost -> Prop) :
  (forall s, taken s = false -> fst (f s) = true /\ taken (snd (f s)) = true) ->
  (forall s, taken s = true -> fst (f s) = false /\ taken (snd (f s)) = true) ->
  Q true (GHeld, d) -> Q false (GOut, d) ->
  outline (owns taken) (t_enter taken none) (GOut, d) (atomically f ev) Q.
Proof.
  intros Hfree Htaken Qt Qf s _. cbn [outline].
  destruct (taken s) eqn:Hs.
  - destruct (Htaken s Hs) as [Hr Hs']. exists (GOut, d). rewrite Hr.
    split; [ left; repeat split; congruence | exact Qf ].
  - destruct (Hfree s Hs) as [Hr Hs']. exists (GHeld, d). rewrite Hr.
    split; [ right; repeat split; assumption | exact Qt ].
Qed.

(** An action that frees the mutex. *)
Lemma outline_release {A : Type} (d : Z) (f : S -> A * S) (ev : S -> A -> list event)
    (Q : A -> ghost -> Prop) :
  (forall s, taken (snd (f s)) = false) ->
  (forall a, Q a (GOut, d)) ->
  outline (owns taken) (t_exit taken none) (GHeld, d) (atomically f ev) Q.
Proof.
  intros Hf HQ s _. cbn [outline]. exists (GOut, d).
  split; [ right; repeat split; apply Hf | apply HQ ].
Qed.

End LockLevel.

(** ** TTASFutexMutex *)

Module Futex.
Import TTASFutexMutex.

Section WithPolicy.
Variable P : Type.
Variable hooks : policy_hooks P (t P).

Local Abbreviation enter_ok :=
  (outline (owns (taken (P:=P))) (t_enter taken (fun _ => 0))) (only parsing).
Local Abbreviation exit_ok :=
  (outline (owns (taken (P:=P))) (t_exit taken (fun _ => 0))) (only parsing).

Lemma futex_try_lock_outline (d : Z) :
  enter_ok (GOut, d) try_lock
           (fun locked g => g = if locked : bool then (GHeld, d) else (GOut, d)).
Proof.
  apply outline_acquire; try reflexivity; intros s Hs; unfold taken in *.
  - apply negb_false_iff in Hs. rewrite Hs. split; reflexivity.
  - apply negb_true_iff in Hs. rewrite Hs. cbn [fst snd]. rewrite Hs. split; reflexivity.
Qed.

Lemma futex_policy_add_outline (g : ghost) (n_spins n_waits : Z) :
  enter_ok g (policy_add hooks n_spins n_waits) (fun _ g' => g' = g).
Proof.
  unfold policy_add. apply outline_seq; [ | intros _ ].
  - apply outline_emit; [ apply enter_skip_ok | reflexivity ].
  - apply outline_modify; [ apply enter_skip_ok | reflexivity | reflexivity ].
Qed.

Lemma spin_loop_outline (d : Z) (fuel : nat) (n max_spins max_delay : Z) :
  enter_ok (GOut, d) (spin_loop hooks fuel n max_spins max_delay)
           (fun r g => g = match r with inl _ => (GHeld, d) | inr _ => (GOut, d) end).
Proof.
  revert n. induction fuel as [ | fuel IH ]; intros n; cbn [spin_loop];
    destruct (n <? max_spins); try reflexivity; try exact Logic.I.
  apply outline_bind. eapply outline_post; [ | apply futex_try_lock_outline ].
  intros [ | ] g ->.
  - apply outline_bind. eapply outline_post; [ | apply futex_policy_add_outline ].
    intros _ g ->. reflexivity.
  - apply outline_seq; [ | intros _; apply IH ].
    apply outline_emit; [ apply enter_skip_ok | reflexivity ].
Qed.

Lemma park_loop_outline (d : Z) (fuel : nat) (n : Z) :
  enter_ok (GOut, d) (park_loop fuel n) (fun _ g => g = (GHeld, d)).
Proof.
  revert n. induction fuel as [ | fuel IH ]; intros n; cbn [park_loop]; [ exact Logic.I | ].
  unfold my_atomic_fas32_explicit, atomically. cbn [bind].
  intros s _. cbn [fst snd outline]. unfold taken at 1 3.
  destruct (m_lock_word s =? MUTEX_STATE_UNLOCKED) eqn:Hs.
  - exists (GHeld, d). split; [ | reflexivity ].
    right. unfold t_acquire, taken. cbn [fst snd set_lock_word m_lock_word].
    rewrite Hs. repeat split.
  - exists (GOut, d). split.
    + left. unfold t_skip, taken. cbn [set_lock_word m_lock_word]. rewrite Hs.
      repeat split.
    + apply outline_seq; [ | intros _; apply IH ].
      apply outline_emit; [ apply enter_skip_ok | reflexivity ].
Qed.

Lemma futex_enter_outline (d : Z) (fuel : nat) (max_spins max_delay : Z) (filename : string)
    (line : Z) :
  enter_ok (GOut, d) (enter hooks fuel max_spins max_delay filename line)
           (fun _ g => g = (GHeld, d)).
Proof.
  unfold enter. apply outline_bind.
  eapply outline_post; [ | apply spin_loop_outline ].
  intros [ n | n ] g ->; [ reflexivity | ].
  apply outline_bind. eapply outline_post; [ | apply park_loop_outline ].
  intros n_waits g ->. apply futex_policy_add_outline.
Qed.

Lemma futex_exit_outline (d : Z) :
  exit_ok (GHeld, d) (exit (P:=P)) (fun _ g => g = (GOut, d)).
Proof.
  unfold exit. apply outline_bind.
  unfold my_atomic_fas32_explicit. apply outline_release; [ reflexivity | ].
  intros old. destruct (old =? MUTEX_STATE_WAITERS); [ | reflexivity ].
  apply outline_emit; [ apply exit_skip_ok | reflexivity ].
Qed.

End WithPolicy.

End Futex.

(** ** TTASMutex *)

Module Spin.
Import TTASMutex.

Section WithPolicy.
Variable P : Type.
Variable hooks : policy_hooks P (t P).
Variable univ_debug : bool.

Local Abbreviation enter_ok :=
  (outline (owns (taken (P:=P))) (t_enter taken (fun _ => 0))) (only parsing).
Local Abbreviation exit_ok :=
  (outline (owns (taken (P:=P))) (t_exit taken (fun _ => 0))) (only parsing).

Lemma spin_try_lock_outline (d : Z) :
  enter_ok (GOut, d) try_lock
           (fun locked g => g = if locked : bool then (GHeld, d) else (GOut, d)).
Proof.
  apply outline_acquire; try reflexivity; intros s Hs; unfold taken in *.
  - apply negb_false_iff in Hs. rewrite Hs. split; reflexivity.
  - apply negb_true_iff in Hs. rewrite Hs. cbn [fst snd]. rewrite Hs. split; reflexivity.
Qed.

Lemma spin_policy_add_outline (g : ghost) (n_spins n_waits : Z) :
  enter_ok g (policy_add hooks n_spins n_waits) (fun _ g' => g' = g).
Proof.
  unfold policy_add. apply outline_seq; [ | intros _ ].
  - apply outline_emit; [ apply enter_skip_ok | reflexivity ].
  - apply outline_modify; [ apply enter_skip_ok | reflexivity | reflexivity ].
Qed.

Lemma enter_loop_outline (d : Z) (fuel : nat) (step n max_spins max_delay : Z) :
  enter_ok (GOut, d) (enter_loop fuel step n max_spins max_delay)
           (fun _ g => g = (GHeld, d)).
Proof.
  revert n max_spins. induction fuel as [ | fuel IH ]; intros n max_spins;
    cbn [enter_loop]; [ exact Logic.I | ].
  apply outline_bind. eapply outline_post; [ | apply spin_try_lock_outline ].
  intros [ | ] g ->; [ reflexivity | ].
  apply outline_seq; [ | intros _ ].
  - apply outline_emit; [ apply enter_skip_ok | reflexivity ].
  - cbv zeta. destruct (_ =? _); [ | apply IH ].
    apply outline_seq; [ | intros _; apply IH ].
    apply outline_emit; [ apply enter_skip_ok | reflexivity ].
Qed.

Lemma spin_enter_outline (d : Z) (fuel : nat) (max_spins max_delay : Z) (filename : string)
    (line : Z) :
  enter_ok (GOut, d) (enter hooks fuel max_spins max_delay filename line)
           (fun _ g => g = (GHeld, d)).
Proof.
  unfold enter. cbv zeta. apply outline_bind.
  eapply outline_post; [ | apply enter_loop_outline ].
  intros n g ->. apply spin_policy_add_outline.
Qed.

Lemma spin_exit_outline (d : Z) :
  exit_ok (GHeld, d) (exit univ_debug) (fun _ g => g = (GOut, d)).
Proof.
  unfold exit. apply outline_seq; [ | intros _ ].
  - apply outline_ut_ad; [ apply exit_skip_ok | reflexivity ].
  - unfold my_atomic_store32_explicit. apply outline_release; reflexivity.
Qed.

End WithPolicy.

End Spin.

(** ** TTASEventMutex *)

Module Event.
Import TTASEventMutex.

Section WithPolicy.
Variable P : Type.
Variable hooks : policy_hooks P (t P).
Variable univ_debug : bool.

Local Abbreviation enter_ok :=
  (outline (owns (taken (P:=P))) (t_enter taken (fun _ => 0))) (only parsing).
Local Abbreviation exit_ok :=
  (outline (owns (taken (P:=P))) (t_exit taken (fun _ => 0))) (only parsing).

Local Ltac skip_step :=
  first
    [ apply outline_emit; [ apply enter_skip_ok | ]
    | apply outline_ut_ad; [ apply enter_skip_ok | ]
    | apply outline_atomically; [ apply enter_skip_ok | intros; reflexivity | intros ]
    | apply outline_modify; [ apply enter_skip_ok | intros; reflexivity | ] ].

Lemma event_try_lock_outline (d : Z) :
  enter_ok (GOut, d) try_lock
           (fun locked g => g = if locked : bool then (GHeld, d) else (GOut, d)).
Proof.
  unfold try_lock, tas_lock, my_atomic_faslong, atomically. cbn [bind].
  intros s _. cbn [fst snd outline ret].
  destruct (m_lock_word s =? MUTEX_STATE_UNLOCKED) eqn:Hs.
  - exists (GHeld, d). split; [ | reflexivity ].
    right. unfold t_acquire, taken. cbn [fst snd set_lock_word m_lock_word].
    rewrite Hs. repeat split.
  - exists (GOut, d). split; [ | reflexivity ].
    left. unfold t_skip, taken. cbn [set_lock_word m_lock_word]. rewrite Hs.
    repeat split.
Qed.

Lemma event_policy_add_outline (g : ghost) (n_spins n_waits : Z) :
  enter_ok g (policy_add hooks n_spins n_waits) (fun _ g' => g' = g).
Proof.
  unfold policy_add. apply outline_seq; [ | intros _ ]; skip_step; reflexivity.
Qed.

Lemma is_locked_outline (g : ghost) :
  enter_ok g is_locked (fun _ g' => g' = g).
Proof.
  unfold is_locked, read_word. apply outline_bind. skip_step. reflexivity.
Qed.

Lemma is_free_outline (g : ghost) (fuel : nat) (max_spins max_delay n_spins : Z) :
  enter_ok g (is_free univ_debug fuel max_spins max_delay n_spins) (fun _ g' => g' = g).
Proof.
  unfold is_free. apply outline_seq; [ skip_step; reflexivity | intros _ ].
  revert n_spins. induction fuel as [ | fuel IH ]; intros n_spins; cbn [is_free_loop];
    [ exact Logic.I | ].
  apply outline_seq; [ apply is_locked_outline | intros locked ].
  destruct (negb locked); [ reflexivity | ].
  apply outline_seq; [ skip_step; reflexivity | intros _ ].
  cbv zeta. destruct (_ <? _); [ apply IH | reflexivity ].
Qed.

Lemma set_waiters_outline (g : ghost) :
  enter_ok g set_waiters (fun _ g' => g' = g).
Proof.
  unfold set_waiters, write_word.
  apply outline_seq; [ | intros _ ]; skip_step; reflexivity.
Qed.

Lemma wait_retry_outline (d : Z) (spin : nat) :
  enter_ok (GOut, d) (wait_retry spin)
           (fun locked g => g = if locked : bool then (GHeld, d) else (GOut, d)).
Proof.
  induction spin as [ | spin IH ]; cbn [wait_retry]; [ reflexivity | ].
  apply outline_bind. eapply outline_post; [ | apply event_try_lock_outline ].
  intros [ | ] g ->; [ reflexivity | apply IH ].
Qed.

Lemma wait_outline (d : Z) (filename : string) (line spin : Z) :
  enter_ok (GOut, d) (wait filename line spin)
           (fun locked g => g = if locked : bool then (GHeld, d) else (GOut, d)).
Proof.
  unfold wait.
  apply outline_seq; [ skip_step; reflexivity | intros _ ].
  apply outline_seq; [ apply set_waiters_outline | intros _ ].
  apply outline_bind. eapply outline_post; [ | apply wait_retry_outline ].
  intros [ | ] g ->; (apply outline_seq; [ skip_step; reflexivity | intros _; reflexivity ]).
Qed.

Lemma spin_and_try_lock_loop_outline (d : Z) (fuel : nat)
    (step n_spins n_waits max_spins max_delay : Z) (filename : string) (line : Z) :
  enter_ok (GOut, d)
    (spin_and_try_lock_loop univ_debug fuel step n_spins n_waits max_spins max_delay
       filename line)
    (fun _ g => g = (GHeld, d)).
Proof.
  revert n_spins n_waits max_spins.
  induction fuel as [ | fuel IH ]; intros n_spins n_waits max_spins;
    cbn [spin_and_try_lock_loop]; [ exact Logic.I | ].
  apply outline_seq; [ apply is_free_outline | intros [ [ | ] n ] ].
  - apply outline_bind. eapply outline_post; [ | apply event_try_lock_outline ].
    intros [ | ] g ->; [ reflexivity | apply IH ].
  - cbv zeta. apply outline_seq; [ skip_step; reflexivity | intros _ ].
    apply outline_bind. eapply outline_post; [ | apply wait_outline ].
    intros [ | ] g ->; [ reflexivity | apply IH ].
Qed.

Lemma event_enter_outline (d : Z) (fuel : nat) (max_spins max_delay : Z) (filename : string)
    (line : Z) :
  enter_ok (GOut, d) (enter hooks univ_debug fuel max_spins max_delay filename line)
           (fun _ g => g = (GHeld, d)).
Proof.
  unfold enter. apply outline_bind. eapply outline_post; [ | apply event_try_lock_outline ].
  intros [ | ] g ->; cbn [negb]; [ reflexivity | ].
  unfold spin_and_try_lock. cbv zeta.
  apply outline_seq; [ skip_step; reflexivity | intros _ ].
  apply outline_bind. eapply outline_post; [ | apply spin_and_try_lock_loop_outline ].
  intros [n_spins n_waits] g ->. apply event_policy_add_outline.
Qed.

Lemma event_exit_outline (d : Z) :
  exit_ok (GHeld, d) (exit (P:=P)) (fun _ g => g = (GOut, d)).
Proof.
  unfold exit. apply outline_bind.
  unfold tas_unlock, my_atomic_storelong. apply outline_release; [ reflexivity | ].
  intros _. apply outline_bind. unfold read_word.
  apply outline_atomically; [ apply exit_skip_ok | reflexivity | intros w ].
  destruct (negb (w =? 0)); [ | reflexivity ].
  unfold signal. apply outline_bind.
  apply outline_get; [ apply exit_skip_ok | intros m ].
  apply outline_emit; [ apply exit_skip_ok | reflexivity ].
Qed.

End WithPolicy.

End Event.

(** ** The code of a member mutex inside its owner *)

Section Zoom.
Variable S T : Type.
Variable takenS : S -> bool.
Variable takenT : T -> bool.
Variable counterS : S -> Z.
Variable preS : ghost -> S -> Prop.
Variable proj : S -> T.
Variable upd : T -> S -> S.
Hypothesis taken_proj : forall s, takenS s = takenT (proj s).
Hypothesis proj_upd : forall t s, proj (upd t s) = t.
Hypothesis counter_upd : forall t s, counterS (upd t s) = counterS s.
Hypothesis preS_owns : forall g s, preS g s -> owns takenS g s.

Lemma zoom_enter_outline {A : Type} (g : ghost) (c : prog T A) (Q : A -> ghost -> Prop) :
  outline (owns takenT) (t_enter takenT (fun _ => 0)) g c Q ->
  outline preS (t_enter takenS counterS) g (zoom proj upd c) Q.
Proof.
  apply outline_zoom.
  - intros g0 s Hs Hg. rewrite <- taken_proj. apply (preS_owns g0 s Hs Hg).
  - intros g0 s g' t' _ [ (-> & Htk & _) | (Hg & -> & Hfree & Htk & _) ].
    + left. repeat split; [ | apply counter_upd ].
      rewrite !taken_proj, proj_upd. exact Htk.
    + right. repeat split; try assumption; [ | | apply counter_upd ].
      * rewrite taken_proj. exact Hfree.
      * rewrite taken_proj, proj_upd. exact Htk.
Qed.

Lemma zoom_exit_outline {A : Type} (g : ghost) (c : prog T A) (Q : A -> ghost -> Prop) :
  outline (owns takenT) (t_exit takenT (fun _ => 0)) g c Q ->
  outline preS (t_exit takenS counterS) g (zoom proj upd c) Q.
Proof.
  apply outline_zoom.
  - intros g0 s Hs Hg. rewrite <- taken_proj. apply (preS_owns g0 s Hs Hg).
  - intros g0 s g' t' _ [ (-> & Htk & _) | (Hg & -> & Htk & _) ].
    + left. repeat split; [ | apply counter_upd ].
      rewrite !taken_proj, proj_upd. exact Htk.
    + right. repeat split; try assumption; [ | apply counter_upd ].
      rewrite taken_proj, proj_upd. exact Htk.
Qed.

End Zoom.

(** ** OSTrackMutex over the native mutex *)

Module Native.
Import OSTrackMutex.

Lemma os_enter_outline (d : Z) (fuel : nat) :
  outline (owns OSMutex.os_locked) (t_enter OSMutex.os_locked (fun _ => 0)) (GOut, d)
          (OSMutex.enter fuel) (fun _ g => g = (GHeld, d)).
Proof.
  induction fuel as [ | fuel IH ]; cbn [OSMutex.enter]; [ exact Logic.I | ].
  apply outline_bind.
  apply outline_acquire.
  - intros s Hs. rewrite Hs. split; reflexivity.
  - intros s Hs. rewrite Hs. cbn [fst snd]. split; [ reflexivity | exact Hs ].
  - reflexivity.
  - exact IH.
Qed.

Lemma os_exit_outline (d : Z) :
  outline (owns OSMutex.os_locked) (t_exit OSMutex.os_locked (fun _ => 0)) (GHeld, d)
          OSMutex.exit (fun _ g => g = (GOut, d)).
Proof. unfold OSMutex.exit. apply outline_release; reflexivity. Qed.

Section WithPolicy.
Variable P : Type.
Variable univ_debug innodb_calling_exit : bool.

Local Abbreviation enter_ok :=
  (outline (owns (taken (P:=P))) (t_enter taken (fun _ => 0))) (only parsing).
Local Abbreviation exit_ok :=
  (outline (owns (taken (P:=P))) (t_exit taken (fun _ => 0))) (only parsing).

Lemma native_enter_outline (d : Z) (fuel : nat) (max_spins max_delay : Z) (filename : string)
    (line : Z) :
  enter_ok (GOut, d)
           (enter univ_debug innodb_calling_exit fuel max_spins max_delay filename line)
           (fun _ g => g = (GHeld, d)).
Proof.
  unfold enter.
  apply outline_seq; [ | intros _ ].
  { apply outline_ut_ad; [ apply enter_skip_ok | reflexivity ]. }
  apply outline_bind.
  eapply outline_post;
    [ | apply (zoom_enter_outline (t P) OSMutex.t taken OSMutex.os_locked (fun _ => 0)
                 (owns taken) m_mutex set_mutex);
        [ reflexivity | reflexivity | reflexivity | intros g s H; exact H
        | apply os_enter_outline ] ].
  intros _ g ->.
  apply outline_seq; [ | intros _ ].
  { apply outline_ut_ad; [ apply enter_skip_ok | reflexivity ]. }
  apply outline_ut_d; [ apply enter_skip_ok | reflexivity | reflexivity ].
Qed.

Lemma native_exit_outline (d : Z) :
  exit_ok (GHeld, d) (exit univ_debug innodb_calling_exit) (fun _ g => g = (GOut, d)).
Proof.
  unfold exit.
  apply outline_seq; [ | intros _ ].
  { apply outline_ut_ad; [ apply exit_skip_ok | reflexivity ]. }
  apply outline_seq; [ | intros _ ].
  { apply outline_ut_d; [ apply exit_skip_ok | reflexivity | reflexivity ]. }
  apply outline_seq; [ | intros _ ].
  { apply outline_ut_ad; [ apply exit_skip_ok | reflexivity ]. }
  apply (zoom_exit_outline (t P) OSMutex.t taken OSMutex.os_locked (fun _ => 0)
           (owns taken) m_mutex set_mutex);
    [ reflexivity | reflexivity | reflexivity | intros g s H; exact H
    | apply os_exit_outline ].
Qed.

End WithPolicy.

End Native.

(** ** PolicyMutex over an implementation with outlines *)

Module Facade.
Import PolicyMutex.

Section WithImpl.
Variable P Impl : Type.
Variable I : mutex_impl P Impl.
Variable hooks : policy_hooks P Impl.
Variable univ_pfs_mutex : bool.
Variable psi_start_mutex_wait : Z -> psi_mutex_operation -> string -> Z -> Z.

(** Whether the implementation is taken; changing the policy record does not
    change that, and the implementation has outlines. *)
Variable takenI : Impl -> bool.
Hypothesis taken_set_policy : forall p i, takenI (impl_set_policy I p i) = takenI i.
Hypothesis impl_enter_outline :
  forall d fuel n_spins n_delay name line,
    outline (owns takenI) (t_enter takenI (fun _ => 0)) (GOut, d)
            (impl_enter I fuel n_spins n_delay name line) (fun _ g => g = (GHeld, d)).
Hypothesis impl_exit_outline :
  forall d,
    outline (owns takenI) (t_exit takenI (fun _ => 0)) (GHeld, d)
            (impl_exit I) (fun _ g => g = (GOut, d)).

Local Abbreviation taken_facade := (Workers.taken_facade takenI) (only parsing).

Local Abbreviation enter_ok :=
  (outline (owns taken_facade) (t_enter taken_facade (fun _ => 0))) (only parsing).
Local Abbreviation exit_ok :=
  (outline (owns taken_facade) (t_exit taken_facade (fun _ => 0))) (only parsing).

Lemma call_policy_enter_outline (g : ghost) (ev : event) (hook : Impl -> P -> P) :
  enter_ok g (call_policy I ev hook) (fun _ g' => g' = g).
Proof.
  unfold call_policy. apply outline_seq; [ | intros _ ].
  - apply outline_emit; [ apply enter_skip_ok | reflexivity ].
  - apply outline_modify; [ apply enter_skip_ok | | reflexivity ].
    intros m. unfold Workers.taken_facade. cbn [set_impl m_impl]. apply taken_set_policy.
Qed.

Lemma call_policy_exit_outline (g : ghost) (ev : event) (hook : Impl -> P -> P) :
  exit_ok g (call_policy I ev hook) (fun _ g' => g' = g).
Proof.
  unfold call_policy. apply outline_seq; [ | intros _ ].
  - apply outline_emit; [ apply exit_skip_ok | reflexivity ].
  - apply outline_modify; [ apply exit_skip_ok | | reflexivity ].
    intros m. unfold Workers.taken_facade. cbn [set_impl m_impl]. apply taken_set_policy.
Qed.

Lemma facade_enter_outline (d : Z) (fuel : nat) (n_spins n_delay : Z) (name : string) (line : Z) :
  enter_ok (GOut, d)
    (enter I hooks univ_pfs_mutex psi_start_mutex_wait fuel n_spins n_delay name line)
    (fun _ g => g = (GHeld, d)).
Proof.
  unfold enter.
  apply outline_seq; [ | intros locker ].
  { unfold ifdef_pfs. destruct univ_pfs_mutex; [ | reflexivity ].
    unfold pfs_begin_lock. apply outline_bind.
    apply outline_get; [ apply enter_skip_ok | intros m ].
    destruct (negb (m_ptr m =? 0)); [ | reflexivity ].
    apply outline_seq; [ | intros _; reflexivity ].
    apply outline_emit; [ apply enter_skip_ok | reflexivity ]. }
  apply outline_seq; [ apply call_policy_enter_outline | intros _ ].
  apply outline_bind.
  eapply outline_post;
    [ | apply (zoom_enter_outline (t Impl) Impl taken_facade takenI (fun _ => 0)
                 (owns taken_facade) m_impl set_impl);
        [ reflexivity | reflexivity | reflexivity | intros g s H; exact H
        | apply impl_enter_outline ] ].
  intros _ g ->.
  apply outline_seq; [ apply call_policy_enter_outline | intros _ ].
  unfold ifdef_pfs. destruct univ_pfs_mutex; [ | reflexivity ].
  unfold pfs_end. destruct (negb (locker =? 0)); [ | reflexivity ].
  apply outline_emit; [ apply enter_skip_ok | reflexivity ].
Qed.

Lemma facade_exit_outline (d : Z) :
  exit_ok (GHeld, d) (exit I hooks univ_pfs_mutex) (fun _ g => g = (GOut, d)).
Proof.
  unfold exit.
  apply outline_seq; [ | intros _ ].
  { unfold ifdef_pfs. destruct univ_pfs_mutex; [ | reflexivity ].
    unfold pfs_exit. apply outline_bind.
    apply outline_get; [ apply exit_skip_ok | intros m ].
    destruct (negb (m_ptr m =? 0)); [ | reflexivity ].
    apply outline_emit; [ apply exit_skip_ok | reflexivity ]. }
  apply outline_seq; [ apply call_policy_exit_outline | intros _ ].
  apply (zoom_exit_outline (t Impl) Impl taken_facade takenI (fun _ => 0)
           (owns taken_facade) m_impl set_impl);
    [ reflexivity | reflexivity | reflexivity | intros g s H; exact H
    | apply impl_exit_outline ].
Qed.

End WithImpl.

End Facade.

End LockOutlines.

(* ================================================================== *)
(** * The threads of the testable properties *)

Module WorkersFacts.
Import Exec Sync Outline OutlineFacts Pool Invariant PolicyMutex Workers.

Section WithImpl.
Variable P Impl : Type.
Variable I : mutex_impl P Impl.
Variable hooks : policy_hooks P Impl.
Variable univ_pfs_mutex : bool.
Variable psi_start_mutex_wait : Z -> psi_mutex_operation -> string -> Z -> Z.
Variable fuel : nat.
Variable n_spins n_delay : Z.
Variable name : string.
Variable line : Z.

Variable takenI : Impl -> bool.
Hypothesis taken_set_policy : forall p i, takenI (impl_set_policy I p i) = takenI i.
Hypothesis impl_enter_outline :
  forall d fuel n_spins n_delay name line,
    outline (owns takenI) (t_enter takenI (fun _ => 0)) (GOut, d)
            (impl_enter I fuel n_spins n_delay name line) (fun _ g => g = (GHeld, d)).
Hypothesis impl_exit_outline :
  forall d,
    outline (owns takenI) (t_exit takenI (fun _ => 0)) (GHeld, d)
            (impl_exit I) (fun _ g => g = (GOut, d)).

Local Abbreviation takenS := (taken_shared takenI) (only parsing).

Lemma knows_owns (g : ghost) (s : shared Impl) : knows takenS x g s -> owns takenS g s.
Proof. intros [H _]. exact H. Qed.

Lemma workers_enter_outline (d : Z) :
  outline (knows takenS x) (t_enter takenS x) (GOut, d)
    (enter_code I hooks univ_pfs_mutex psi_start_mutex_wait fuel n_spins n_delay name line)
    (fun _ g => g = (GHeld, d)).
Proof.
  unfold enter_code.
  apply (LockOutlines.zoom_enter_outline (shared Impl) (PolicyMutex.t Impl) takenS
           (taken_facade takenI) x (knows takenS x) mtx set_mtx);
    [ reflexivity | reflexivity | reflexivity | apply knows_owns | ].
  apply LockOutlines.Facade.facade_enter_outline; assumption.
Qed.

Lemma workers_exit_outline (d : Z) :
  outline (knows takenS x) (t_exit takenS x) (GHeld, d)
    (exit_code I hooks univ_pfs_mutex) (fun _ g => g = (GOut, d)).
Proof.
  unfold exit_code.
  apply (LockOutlines.zoom_exit_outline (shared Impl) (PolicyMutex.t Impl) takenS
           (taken_facade takenI) x (knows takenS x) mtx set_mtx);
    [ reflexivity | reflexivity | reflexivity | apply knows_owns | ].
  apply LockOutlines.Facade.facade_exit_outline; assumption.
Qed.

(** The increment reads the counter and writes the value read plus one. *)
Lemma increment_outline (d : Z) :
  outline (knows takenS x) (t_critical takenS x) (GHeld, d) increment
          (fun _ g => g = (GHeld, d + 1)).
Proof.
  unfold increment, atomically. cbn [bind outline].
  intros s _. exists (GRead (x s), d). split.
  { right. left. repeat split. }
  intros s' _. exists (GHeld, d + 1). split; [ | reflexivity ].
  right. right. exists (x s). split; [ reflexivity | ].
  split; [ reflexivity | ]. split; [ reflexivity | ].
  reflexivity.
Qed.

(** For every schedule: at most one thread is inside its critical section,
    and when all threads have finished the counter is [N * K]. *)
Lemma workers_mutual_exclusion (m : PolicyMutex.t Impl) (N K : nat) (schedule : list nat) :
  takenI (m_impl m) = false ->
  let c := run_threads I hooks univ_pfs_mutex psi_start_mutex_wait fuel n_spins n_delay
             name line schedule
             (system I hooks univ_pfs_mutex psi_start_mutex_wait fuel n_spins n_delay
                name line m N K) in
  (holders c <= 1)%nat /\
  (all_finished c = true -> x (shared_state c) = Z.of_nat N * Z.of_nat K).
Proof.
  intros Hfree.
  apply (PoolFacts.mutual_exclusion_and_count (shared Impl) takenS x K _ _ _
           workers_enter_outline increment_outline workers_exit_outline
           (mk_shared m 0) N schedule).
  - exact Hfree.
  - reflexivity.
Qed.

End WithImpl.

End WorkersFacts.

(* ================================================================== *)
(** * The outlines of the four implementations *)

Module ImplementationOutlines.
Import Exec Sync Outline Pool PolicyMutex Workers Implementations.

Section WithPolicy.
Variable P : Type.
Variable hooks : forall i, policy_hooks P (state P i).
Variable univ_debug innodb_calling_exit univ_pfs_mutex : bool.
Variable new_event : Z.
Variable psi_start_mutex_wait : Z -> psi_mutex_operation -> string -> Z -> Z.
Variable fuel : nat.
Variable n_spins n_delay : Z.
Variable name : string.
Variable line : Z.

Local Abbreviation impl' := (impl P hooks univ_debug innodb_calling_exit new_event)
  (only parsing).

Lemma implementation_set_policy (i : implementation) (p : P) (m : state P i) :
  taken i (impl_set_policy (impl' i) p m) = taken i m.
Proof. destruct i; reflexivity. Qed.

Lemma implementation_enter_outline (i : implementation) (d : Z) (fuel' : nat) (n_spins' n_delay' : Z)
    (name' : string) (line' : Z) :
  outline (owns (taken i)) (t_enter (taken i) (fun _ => 0)) (GOut, d)
          (impl_enter (impl' i) fuel' n_spins' n_delay' name' line')
          (fun _ g => g = (GHeld, d)).
Proof.
  destruct i.
  - apply LockOutlines.Native.native_enter_outline.
  - apply LockOutlines.Spin.spin_enter_outline.
  - apply LockOutlines.Futex.futex_enter_outline.
  - apply LockOutlines.Event.event_enter_outline.
Qed.

Lemma implementation_exit_outline (i : implementation) (d : Z) :
  outline (owns (taken i)) (t_exit (taken i) (fun _ => 0)) (GHeld, d)
          (impl_exit (impl' i)) (fun _ g => g = (GOut, d)).
Proof.
  destruct i.
  - apply LockOutlines.Native.native_exit_outline.
  - apply LockOutlines.Spin.spin_exit_outline.
  - apply LockOutlines.Futex.futex_exit_outline.
  - apply LockOutlines.Event.event_exit_outline.
Qed.

End WithPolicy.

End ImplementationOutlines.

(* ================================================================== *)
(** * my_rnd.cc: sequences of calls, the range of [my_rnd_ssl], seeds *)

Module DoubleMore.
Import CTypes DoubleFacts.

Local Abbreviation P52 := 4503599627370496 (only parsing).
Local Abbreviation P53 := 9007199254740992 (only parsing).
Local Abbreviation UMAX := 4294967295 (only parsing).
Local Abbreviation YU := 9007199252643840 (only parsing).

Lemma double_of_UINT_MAX : double_of_Z UINT_MAX = S754_finite false 9007199252643840 (-21).
Proof. vm_compute. reflexivity. Qed.

Lemma SFdiv_core_binary_UINT_MAX (mx : positive) (ex : Z) :
  P52 <= Zpos mx < P53 -> -52 <= ex <= 0 ->
  SFdiv_core_binary 53 1024 (Zpos mx) ex YU (-21) =
  (Zpos mx * P53 / YU, ex - 32, new_location YU (Zpos mx * P53 mod YU)).
Proof.
  intros Hm He. unfold SFdiv_core_binary.
  rewrite (Zdigits2_53 (Zpos mx)) by lia.
  replace (Zdigits2 YU) with 53 by reflexivity.
  unfold fexp, emin.
  replace (Z.min (Z.max (53 + ex - (53 + -21) - 53) (3 - 1024 - 53)) (ex - -21))
    with (ex - 32) by lia.
  replace (ex - -21 - (ex - 32)) with 53 by lia.
  rewrite Z.shiftl_mul_pow2 by lia. change (2 ^ 53) with P53.
  unfold Z.div, Z.modulo.
  destruct (Z.div_eucl (Zpos mx * P53) YU) as [q r]. reflexivity.
Qed.

(** The binary64 quotient of a 32-bit integer below UINT_MAX by UINT_MAX is
    at least zero and below one. *)
Lemma quotient_by_UINT_MAX (s : Z) :
  0 <= s < UINT_MAX ->
  double_leb double_zero (double_div (double_of_Z s) (double_of_Z UINT_MAX)) = true /\
  double_ltb (double_div (double_of_Z s) (double_of_Z UINT_MAX)) double_one = true.
Proof.
  intros Hs. change UINT_MAX with UMAX in Hs.
  destruct (Z.eq_dec s 0) as [-> | Hnz]; [ vm_compute; auto | ].
  destruct (double_of_Z_shape s) as (mx & ex & Hx & Hmx & Hex & Hval); [ lia | ].
  rewrite Hx, double_of_UINT_MAX.
  unfold double_div, SFdiv, dprec, demax. cbn [xorb].
  rewrite SFdiv_core_binary_UINT_MAX by lia.
  assert (Hex21 : ex <= -21).
  { destruct (Z_le_gt_dec ex (-21)) as [ | Hgt ]; [ assumption | ].
    assert (2 ^ (- ex) <= 2 ^ 20) by (apply Z.pow_le_mono_r; lia).
    assert (0 < 2 ^ (- ex)) by (apply Z.pow_pos_nonneg; lia).
    assert (s * 2 ^ (- ex) <= s * 2 ^ 20) by (apply Z.mul_le_mono_nonneg_l; lia).
    change (2 ^ 20) with 1048576 in *. lia. }
  set (q := Zpos mx * P53 / YU).
  assert (Hq : Zpos mx * P53 = YU * q + Zpos mx * P53 mod YU)
    by (apply Z.div_mod; lia).
  assert (Hr : 0 <= Zpos mx * P53 mod YU < YU) by (apply Z.mod_pos_bound; lia).
  destruct (binary_round_aux_exponent q (ex - 32)
              (new_location YU (Zpos mx * P53 mod YU)))
    as (m' & e' & Hres & He' & Hsame); [ lia | lia | ].
  rewrite Hres.
  assert (He53 : e' <= -53).
  { destruct (Z.eq_dec ex (-21)) as [E | E]; [ | lia ].
    rewrite E in Hval. change (2 ^ (- -21)) with 2097152 in Hval.
    rewrite Hsame; lia. }
  split; [ reflexivity | ].
  unfold double_one, dprec, demax.
  replace (SFone 53 1024) with (S754_finite false 4503599627370496 (-52))
    by (vm_compute; reflexivity).
  unfold double_ltb, SFltb, SFcompare.
  replace (e' ?= -52) with Lt by (symmetry; apply Z.compare_lt_iff; lia).
  reflexivity.
Qed.

Lemma quotient_of_UINT_MAX :
  double_div (double_of_Z UINT_MAX) (double_of_Z UINT_MAX) = double_one.
Proof. vm_compute. reflexivity. Qed.

End DoubleMore.

Module MyRndMore.
Import CTypes MyRnd.

Section ULong.
Variable ulong_bits : Z.
Hypothesis ulong_bits_ge_32 : 32 <= ulong_bits.

(** [my_rnd] on an initialised state, with the wrap-around gone: no
    intermediate value reaches [2^32]. *)
Lemma my_rnd_initialised (st : my_rnd_struct) :
  initialised st ->
  my_rnd ulong_bits st =
  Some (double_div (double_of_Z ((seed1 st * 3 + seed2 st) mod 0x3FFFFFFF))
                   (double_of_Z 0x3FFFFFFF),
        mk_rnd ((seed1 st * 3 + seed2 st) mod 0x3FFFFFFF)
               (((seed1 st * 3 + seed2 st) mod 0x3FFFFFFF + seed2 st + 33) mod 0x3FFFFFFF)
               0x3FFFFFFF (double_of_Z 0x3FFFFFFF)).
Proof.
  intros (Hmax & Hdbl & Hs1 & Hs2).
  unfold my_rnd. rewrite Hmax, Hdbl. cbn [Z.eqb].
  cbn [seed1 seed2 max_value max_value_dbl].
  rewrite (MyRndFacts.ulong_small ulong_bits ulong_bits_ge_32 (seed1 st * 3)) by lia.
  rewrite (MyRndFacts.ulong_small ulong_bits ulong_bits_ge_32 (seed1 st * 3 + seed2 st))
    by lia.
  set (n1 := (seed1 st * 3 + seed2 st) mod 1073741823).
  assert (Hn1 : 0 <= n1 < 1073741823) by (apply Z.mod_pos_bound; lia).
  rewrite (MyRndFacts.ulong_small ulong_bits ulong_bits_ge_32 (n1 + seed2 st)) by lia.
  rewrite (MyRndFacts.ulong_small ulong_bits ulong_bits_ge_32 (n1 + seed2 st + 33)) by lia.
  reflexivity.
Qed.

Lemma my_rnd_step (st : my_rnd_struct) :
  initialised st ->
  exists v st',
    my_rnd ulong_bits st = Some (v, st') /\ initialised st' /\
    double_leb double_zero v = true /\ double_ltb v double_one = true.
Proof.
  intros Hst. rewrite (my_rnd_initialised st Hst).
  set (n1 := (seed1 st * 3 + seed2 st) mod 1073741823).
  assert (Hn1 : 0 <= n1 < 1073741823) by (apply Z.mod_pos_bound; lia).
  destruct (DoubleFacts.quotient_in_unit_interval n1 Hn1) as [Hge Hlt].
  eexists. eexists. split; [ reflexivity | ].
  split; [ | split; assumption ].
  unfold initialised. cbn [seed1 seed2 max_value max_value_dbl].
  repeat split; try apply Z.mod_pos_bound; lia.
Qed.

(** The value of a call whose library call succeeded, for the [unsigned
    int] that the library left in [res]. *)
Lemma ssl_value_range (r : rand_bytes_result) :
  0 <= res r <= UINT_MAX ->
  let v := double_div (double_of_Z (res r)) (double_of_Z UINT_MAX) in
  double_leb double_zero v = true /\ double_leb v double_one = true /\
  (res r < UINT_MAX -> double_ltb v double_one = true) /\
  (res r = UINT_MAX -> v = double_one /\ double_ltb v double_one = false).
Proof.
  intros Hres v. subst v.
  destruct (Z.eq_dec (res r) UINT_MAX) as [E | E].
  - rewrite E, DoubleMore.quotient_of_UINT_MAX.
    split; [ reflexivity | ]. split; [ reflexivity | ].
    split; [ intros H; lia | intros _; split; reflexivity ].
  - destruct (DoubleMore.quotient_by_UINT_MAX (res r)) as [Hge Hlt]; [ lia | ].
    split; [ exact Hge | ]. split; [ | split; [ intros _; exact Hlt | intros H; lia ] ].
    unfold double_leb, SFleb. unfold double_ltb, SFltb in Hlt.
    destruct (SFcompare _ _) as [ [ | | ] | ]; try discriminate Hlt; reflexivity.
Qed.

Lemma do_call_step (c : call) (rand_st : my_rnd_struct) :
  initialised rand_st ->
  exists v st1,
    do_call ulong_bits c rand_st = Some (v, st1) /\ initialised st1 /\
    (ssl_succeeded c = false ->
     double_leb double_zero v = true /\ double_ltb v double_one = true).
Proof.
  intros Hst.
  destruct (my_rnd_step rand_st Hst) as (v & st1 & Hrun & Hst1 & Hv).
  destruct c as [ | [ r | ] ]; cbn [do_call my_rnd_ssl ssl_succeeded].
  - exists v, st1. auto.
  - destruct (rc r =? 0); cbn [negb].
    + exists v, st1. auto.
    + eexists. exists rand_st. split; [ reflexivity | ].
      split; [ exact Hst | discriminate ].
  - exists v, st1. auto.
Qed.


(** A successful [my_rnd_ssl] returns a value that is at least 0 and at most
    1; it is below 1 unless the library returned UINT_MAX, and then it is
    exactly 1, which [my_rnd] never returns. *)
Theorem my_rnd_ssl_range (r : rand_bytes_result) (rand_st : my_rnd_struct) :
  rc r <> 0 -> 0 <= res r <= UINT_MAX ->
  exists v,
    my_rnd_ssl ulong_bits (Some r) rand_st = Some (v, rand_st) /\
    double_leb double_zero v = true /\ double_leb v double_one = true /\
    (res r < UINT_MAX -> double_ltb v double_one = true) /\
    (res r = UINT_MAX -> v = double_one /\ double_ltb v double_one = false).
Proof.
  intros Hrc Hres. unfold my_rnd_ssl.
  replace (rc r =? 0) with false by (symmetry; apply Z.eqb_neq; exact Hrc).
  cbn [negb]. eexists. split; [ reflexivity | ].
  apply (ssl_value_range r Hres).
Qed.

End ULong.

(** A state as [my_rnd_init] leaves it gives the same values and the same
    states whatever the width of [unsigned long], from 32 bits on. *)
Theorem calls_do_not_depend_on_ulong (b1 b2 : Z) (cs : list call) (rand_st : my_rnd_struct) :
  32 <= b1 -> 32 <= b2 -> initialised rand_st ->
  do_calls b1 cs rand_st = do_calls b2 cs rand_st.
Proof.
  intros H1 H2. revert rand_st.
  assert (Hcall : forall c st, initialised st -> do_call b1 c st = do_call b2 c st).
  { intros c st Hst.
    destruct c as [ | [ r | ] ]; cbn [do_call my_rnd_ssl];
      try destruct (negb _); try reflexivity;
      rewrite (my_rnd_initialised b1 H1 st Hst), (my_rnd_initialised b2 H2 st Hst);
      reflexivity. }
  induction cs as [ | c cs IH ]; intros st Hst; [ reflexivity | ].
  cbn [do_calls]. rewrite (Hcall c st Hst).
  destruct (do_call_step b2 H2 c st Hst) as (v & st1 & Hrun & Hst1 & _).
  rewrite Hrun, (IH st1 Hst1). reflexivity.
Qed.

(** [my_rnd_init] overwrites every field, so what the structure held before
    does not matter, and leaves an initialised state.  It keeps the seeds
    modulo 0x3FFFFFFF only: two seeds that differ by 0x3FFFFFFF start the
    same sequence. *)
Theorem my_rnd_init_seeds (ulong_bits : Z) (st st' : my_rnd_struct) (s1 s2 : Z) :
  0 <= s1 -> 0 <= s2 ->
  s1 + 0x3FFFFFFF < 2 ^ ulong_bits -> s2 + 0x3FFFFFFF < 2 ^ ulong_bits ->
  initialised (my_rnd_init ulong_bits st s1 s2) /\
  my_rnd_init ulong_bits st' s1 s2 = my_rnd_init ulong_bits st s1 s2 /\
  my_rnd_init ulong_bits st (s1 + 0x3FFFFFFF) s2 = my_rnd_init ulong_bits st s1 s2 /\
  my_rnd_init ulong_bits st s1 (s2 + 0x3FFFFFFF) = my_rnd_init ulong_bits st s1 s2 /\
  seed1 (my_rnd_init ulong_bits st s1 s2) = s1 mod 0x3FFFFFFF /\
  seed2 (my_rnd_init ulong_bits st s1 s2) = s2 mod 0x3FFFFFFF.
Proof.
  intros H1 H2 B1 B2.
  assert (U : forall z, 0 <= z -> z + 1073741823 < 2 ^ ulong_bits ->
              ulong ulong_bits z = z /\ ulong ulong_bits (z + 1073741823) = z + 1073741823).
  { intros z Hz Hb. unfold ulong. split; apply Z.mod_small; lia. }
  destruct (U s1 H1 B1) as [U1 U1'], (U s2 H2 B2) as [U2 U2'].
  assert (M : forall z, (z + 1073741823) mod 1073741823 = z mod 1073741823).
  { intros z. replace (z + 1073741823) with (z + 1 * 1073741823) by lia.
    apply Z.mod_add. lia. }
  unfold my_rnd_init, initialised. cbn [seed1 seed2 max_value max_value_dbl].
  rewrite U1, U2, U1', U2', !M.
  repeat split; try apply Z.mod_pos_bound; lia.
Qed.


Lemma my_rnd_ssl_range_witness :
  exists v,
    my_rnd_ssl 64 (Some (mk_rand_bytes 1 UINT_MAX)) (mk_rnd 1 2 0x3FFFFFFF double_zero) =
    Some (v, mk_rnd 1 2 0x3FFFFFFF double_zero) /\
    v = double_one.
Proof.
  destruct (my_rnd_ssl_range 64 (mk_rand_bytes 1 UINT_MAX)
              (mk_rnd 1 2 0x3FFFFFFF double_zero)
              ltac:(vm_compute; discriminate)
              ltac:(vm_compute; split; discriminate))
    as (v & Hrun & _ & _ & _ & Hone).
  exists v. split; [ exact Hrun | ]. apply Hone. reflexivity.
Defined.

Lemma calls_do_not_depend_on_ulong_witness :
  do_calls 32 [CallRnd; CallRnd] (my_rnd_init 32 (mk_rnd 0 0 0 double_zero) 4000000000 7) =
  do_calls 64 [CallRnd; CallRnd] (my_rnd_init 32 (mk_rnd 0 0 0 double_zero) 4000000000 7).
Proof.
  apply (calls_do_not_depend_on_ulong 32 64); try lia.
  vm_compute; repeat split; try reflexivity; discriminate.
Defined.

Lemma my_rnd_init_seeds_witness :
  my_rnd_init 32 (mk_rnd 9 9 9 double_one) 5 7 =
  my_rnd_init 32 (mk_rnd 0 0 0 double_zero) 5 7 /\
  my_rnd_init 32 (mk_rnd 0 0 0 double_zero) (5 + 0x3FFFFFFF) 7 =
  my_rnd_init 32 (mk_rnd 0 0 0 double_zero) 5 7.
Proof.
  destruct (my_rnd_init_seeds 32 (mk_rnd 0 0 0 double_zero) (mk_rnd 9 9 9 double_one) 5 7
              ltac:(lia) ltac:(lia) ltac:(vm_compute; reflexivity)
              ltac:(vm_compute; reflexivity))
    as (_ & Hsame & Hshift & _).
  split; assumption.
Defined.

End MyRndMore.

(* ================================================================== *)
(** * One thread alone: what the outlines give for a sequential run *)

Module SequentialFacts.
Import Exec ExecFacts Outline Trace.

Lemma interfere_alone {S : Type} (w : world S) : w_env w = [] -> interfere w = w.
Proof. intros H. unfold interfere. rewrite H. reflexivity. Qed.

Lemma run_act_alone {S A X : Type} (shared : bool) (f : S -> X * S)
    (ev : S -> X -> list event) (k : X -> prog S A) (w : world S) :
  w_env w = [] ->
  run (Act X shared f ev k) w =
  run (k (fst (f (w_state w))))
      (mk_world (snd (f (w_state w))) [] (w_trace w ++ ev (w_state w) (fst (f (w_state w))))).
Proof.
  intros Henv. cbn [run].
  replace (if shared then interfere w else w) with w
    by (destruct shared; [ rewrite interfere_alone by exact Henv | ]; reflexivity).
  destruct (f (w_state w)) as [x s']. cbn [fst snd]. rewrite Henv, log_app. reflexivity.
Qed.

(** A run that starts alone ends alone. *)
Lemma run_alone {S A : Type} (c : prog S A) (w : world S) :
  w_env w = [] -> w_env (final_world (run c w)) = [].
Proof.
  revert w. induction c as [ a | X shared f ev k IH | | ]; intros w Henv;
    try exact Henv.
  rewrite run_act_alone by exact Henv. apply IH. reflexivity.
Qed.

(** The code of a member object, run alone: it runs on the member as it
    would by itself, and the owner gets the member back. *)
Lemma run_zoom_alone {S T A : Type} (proj : S -> T) (upd : T -> S -> S)
    (c : prog T A) (w : world S) :
  (forall t s, proj (upd t s) = t) ->
  (forall t t' s, upd t' (upd t s) = upd t' s) ->
  (forall s, upd (proj s) s = s) ->
  w_env w = [] ->
  run (zoom proj upd c) w =
  zoom_outcome upd (w_state w) (run c (mk_world (proj (w_state w)) [] (w_trace w))).
Proof.
  intros Hget Hput Hid. revert w.
  induction c as [ a | X shared f ev k IH | | ]; intros w Henv; cbn [zoom].
  - cbn [run zoom_outcome w_state w_trace]. rewrite Hid.
    destruct w as [s env tr]. cbn [w_env] in Henv. subst env. reflexivity.
  - rewrite !run_act_alone by (exact Henv || reflexivity).
    cbn [w_state w_trace].
    destruct (f (proj (w_state w))) as [x t'] eqn:Hf. cbn [fst snd].
    rewrite IH by reflexivity. cbn [w_state w_trace].
    rewrite Hget.
    destruct (run (k x) _) as [ a wt | wt | wt ]; cbn [zoom_outcome]; rewrite Hput;
      reflexivity.
  - cbn [run zoom_outcome w_state w_trace]. rewrite Hid.
    destruct w as [s env tr]. cbn [w_env] in Henv. subst env. reflexivity.
  - cbn [run zoom_outcome w_state w_trace]. rewrite Hid.
    destruct w as [s env tr]. cbn [w_env] in Henv. subst env. reflexivity.
Qed.

Section WithLock.
Variable S : Type.
Variable taken : S -> bool.

(** Code with the outline of [enter] that returns, alone, found the mutex
    free and leaves it taken. *)
Lemma enter_run_sound {A : Type} (c : prog S A) (d : Z) (g : ghost) (b0 : bool)
    (w w' : world S) (a : A) :
  outline (owns taken) (t_enter taken (fun _ => 0)) g c (fun _ g' => g' = (GHeld, d)) ->
  w_env w = [] ->
  (fst g = GOut /\ taken (w_state w) = b0) \/
  (fst g = GHeld /\ taken (w_state w) = true /\ b0 = false) ->
  run c w = Returned a w' ->
  b0 = false /\ taken (w_state w') = true.
Proof.
  revert g w. induction c as [ a0 | X shared f ev k IH | | ]; intros g w Hout Henv Hinv Hrun;
    try discriminate Hrun.
  - cbn in Hout, Hrun. injection Hrun as _ <-. subst g.
    destruct Hinv as [ [Hg _] | (_ & Htk & Hb) ]; [ discriminate Hg | auto ].
  - rewrite run_act_alone in Hrun by exact Henv.
    cbn [outline] in Hout.
    destruct (Hout (w_state w)) as (g' & Htrans & Hrest).
    { intros Hg. destruct Hinv as [ [Hg' _] | (_ & Htk & _) ];
        [ contradiction | exact Htk ]. }
    refine (IH _ g' _ Hrest _ _ Hrun); [ reflexivity | ]. cbn [w_state].
    destruct Htrans as [ (-> & Htk & _) | (Hg & -> & Hfree & Htk & _) ].
    + destruct Hinv as [ [Hg Hb] | (Hg & Hb & Hb0) ].
      * left. split; [ exact Hg | congruence ].
      * right. split; [ exact Hg | split; [ congruence | exact Hb0 ] ].
    + right. split; [ reflexivity | split; [ exact Htk | ] ].
      destruct Hinv as [ [_ Hb] | (Hg' & _) ]; congruence.
Qed.

(** Code with the outline of [exit] that returns, alone, leaves the mutex
    free. *)
Lemma exit_run_sound {A : Type} (c : prog S A) (d : Z) (g : ghost)
    (w w' : world S) (a : A) :
  outline (owns taken) (t_exit taken (fun _ => 0)) g c (fun _ g' => g' = (GOut, d)) ->
  w_env w = [] ->
  (fst g = GHeld /\ taken (w_state w) = true) \/
  (fst g = GOut /\ taken (w_state w) = false) ->
  run c w = Returned a w' ->
  taken (w_state w') = false.
Proof.
  revert g w. induction c as [ a0 | X shared f ev k IH | | ]; intros g w Hout Henv Hinv Hrun;
    try discriminate Hrun.
  - cbn in Hout, Hrun. injection Hrun as _ <-. subst g.
    destruct Hinv as [ [Hg _] | (_ & Htk) ]; [ discriminate Hg | exact Htk ].
  - rewrite run_act_alone in Hrun by exact Henv.
    cbn [outline] in Hout.
    destruct (Hout (w_state w)) as (g' & Htrans & Hrest).
    { intros Hg. destruct Hinv as [ [_ Htk] | (Hg' & _) ];
        [ exact Htk | contradiction ]. }
    refine (IH _ g' _ Hrest _ _ Hrun); [ reflexivity | ]. cbn [w_state].
    destruct Htrans as [ (-> & Htk & _) | (Hg & -> & Htk & _) ].
    + destruct Hinv as [ [Hg Hb] | (Hg & Hb) ].
      * left. split; [ exact Hg | congruence ].
      * right. split; [ exact Hg | congruence ].
    + right. split; [ reflexivity | exact Htk ].
Qed.

End WithLock.

Lemma count_app (p : event -> bool) (t1 t2 : list event) :
  count p (t1 ++ t2) = (count p t1 + count p t2)%nat.
Proof. unfold count. rewrite filter_app, length_app. reflexivity. Qed.

Lemma count_none (p ok : event -> bool) (evs : list event) :
  (forall e, ok e = true -> p e = false) ->
  forallb ok evs = true -> count p evs = 0%nat.
Proof.
  intros Hp. induction evs as [ | e evs IH ]; [ reflexivity | ].
  cbn [forallb]. intros H. apply andb_true_iff in H as [He Hevs].
  unfold count. cbn [filter]. rewrite (Hp e He). apply IH. exact Hevs.
Qed.

(** Code that makes no call that [p] selects leaves the count of [p]. *)
Lemma emits_count {S A : Type} (p ok : event -> bool) (c : prog S A) (w : world S) :
  (forall e, ok e = true -> p e = false) ->
  emits ok c ->
  count p (w_trace (final_world (run c w))) = count p (w_trace w).
Proof.
  intros Hp. revert w. induction c as [ a | X shared f ev k IH | | ]; intros w Hc;
    try reflexivity.
  destruct Hc as [Hev Hk]. cbn [run].
  set (w1 := if shared then interfere w else w).
  assert (Htr : w_trace w1 = w_trace w)
    by (subst w1; destruct shared; [ apply interfere_trace | reflexivity ]).
  destruct (f (w_state w1)) as [x s'].
  rewrite (IH x _ (Hk x)). cbn [w_trace].
  rewrite log_app, count_app, Htr, (count_none p ok _ Hp (Hev _ _)). apply Nat.add_0_r.
Qed.

Lemma emits_bind {S A B : Type} (ok : event -> bool) (c : prog S A) (k : A -> prog S B) :
  emits ok c -> (forall a, emits ok (k a)) -> emits ok (bind c k).
Proof.
  intros Hc Hk. induction c as [ a | X shared f ev k' IH | | ]; cbn [bind emits].
  - apply Hk.
  - destruct Hc as [Hev Hk']. split; [ exact Hev | intros x; apply IH; apply Hk' ].
  - exact Logic.I.
  - exact Logic.I.
Qed.

Lemma emits_zoom {S T A : Type} (ok : event -> bool) (proj : S -> T) (upd : T -> S -> S)
    (c : prog T A) :
  emits ok c -> emits ok (zoom proj upd c).
Proof.
  induction c as [ a | X shared f ev k IH | | ]; cbn [zoom emits]; try (intros; exact Logic.I).
  intros [Hev Hk]. split; [ intros s x; apply Hev | intros x; apply IH; apply Hk ].
Qed.

Lemma no_stop_bind {S A B : Type} (c : prog S A) (k : A -> prog S B) :
  no_stop c -> (forall a, no_stop (k a)) -> no_stop (bind c k).
Proof.
  intros Hc Hk. induction c as [ a | X shared f ev k' IH | | ]; cbn [bind no_stop].
  - apply Hk.
  - intros x. apply IH. apply Hc.
  - exact Hc.
  - exact Logic.I.
Qed.

Lemma no_stop_zoom {S T A : Type} (proj : S -> T) (upd : T -> S -> S) (c : prog T A) :
  no_stop c -> no_stop (zoom proj upd c).
Proof.
  induction c as [ a | X shared f ev k IH | | ]; cbn [zoom no_stop]; try (intros H; exact H).
  intros Hk x. apply IH. apply Hk.
Qed.

(** Code with no assertion left never stops the process. *)
Lemma no_stop_run {S A : Type} (c : prog S A) (w w' : world S) :
  no_stop c -> run c w <> Aborted w'.
Proof.
  revert w. induction c as [ a | X shared f ev k IH | | ]; intros w Hc; cbn [run];
    try discriminate.
  - destruct (f _) as [x s']. apply IH. apply Hc.
  - contradiction Hc.
Qed.

End SequentialFacts.

(* ================================================================== *)
(** * The facade over the four implementations, one thread alone *)

Module FacadeSequential.
Import Exec ExecFacts Sync Outline PolicyMutex Implementations Trace SequentialFacts.

Section WithPolicy.
Variable P : Type.
Variable hooks : forall i, policy_hooks P (state P i).
Variable univ_debug innodb_calling_exit univ_pfs_mutex : bool.
Variable new_event : Z.
Variable psi_start_mutex_wait : Z -> psi_mutex_operation -> string -> Z -> Z.

Local Abbreviation impl' := (impl P hooks univ_debug innodb_calling_exit new_event)
  (only parsing).

(** [PolicyMutex::enter] is not recursive and returns holding: with any of
    the four implementations, a call of [enter] by a thread that runs alone
    returns only when the mutex was free, and the mutex is taken when it has
    returned.  So on a mutex that is taken [enter] never returns, however
    long it spins or waits. *)
Theorem enter_returns_holding (i : implementation) (fuel : nat) (n_spins n_delay : Z)
    (name : string) (line : Z) (w w' : world (PolicyMutex.t (state P i))) :
  w_env w = [] ->
  run (enter (impl' i) (hooks i) univ_pfs_mutex psi_start_mutex_wait fuel n_spins n_delay
         name line) w = Returned tt w' ->
  taken i (m_impl (w_state w)) = false /\ taken i (m_impl (w_state w')) = true.
Proof.
  intros Henv Hrun.
  refine (enter_run_sound (PolicyMutex.t (state P i)) (Workers.taken_facade (taken i))
            _ 0 (GOut, 0) (taken i (m_impl (w_state w))) w w' tt _ Henv _ Hrun);
    [ | left; split; reflexivity ].
  apply LockOutlines.Facade.facade_enter_outline.
  - apply ImplementationOutlines.implementation_set_policy.
  - apply ImplementationOutlines.implementation_enter_outline.
Qed.

(** [PolicyMutex::exit] releases: with any of the four implementations, when
    the thread that holds the mutex runs alone and its call of [exit]
    returns, the mutex is free. *)
Theorem exit_returns_free (i : implementation) (w w' : world (PolicyMutex.t (state P i))) :
  w_env w = [] ->
  taken i (m_impl (w_state w)) = true ->
  run (exit (impl' i) (hooks i) univ_pfs_mutex) w = Returned tt w' ->
  taken i (m_impl (w_state w')) = false.
Proof.
  intros Henv Htk Hrun.
  refine (exit_run_sound (PolicyMutex.t (state P i)) (Workers.taken_facade (taken i))
            _ 0 (GHeld, 0) w w' tt _ Henv _ Hrun);
    [ | left; split; [ reflexivity | exact Htk ] ].
  apply LockOutlines.Facade.facade_exit_outline.
  - apply ImplementationOutlines.implementation_set_policy.
  - apply ImplementationOutlines.implementation_exit_outline.
Qed.

(** [try_lock] of each implementation, alone: it returns whether the mutex
    was free, and the mutex is taken afterwards. *)
Lemma try_lock_alone (i : implementation) (s : state P i) (tr : list event) :
  match run (impl_try_lock (impl' i)) (mk_world s [] tr) with
  | Returned b wt => b = negb (taken i s) /\ taken i (w_state wt) = true
  | Aborted _ => True
  | Pending _ => True
  end.
Proof.
  destruct i; cbn [impl impl_try_lock OSTrackMutex_impl TTASMutex_impl TTASFutexMutex_impl
                   TTASEventMutex_impl taken].
  - unfold OSTrackMutex.try_lock, OSTrackMutex.taken.
    destruct s as [fr lk dae [osl] p].
    destruct univ_debug, innodb_calling_exit, fr, lk, osl; cbn; auto.
  - unfold TTASMutex.try_lock, my_atomic_cas32_strong_explicit, TTASMutex.taken.
    rewrite run_atomically. cbn.
    destruct (TTASMutex.m_lock_word s =? MUTEX_STATE_UNLOCKED) eqn:E; cbn; [ auto | ].
    rewrite E. auto.
  - unfold TTASFutexMutex.try_lock, my_atomic_cas32_strong_explicit, TTASFutexMutex.taken.
    rewrite run_atomically. cbn.
    destruct (TTASFutexMutex.m_lock_word s =? MUTEX_STATE_UNLOCKED) eqn:E; cbn; [ auto | ].
    rewrite E. auto.
  - unfold TTASEventMutex.try_lock, TTASEventMutex.tas_lock, my_atomic_faslong,
      TTASEventMutex.taken.
    rewrite (bind_returned _ _ _ _ _ (run_atomically _ _ _)). cbn.
    destruct (TTASEventMutex.m_lock_word s =? MUTEX_STATE_UNLOCKED) eqn:E; cbn; auto.
Qed.

Lemma set_impl_same {Impl : Type} (m : PolicyMutex.t Impl) : set_impl (m_impl m) m = m.
Proof. destruct m. reflexivity. Qed.

(** [PolicyMutex::trylock] by a thread that runs alone, with any of the four
    implementations: it returns 0 exactly when the mutex was free and 1
    exactly when it was taken, and in both cases the mutex is taken when it
    has returned. *)
Theorem trylock_takes_iff_free (i : implementation) (name : string) (line : Z)
    (w w' : world (PolicyMutex.t (state P i))) (r : Z) :
  w_env w = [] ->
  run (trylock (impl' i) (hooks i) univ_pfs_mutex psi_start_mutex_wait name line) w =
    Returned r w' ->
  r = (if taken i (m_impl (w_state w)) then 1 else 0) /\
  taken i (m_impl (w_state w')) = true.
Proof.
  intros Henv Hrun.
  pose proof (PolicyMutexFacts.trylock_run P (state P i) (impl' i) (hooks i) univ_pfs_mutex
                psi_start_mutex_wait name line w) as Hout.
  cbv zeta in Hout.
  rewrite run_zoom_alone in Hout
    by (try reflexivity; try exact Henv; intros s; apply set_impl_same).
  cbn [w_state w_trace] in Hout.
  pose proof (try_lock_alone i (m_impl (w_state w))
                (w_trace w ++ trylock_begin_events univ_pfs_mutex psi_start_mutex_wait
                                (w_state w) name line)) as Htry.
  destruct (run (impl_try_lock (impl' i)) _) as [ b wt | wt | wt ];
    cbn [zoom_outcome] in Hout.
  - destruct Htry as [-> Htk].
    destruct (taken i (m_impl (w_state w))); cbn [negb] in Hout;
      rewrite Hout in Hrun; injection Hrun as <- <-; cbn [w_state m_impl set_impl].
    + split; [ reflexivity | exact Htk ].
    + split; [ reflexivity | ].
      rewrite !ImplementationOutlines.implementation_set_policy. exact Htk.
  - rewrite Hout in Hrun. discriminate Hrun.
  - rewrite Hout in Hrun. discriminate Hrun.
Qed.

End WithPolicy.

Local Abbreviation impl0 := (impl unit Scenarios.no_policies true false 7) (only parsing).

(** [enter] on the free TTASEventMutex. *)
Lemma enter_returns_holding_witness :
  w_env (MoreScenarios.free_alone G) = [] /\
  exists w',
    run (enter (impl0 G) (Scenarios.no_policies G) true Scenarios.no_psi 5 2 1
           "sync0sync.cc" 1) (MoreScenarios.free_alone G) = Returned tt w' /\
    taken G (m_impl (w_state w')) = true.
Proof.
  split; [ reflexivity | ].
  assert (Hrun : run (enter (impl0 G) (Scenarios.no_policies G) true Scenarios.no_psi 5 2 1
                        "sync0sync.cc" 1) (MoreScenarios.free_alone G) =
                 Returned tt
                   (final_world
                      (run (enter (impl0 G) (Scenarios.no_policies G) true Scenarios.no_psi
                              5 2 1 "sync0sync.cc" 1) (MoreScenarios.free_alone G))))
    by (vm_compute; reflexivity).
  eexists. split; [ exact Hrun | ].
  exact (proj2 (enter_returns_holding unit Scenarios.no_policies true false true 7
                  Scenarios.no_psi G 5 2 1 "sync0sync.cc" 1
                  (MoreScenarios.free_alone G) _ eq_refl Hrun)).
Defined.

(** [exit] on the TTASMutex that a [trylock] took. *)
Lemma exit_returns_free_witness :
  w_env (MoreScenarios.taken_alone E) = [] /\
  taken E (m_impl (w_state (MoreScenarios.taken_alone E))) = true /\
  exists w',
    run (exit (impl0 E) (Scenarios.no_policies E) true) (MoreScenarios.taken_alone E) =
    Returned tt w' /\
    taken E (m_impl (w_state w')) = false.
Proof.
  split; [ reflexivity | ]. split; [ reflexivity | ].
  assert (Hrun : run (exit (impl0 E) (Scenarios.no_policies E) true)
                     (MoreScenarios.taken_alone E) =
                 Returned tt
                   (final_world (run (exit (impl0 E) (Scenarios.no_policies E) true)
                                     (MoreScenarios.taken_alone E))))
    by (vm_compute; reflexivity).
  eexists. split; [ exact Hrun | ].
  exact (exit_returns_free unit Scenarios.no_policies true false true 7 E
           (MoreScenarios.taken_alone E) _ eq_refl eq_refl Hrun).
Defined.

(** [trylock] on the TTASFutexMutex that a [trylock] took: 1. *)
Lemma trylock_takes_iff_free_witness :
  w_env (MoreScenarios.taken_alone F) = [] /\
  exists w',
    run (trylock (impl0 F) (Scenarios.no_policies F) true Scenarios.no_psi "sync0sync.cc" 2)
        (MoreScenarios.taken_alone F) = Returned 1 w' /\
    taken F (m_impl (w_state w')) = true.
Proof.
  split; [ reflexivity | ].
  assert (Hrun : run (trylock (impl0 F) (Scenarios.no_policies F) true Scenarios.no_psi
                        "sync0sync.cc" 2) (MoreScenarios.taken_alone F) =
                 Returned 1
                   (final_world
                      (run (trylock (impl0 F) (Scenarios.no_policies F) true Scenarios.no_psi
                              "sync0sync.cc" 2) (MoreScenarios.taken_alone F))))
    by (vm_compute; reflexivity).
  eexists. split; [ exact Hrun | ].
  exact (proj2 (trylock_takes_iff_free unit Scenarios.no_policies true false true 7
                  Scenarios.no_psi F "sync0sync.cc" 2
                  (MoreScenarios.taken_alone F) _ 1 eq_refl Hrun)).
Defined.

End FacadeSequential.

(* ================================================================== *)
(** * The order of the calls of PolicyMutex::enter and ::exit *)

Module PolicyMutexOrder.
Import Exec ExecFacts Sync PolicyMutex PolicyMutexCalls.

Section WithImpl.
Variable P : Type.
Variable Impl : Type.
Variable I : mutex_impl P Impl.
Variable hooks : policy_hooks P Impl.
Variable univ_pfs_mutex : bool.
Variable psi_start_mutex_wait : Z -> psi_mutex_operation -> string -> Z -> Z.

Local Abbreviation begin_events :=
  (lock_begin_events univ_pfs_mutex psi_start_mutex_wait) (only parsing).
Local Abbreviation end_events :=
  (lock_end_events univ_pfs_mutex psi_start_mutex_wait) (only parsing).

Lemma pfs_begin_lock_outcome (name : string) (line : Z) (w : world (t Impl)) :
  run (ifdef_pfs univ_pfs_mutex (pfs_begin_lock psi_start_mutex_wait name line) 0) w =
  Returned (lock_locker univ_pfs_mutex psi_start_mutex_wait (w_state w) name line)
    (mk_world (w_state w) (w_env w) (w_trace w ++ begin_events (w_state w) name line)).
Proof.
  unfold ifdef_pfs, lock_begin_events, lock_locker.
  destruct w as [m env tr].
  destruct univ_pfs_mutex; cbn [andb w_state w_env w_trace];
    [ | rewrite app_nil_r; reflexivity ].
  unfold pfs_begin_lock. rewrite (bind_returned _ _ _ _ _ (run_get _)).
  cbn [w_state w_env w_trace].
  destruct (negb (m_ptr m =? 0)); [ reflexivity | rewrite app_nil_r; reflexivity ].
Qed.

Lemma pfs_end_lock_outcome (m : t Impl) (name : string) (line : Z) (w : world (t Impl)) :
  run (ifdef_pfs univ_pfs_mutex
         (pfs_end (lock_locker univ_pfs_mutex psi_start_mutex_wait m name line) 0) tt) w =
  Returned tt (mk_world (w_state w) (w_env w) (w_trace w ++ end_events m name line)).
Proof.
  unfold ifdef_pfs, pfs_end, lock_end_events.
  destruct w as [m' env tr].
  destruct univ_pfs_mutex; cbn [andb w_state w_env w_trace];
    [ | rewrite app_nil_r; reflexivity ].
  destruct (negb (_ =? 0)); [ reflexivity | rewrite app_nil_r; reflexivity ].
Qed.

Lemma pfs_exit_outcome (w : world (t Impl)) :
  run (ifdef_pfs univ_pfs_mutex pfs_exit tt) w =
  Returned tt
    (mk_world (w_state w) (w_env w) (w_trace w ++ unlock_events univ_pfs_mutex (w_state w))).
Proof.
  unfold ifdef_pfs, unlock_events.
  destruct w as [m env tr].
  destruct univ_pfs_mutex; cbn [andb w_state w_env w_trace];
    [ | rewrite app_nil_r; reflexivity ].
  unfold pfs_exit. rewrite (bind_returned _ _ _ _ _ (run_get _)).
  cbn [w_state w_env w_trace].
  destruct (negb (m_ptr m =? 0)); [ reflexivity | rewrite app_nil_r; reflexivity ].
Qed.

(** [enter] calls [policy().enter] before [enter] of the implementation, on
    the implementation as it is before the acquisition, and [policy().locked]
    after it has returned, on the implementation as it is then; a call that
    stops or is still waiting inside the implementation has made the first
    call and not the second.  [exit] calls [policy().release] before [exit]
    of the implementation, on the implementation that is still held, and
    ends as [exit] of the implementation does.  [w1] is the world in which
    the implementation is entered or left. *)
Theorem enter_exit_call_order (fuel : nat) (n_spins n_delay : Z) (name : string) (line : Z)
    (w : world (t Impl)) :
  let m := w_state w in
  (let i1 := impl_set_policy I (pol_enter hooks (m_impl m) name line (policy I m))
                             (m_impl m) in
   let w1 := mk_world (set_impl i1 m) (w_env w)
               (w_trace w ++ begin_events m name line ++ [EvPolicyEnter name line]) in
   match run (zoom m_impl set_impl (impl_enter I fuel n_spins n_delay name line)) w1 with
   | Returned _ w2 =>
       let i2 := m_impl (w_state w2) in
       let i3 := impl_set_policy I (pol_locked hooks i2 name line (impl_policy I i2)) i2 in
       run (enter I hooks univ_pfs_mutex psi_start_mutex_wait fuel n_spins n_delay name line)
           w =
       Returned tt
         (mk_world (set_impl i3 (w_state w2)) (w_env w2)
            (w_trace w2 ++ [EvPolicyLocked name line] ++ end_events m name line))
   | Aborted w2 =>
       run (enter I hooks univ_pfs_mutex psi_start_mutex_wait fuel n_spins n_delay name line)
           w = Aborted w2
   | Pending w2 =>
       run (enter I hooks univ_pfs_mutex psi_start_mutex_wait fuel n_spins n_delay name line)
           w = Pending w2
   end) /\
  (let i1 := impl_set_policy I (pol_release hooks (m_impl m) (policy I m)) (m_impl m) in
   let w1 := mk_world (set_impl i1 m) (w_env w)
               (w_trace w ++ unlock_events univ_pfs_mutex m ++ [EvPolicyRelease]) in
   run (exit I hooks univ_pfs_mutex) w = run (zoom m_impl set_impl (impl_exit I)) w1).
Proof.
  cbv zeta. split.
  - unfold enter.
    rewrite (bind_returned _ _ _ _ _ (pfs_begin_lock_outcome name line w)).
    rewrite run_bind, PolicyMutexFacts.run_call_policy.
    cbn [w_state w_env w_trace]. rewrite <- app_assoc.
    rewrite run_bind.
    destruct (run (zoom m_impl set_impl (impl_enter I fuel n_spins n_delay name line)) _)
      as [ [] w2 | w2 | w2 ]; try reflexivity.
    rewrite run_bind, PolicyMutexFacts.run_call_policy.
    cbn [w_state w_env w_trace].
    rewrite pfs_end_lock_outcome. cbn [w_state w_env w_trace].
    unfold policy. rewrite <- app_assoc. reflexivity.
  - unfold exit.
    rewrite (bind_returned _ _ _ _ _ (pfs_exit_outcome w)).
    rewrite run_bind, PolicyMutexFacts.run_call_policy.
    cbn [w_state w_env w_trace]. rewrite <- app_assoc. reflexivity.
Qed.

End WithImpl.

End PolicyMutexOrder.

(* ================================================================== *)
(** * OSTrackMutex: what the debug build checks, what the release build
      leaves out *)

Module OSTrackMutexLife.
Import Exec ExecFacts Sync OSTrackMutex OSTrackMutexCalls Trace SequentialFacts.

Section WithPolicy.
Variable P : Type.

(** A thread that enters a native mutex that is held, alone, waits for
    ever. *)
Lemma os_enter_held (fuel : nat) (m : t P) (tr : list event) :
  OSMutex.os_locked (m_mutex m) = true ->
  exists m', OSMutex.os_locked (m_mutex m') = true /\
             m_freed m' = m_freed m /\ m_locked m' = m_locked m /\
             run (zoom m_mutex set_mutex (OSMutex.enter fuel)) (mk_world m [] tr) =
             Pending (mk_world m' [] tr).
Proof.
  revert m tr. induction fuel as [ | fuel IH ]; intros m tr Hm.
  - exists m. repeat split; assumption.
  - cbn [OSMutex.enter bind atomically zoom].
    rewrite run_act_alone by reflexivity. cbn [w_state w_trace].
    rewrite Hm. cbn [fst snd]. rewrite app_nil_r.
    destruct (IH (set_mutex (m_mutex m) m) tr Hm) as (m' & H1 & H2 & H3 & Hrun).
    exists m'. repeat split; try assumption.
Qed.

(** One call in the debug build, outside the exit of the server: it returns
    exactly when the state of the mutex allows it, and the members follow. *)
Lemma do_call_tracked (st : track) (c : call) (w : world (t P)) :
  tracks st (w_state w) -> w_env w = [] ->
  match next st c with
  | Some st' =>
      exists w', run (do_call true false c) w = Returned tt w' /\
                 tracks st' (w_state w') /\ w_env w' = []
  | None => forall w', run (do_call true false c) w <> Returned tt w'
  end.
Proof.
  destruct w as [m env tr]. cbn [w_state w_env]. intros Hst ->.
  destruct st, c as [ id f l | | fuel ms md f l | | ]; cbn [next];
    destruct m as [fr lk dae [osl] p]; cbn [tracks m_freed m_locked m_mutex
                                             OSMutex.os_locked] in Hst;
    destruct Hst as (-> & -> & ->);
    try (intros w'; cbn; discriminate);
    try (eexists; split; [ cbn; reflexivity | split; [ repeat split | reflexivity ] ]).
  - (* Ready, enter *)
    destruct fuel as [ | fuel ].
    + intros w'. cbn. discriminate.
    + eexists. split; [ cbn; reflexivity | split; [ repeat split | reflexivity ] ].
  - (* Held, enter *)
    intros w'. unfold do_call, enter.
    rewrite run_bind. cbn [ut_ad]. rewrite run_ut_a. cbn [w_state w_env w_trace m_freed orb negb].
    rewrite run_bind.
    destruct (os_enter_held fuel (mk false true dae (OSMutex.mk true) p) tr eq_refl)
      as (m' & _ & _ & _ & Hrun).
    rewrite Hrun. discriminate.
Qed.

(** In a build with UNIV_DEBUG, outside the exit of the server, the calls of
    one thread on a mutex all return exactly when they follow the life of a
    mutex: [init] on a mutex that is not initialised, [enter], [try_lock],
    [exit] and [destroy] on an initialised one, [exit] by the holder only,
    [destroy] and [enter] never on a held mutex.  The members [m_freed] and
    [m_locked] then tell the state, and [m_locked] tells whether the native
    mutex is held.  Any other call stops the process or never returns. *)
Theorem debug_build_follows_protocol (st : track) (cs : list call) (w : world (t P)) :
  tracks st (w_state w) -> w_env w = [] ->
  match follow st cs with
  | Some st' =>
      exists w', run (do_calls true false cs) w = Returned tt w' /\ tracks st' (w_state w')
  | None => forall w', run (do_calls true false cs) w <> Returned tt w'
  end.
Proof.
  revert st w. induction cs as [ | c cs IH ]; intros st w Hst Henv; cbn [follow do_calls].
  - exists w. split; [ reflexivity | exact Hst ].
  - pose proof (do_call_tracked st c w Hst Henv) as Hc.
    destruct (next st c) as [ st1 | ].
    + destruct Hc as (w1 & Hrun & Hst1 & Henv1).
      rewrite (bind_returned _ _ _ _ _ Hrun). apply IH; assumption.
    + intros w'. rewrite run_bind.
      destruct (run (do_call true false c) w) as [ [] w1 | w1 | w1 ] eqn:Hrun;
        try discriminate.
      contradiction (Hc w1). reflexivity.
Qed.

Lemma os_enter_quiet (fuel : nat) :
  preserves (tracking (P:=P)) (zoom m_mutex set_mutex (OSMutex.enter fuel)) /\
  no_stop (zoom (S:=t P) m_mutex set_mutex (OSMutex.enter fuel)).
Proof.
  induction fuel as [ | fuel [IHp IHn] ]; [ split; exact Logic.I | ].
  cbn [OSMutex.enter bind atomically zoom preserves no_stop]. split.
  - split.
    + intros s. destruct (OSMutex.os_locked (m_mutex s)); reflexivity.
    + intros [ | ]; [ exact Logic.I | exact IHp ].
  - intros [ | ]; [ exact Logic.I | exact IHn ].
Qed.

Lemma do_call_release (e : bool) (c : call) :
  preserves (tracking (P:=P)) (do_call false e c) /\ no_stop (do_call (P:=P) false e c).
Proof.
  destruct c as [ id f l | | fuel ms md f l | | ]; cbn [do_call].
  - cbn. repeat split.
  - cbn. repeat split.
  - unfold enter. cbn [ut_ad ut_d ret bind].
    destruct (os_enter_quiet fuel) as [Hp Hn]. split.
    + apply preserves_bind; [ exact Hp | intros _; exact Logic.I ].
    + apply no_stop_bind; [ exact Hn | intros _; exact Logic.I ].
  - cbn. repeat split; try (intros [ | ]; repeat split).
    intros s. destruct (OSMutex.os_locked (m_mutex s)); reflexivity.
  - cbn. repeat split.
Qed.

(** In a build without UNIV_DEBUG no call is checked: whatever the calls and
    their order, none stops the process, and none writes [m_freed],
    [m_locked] or [m_destroy_at_exit]. *)
Theorem release_build_checks_nothing (e : bool) (cs : list call) :
  keeps (tracking (P:=P)) (do_calls false e cs) /\
  forall w w', run (do_calls (P:=P) false e cs) w <> Aborted w'.
Proof.
  assert (H : preserves (tracking (P:=P)) (do_calls false e cs) /\
              no_stop (do_calls (P:=P) false e cs)).
  { induction cs as [ | c cs [IHp IHn] ]; [ split; exact Logic.I | ].
    cbn [do_calls]. destruct (do_call_release e c) as [Hp Hn]. split.
    - apply preserves_bind; [ exact Hp | intros _; exact IHp ].
    - apply no_stop_bind; [ exact Hn | intros _; exact IHn ]. }
  destruct H as [Hp Hn]. split.
  - apply preserves_keeps. exact Hp.
  - intros w w'. apply no_stop_run. exact Hn.
Qed.

End WithPolicy.

(** A mutex as constructed is initialised, taken by [try_lock], found taken
    by a second [try_lock], released, entered, released and destroyed. *)
Lemma debug_build_follows_protocol_witness :
  exists w',
    run (do_calls true false
           [CallInit 1 "sync0sync.cc" 1; CallTryLock; CallTryLock; CallExit;
            CallEnter 1 30 6 "sync0sync.cc" 2; CallExit; CallDestroy])
        (mk_world (construct true (OSMutex.mk false) tt) [] []) = Returned tt w' /\
    tracks Freed (w_state w').
Proof.
  apply (debug_build_follows_protocol unit Freed
           [CallInit 1 "sync0sync.cc" 1; CallTryLock; CallTryLock; CallExit;
            CallEnter 1 30 6 "sync0sync.cc" 2; CallExit; CallDestroy]
           (mk_world (construct true (OSMutex.mk false) tt) [] [])).
  - cbn. repeat split.
  - reflexivity.
Defined.

(** A second [init], an [exit] by a thread that does not hold the mutex and
    a [destroy] of a held mutex do not return. *)
Lemma debug_build_rejects_misuse :
  follow Freed [CallInit 1 "sync0sync.cc" 1; CallInit 1 "sync0sync.cc" 1] = None /\
  follow Freed [CallInit 1 "sync0sync.cc" 1; CallExit] = None /\
  follow Freed [CallInit 1 "sync0sync.cc" 1; CallTryLock; CallDestroy] = None /\
  follow Freed [CallTryLock] = None.
Proof. repeat split. Qed.

End OSTrackMutexLife.

(* ================================================================== *)
(** * TTASMutex::enter: attempts, delays and yields *)

Module TTASMutexSpin.
Import Exec ExecFacts Sync CTypes TTASMutex Trace SequentialFacts.

Section WithPolicy.
Variable P : Type.
Variable hooks : policy_hooks P (t P).

Local Abbreviation cas old :=
  (EvCas32 old MUTEX_STATE_UNLOCKED MUTEX_STATE_LOCKED
     MY_MEMORY_ORDER_ACQUIRE MY_MEMORY_ORDER_RELAXED) (only parsing).

(** One round of the loop of [enter]. *)
Lemma enter_loop_round (fuel : nat) (step n M max_delay : Z) (w : world (t P)) :
  run (enter_loop fuel step n M max_delay) w =
  match fuel with
  | O => Pending w
  | S fuel' =>
      let w1 := interfere w in
      let old := m_lock_word (w_state w1) in
      if old =? MUTEX_STATE_UNLOCKED then
        Returned n (mk_world (set_lock_word MUTEX_STATE_LOCKED (w_state w1)) (w_env w1)
                             (w_trace w ++ [cas old]))
      else if uint32 (n + 1) =? M then
        run (enter_loop fuel' step (uint32 (n + 1)) (uint32 (M + step)) max_delay)
            (mk_world (w_state w1) (w_env w1)
                      (w_trace w ++ [cas old; EvDelay max_delay; EvYield]))
      else
        run (enter_loop fuel' step (uint32 (n + 1)) M max_delay)
            (mk_world (w_state w1) (w_env w1) (w_trace w ++ [cas old; EvDelay max_delay]))
  end.
Proof.
  destruct fuel as [ | fuel ]; [ reflexivity | ].
  cbn [enter_loop]. unfold try_lock, my_atomic_cas32_strong_explicit.
  rewrite (bind_returned _ _ _ _ _ (run_atomically _ _ w)). cbv zeta.
  destruct (m_lock_word (w_state (interfere w)) =? MUTEX_STATE_UNLOCKED) eqn:Hold;
    cbn [fst snd].
  - reflexivity.
  - rewrite (bind_returned _ _ _ _ _ (run_emit _ _)). cbn [w_state w_env w_trace].
    destruct (uint32 (n + 1) =? M).
    + rewrite (bind_returned _ _ _ _ _ (run_emit _ _)). cbn [w_state w_env w_trace].
      rewrite <- !app_assoc. reflexivity.
    + rewrite <- !app_assoc. reflexivity.
Qed.

Lemma enter_loop_counts (fuel : nat) (step n M max_delay : Z) (w w' : world (t P)) (r : Z) :
  0 < step -> 0 <= n < M -> M = (n / step + 1) * step ->
  n + Z.of_nat fuel + step < 2 ^ 32 ->
  run (enter_loop fuel step n M max_delay) w = Returned r w' ->
  exists k : nat,
    (k < fuel)%nat /\ r = n + Z.of_nat k /\
    count is_delay (w_trace w') = (count is_delay (w_trace w) + k)%nat /\
    count is_attempt (w_trace w') = (count is_attempt (w_trace w) + k + 1)%nat /\
    Z.of_nat (count is_yield (w_trace w')) =
      Z.of_nat (count is_yield (w_trace w)) + (r / step - n / step) /\
    m_lock_word (w_state w') = MUTEX_STATE_LOCKED.
Proof.
  intros Hstep. revert n M w.
  induction fuel as [ | fuel IH ]; intros n M w Hn HM Hb Hrun;
    rewrite enter_loop_round in Hrun; [ discriminate Hrun | ].
  cbv zeta in Hrun.
  destruct (m_lock_word (w_state (interfere w)) =? MUTEX_STATE_UNLOCKED).
  - injection Hrun as <- <-. exists 0%nat. cbn [w_trace w_state].
    rewrite !count_app. cbn. repeat split; lia.
  - assert (Hu : uint32 (n + 1) = n + 1) by (unfold uint32; apply Z.mod_small; lia).
    rewrite Hu in Hrun.
    pose proof (Z.mul_div_le n step Hstep) as Hlo.
    pose proof (Z.mul_succ_div_gt n step Hstep) as Hhi.
    destruct (Z.eqb_spec (n + 1) M) as [E | E].
    + assert (Hu' : uint32 (M + step) = M + step) by (unfold uint32; apply Z.mod_small; lia).
      rewrite Hu' in Hrun.
      assert (Hq : (n + 1) / step = n / step + 1).
      { rewrite E, HM. apply Z.div_mul. lia. }
      destruct (IH (n + 1) (M + step) _ ltac:(lia) ltac:(rewrite Hq; lia) ltac:(lia) Hrun)
        as (k & Hk & Hr & Hd & Ha & Hy & Hl).
      exists (S k). cbn [w_trace] in *. rewrite !count_app in *.
      cbn in Hd, Ha, Hy. 
      repeat split; try lia; try assumption.
    + assert (Hq : (n + 1) / step = n / step).
      { symmetry. apply (Z.div_unique_pos (n + 1) step (n / step) (n + 1 - step * (n / step))); lia. }
      destruct (IH (n + 1) M _ ltac:(lia) ltac:(rewrite Hq; lia) ltac:(lia) Hrun)
        as (k & Hk & Hr & Hd & Ha & Hy & Hl).
      exists (S k). cbn [w_trace] in *. rewrite !count_app in *.
      cbn in Hd, Ha, Hy.
      repeat split; try lia; try assumption.
Qed.

Lemma enter_loop_no_budget (fuel : nat) (n max_delay : Z) (w w' : world (t P)) (r : Z) :
  0 <= n -> n + Z.of_nat fuel < 2 ^ 32 ->
  run (enter_loop fuel 0 n 0 max_delay) w = Returned r w' ->
  exists k : nat,
    (k < fuel)%nat /\ r = n + Z.of_nat k /\
    count is_delay (w_trace w') = (count is_delay (w_trace w) + k)%nat /\
    count is_attempt (w_trace w') = (count is_attempt (w_trace w) + k + 1)%nat /\
    count is_yield (w_trace w') = count is_yield (w_trace w) /\
    m_lock_word (w_state w') = MUTEX_STATE_LOCKED.
Proof.
  revert n w.
  induction fuel as [ | fuel IH ]; intros n w Hn Hb Hrun;
    rewrite enter_loop_round in Hrun; [ discriminate Hrun | ].
  cbv zeta in Hrun.
  destruct (m_lock_word (w_state (interfere w)) =? MUTEX_STATE_UNLOCKED).
  - injection Hrun as <- <-. exists 0%nat. cbn [w_trace w_state].
    rewrite !count_app. cbn. repeat split; lia.
  - assert (Hu : uint32 (n + 1) = n + 1) by (unfold uint32; apply Z.mod_small; lia).
    rewrite Hu in Hrun.
    destruct (Z.eqb_spec (n + 1) 0) as [E | E]; [ lia | ].
    destruct (IH (n + 1) _ ltac:(lia) ltac:(lia) Hrun) as (k & Hk & Hr & Hd & Ha & Hy & Hl).
    exists (S k). cbn [w_trace] in *. rewrite !count_app in *.
    cbn in Hd, Ha, Hy.
    repeat split; try lia; try assumption.
Qed.

(** [TTASMutex::enter] that returns after [k] failed attempts has called the
    delay [k] times and [policy.add(k, 0)], and holds the lock word.  Every
    [max_spins] failed attempts it has yielded the processor once and raised
    its budget by [max_spins]: [k / max_spins] times in all; with a budget
    of zero it never yields.  Stated for calls of fewer than
    [2^32 - max_spins] attempts, which the counters hold. *)
Theorem enter_spins_and_yields (fuel : nat) (max_spins max_delay : Z) (filename : string)
    (line : Z) (w w' : world (t P)) :
  0 <= max_spins -> Z.of_nat fuel + max_spins < 2 ^ 32 ->
  run (enter hooks fuel max_spins max_delay filename line) w = Returned tt w' ->
  exists (k : nat) (p : P) (tr : list event),
    (k < fuel)%nat /\
    w_trace w' = tr ++ [EvPolicyAdd (Z.of_nat k) 0] /\
    w_state w' = mk (pol_add hooks (Z.of_nat k) 0 p) MUTEX_STATE_LOCKED /\
    count is_attempt (w_trace w') = (count is_attempt (w_trace w) + k + 1)%nat /\
    count is_delay (w_trace w') = (count is_delay (w_trace w) + k)%nat /\
    Z.of_nat (count is_yield (w_trace w')) =
      Z.of_nat (count is_yield (w_trace w)) +
      (if max_spins =? 0 then 0 else Z.of_nat k / max_spins).
Proof.
  intros Hms Hb Hrun. unfold enter in Hrun. rewrite run_bind in Hrun.
  destruct (run (enter_loop fuel max_spins 0 max_spins max_delay) w)
    as [ r w1 | w1 | w1 ] eqn:Hloop; try discriminate Hrun.
  assert (Hk : exists k : nat,
             (k < fuel)%nat /\ r = Z.of_nat k /\
             count is_delay (w_trace w1) = (count is_delay (w_trace w) + k)%nat /\
             count is_attempt (w_trace w1) = (count is_attempt (w_trace w) + k + 1)%nat /\
             Z.of_nat (count is_yield (w_trace w1)) =
               Z.of_nat (count is_yield (w_trace w)) +
               (if max_spins =? 0 then 0 else Z.of_nat k / max_spins) /\
             m_lock_word (w_state w1) = MUTEX_STATE_LOCKED).
  { destruct (Z.eqb_spec max_spins 0) as [E | E].
    - subst max_spins.
      destruct (enter_loop_no_budget fuel 0 max_delay w w1 r ltac:(lia) ltac:(lia) Hloop)
        as (k & H1 & H2 & H3 & H4 & H5 & H6).
      exists k. cbv iota. repeat split; try assumption; lia.
    - destruct (enter_loop_counts fuel max_spins 0 max_spins max_delay w w1 r
                  ltac:(lia) ltac:(lia)
                  ltac:(rewrite Z.div_0_l by lia; lia) ltac:(lia) Hloop)
        as (k & H1 & H2 & H3 & H4 & H5 & H6).
      exists k. rewrite Z.div_0_l in H5 by lia. rewrite Z.add_0_l in H2. rewrite H2 in H5.
      cbv iota. repeat split; try assumption; lia. }
  destruct Hk as (k & H1 & -> & H3 & H4 & H5 & H6).
  unfold policy_add in Hrun.
  rewrite (bind_returned _ _ _ _ _ (run_emit _ _)), run_modify in Hrun.
  injection Hrun as <-. cbn [w_state w_env w_trace].
  exists k, (m_policy (w_state w1)), (w_trace w1).
  split; [ exact H1 | ]. split; [ reflexivity | ].
  split; [ unfold set_policy; rewrite H6; reflexivity | ].
  rewrite !count_app. cbn. repeat split; lia.
Qed.

End WithPolicy.

(** Three failed attempts with a budget of two. *)
Lemma enter_spins_and_yields_witness :
  0 <= 2 /\ Z.of_nat 5 + 2 < 2 ^ 32 /\
  exists (w' : world (t unit)) (k : nat),
    run (enter (Scenarios.no_policy _) 5 2 1 "sync0sync.cc" 1)
        MoreScenarios.released_after_three = Returned tt w' /\
    count is_delay (w_trace w') = (0 + k)%nat /\
    Z.of_nat (count is_yield (w_trace w')) = 0 + Z.of_nat k / 2.
Proof.
  split; [ lia | ]. split; [ lia | ].
  assert (Hrun : run (enter (Scenarios.no_policy _) 5 2 1 "sync0sync.cc" 1)
                     MoreScenarios.released_after_three =
                 Returned tt
                   (final_world (run (enter (Scenarios.no_policy _) 5 2 1 "sync0sync.cc" 1)
                                     MoreScenarios.released_after_three)))
    by (vm_compute; reflexivity).
  destruct (enter_spins_and_yields unit (Scenarios.no_policy _) 5 2 1 "sync0sync.cc" 1
              MoreScenarios.released_after_three _ ltac:(lia) ltac:(lia) Hrun)
    as (k & p & tr & _ & _ & _ & _ & Hd & Hy).
  eexists. exists k. split; [ exact Hrun | ]. split; [ exact Hd | exact Hy ].
Defined.

End TTASMutexSpin.

(* ================================================================== *)
(** * TTASEventMutex: the spins of [is_free], the waits of [enter] *)

Module TTASEventMutexSpin.
Import Exec ExecFacts Sync CTypes TTASEventMutex Trace SequentialFacts.

Section WithPolicy.
Variable P : Type.
Variable hooks : policy_hooks P (t P).
Variable univ_debug : bool.

(** One round of the loop of [is_free]. *)
Lemma is_free_loop_round (fuel : nat) (max_spins max_delay n : Z) (w : world (t P)) :
  run (is_free_loop fuel max_spins max_delay n) w =
  match fuel with
  | O => Pending w
  | S fuel' =>
      let w1 := interfere w in
      let v := m_lock_word (w_state w1) in
      if v =? MUTEX_STATE_UNLOCKED then
        Returned (true, n)
          (mk_world (w_state w1) (w_env w1) (w_trace w ++ [EvReadLockWord v]))
      else if uint32 (n + 1) <? max_spins then
        run (is_free_loop fuel' max_spins max_delay (uint32 (n + 1)))
            (mk_world (w_state w1) (w_env w1)
                      (w_trace w ++ [EvReadLockWord v; EvDelay max_delay]))
      else
        Returned (false, uint32 (n + 1))
          (mk_world (w_state w1) (w_env w1)
                    (w_trace w ++ [EvReadLockWord v; EvDelay max_delay]))
  end.
Proof.
  destruct fuel as [ | fuel ]; [ reflexivity | ].
  cbn [is_free_loop]. unfold is_locked, read_word.
  rewrite run_bind, (bind_returned _ _ _ _ _ (run_atomically _ _ w)). cbv zeta.
  cbn [fst snd run ret].
  destruct (m_lock_word (w_state (interfere w)) =? MUTEX_STATE_UNLOCKED) eqn:Hold;
    cbn [negb].
  - reflexivity.
  - rewrite (bind_returned _ _ _ _ _ (run_emit _ _)). cbn [w_state w_env w_trace].
    rewrite <- !app_assoc.
    destruct (uint32 (n + 1) <? max_spins); reflexivity.
Qed.

Lemma is_free_loop_outcome (fuel : nat) (max_spins max_delay n : Z) (w : world (t P)) :
  0 <= n -> n < 2 ^ 32 - 1 -> max_spins < 2 ^ 32 ->
  Z.max 1 (max_spins - n) <= Z.of_nat fuel ->
  exists (free : bool) (n' : Z) (w' : world (t P)),
    run (is_free_loop fuel max_spins max_delay n) w = Returned (free, n') w' /\
    n <= n' /\
    Z.of_nat (count is_delay (w_trace w')) = Z.of_nat (count is_delay (w_trace w)) + (n' - n) /\
    Z.of_nat (count is_lock_word_read (w_trace w')) =
      Z.of_nat (count is_lock_word_read (w_trace w)) + (n' - n) + (if free then 1 else 0) /\
    (free = true ->
     (n' = n \/ n' < max_spins) /\ m_lock_word (w_state w') = MUTEX_STATE_UNLOCKED) /\
    (free = false ->
     n' = Z.max max_spins (n + 1) /\ m_lock_word (w_state w') <> MUTEX_STATE_UNLOCKED).
Proof.
  revert n w. induction fuel as [ | fuel IH ]; intros n w Hn Hn32 Hms Hfuel; [ lia | ].
  rewrite is_free_loop_round. cbv zeta.
  destruct (m_lock_word (w_state (interfere w)) =? MUTEX_STATE_UNLOCKED) eqn:Hold.
  - exists true, n. eexists. split; [ reflexivity | ].
    cbn [w_trace w_state]. rewrite !count_app. cbn.
    apply Z.eqb_eq in Hold.
    repeat split; try lia; try discriminate.
  - assert (Hu : uint32 (n + 1) = n + 1) by (unfold uint32; apply Z.mod_small; lia).
    rewrite Hu. apply Z.eqb_neq in Hold.
    destruct (Z.ltb_spec (n + 1) max_spins) as [Hlt | Hge].
    + match goal with
      | |- context [run (is_free_loop fuel max_spins max_delay (n + 1)) ?w2] =>
          destruct (IH (n + 1) w2 ltac:(lia) ltac:(lia) Hms ltac:(lia))
            as (free & n' & w' & Hrun & Hle & Hd & Hr & Ht & Hf)
      end.
      exists free, n', w'. split; [ exact Hrun | ].
      cbn [w_trace] in Hd, Hr. rewrite !count_app in Hd, Hr. cbn in Hd, Hr.
      split; [ lia | ]. split; [ lia | ]. split; [ lia | ].
      split.
      * intros E. destruct (Ht E) as [ [ -> | H ] Hw ]; split; try assumption; right; lia.
      * intros E. destruct (Hf E) as [-> Hw]. split; [ lia | exact Hw ].
    + exists false, (n + 1). eexists. split; [ reflexivity | ].
      cbn [w_trace w_state]. rewrite !count_app. cbn.
      repeat split; try lia; try discriminate.
Qed.

Lemma is_free_writes_nothing (fuel : nat) (max_spins max_delay n : Z) :
  preserves (fun m : t P => m) (is_free univ_debug fuel max_spins max_delay n).
Proof.
  unfold is_free. apply preserves_bind.
  - unfold ut_ad. destruct univ_debug; cbn; [ | exact Logic.I ].
    split; [ reflexivity | intros [ | ]; exact Logic.I ].
  - intros _. revert n. induction fuel as [ | fuel IH ]; intros n; [ exact Logic.I | ].
    cbn [is_free_loop]. apply preserves_bind.
    + cbn. split; [ reflexivity | intros; exact Logic.I ].
    + intros [ | ]; cbn [negb]; [ | exact Logic.I ].
      apply preserves_bind; [ cbn; split; [ reflexivity | intros; exact Logic.I ] | ].
      intros _. destruct (_ <? _); [ apply IH | exact Logic.I ].
Qed.

(** [is_free] only reads: it writes no member of the mutex.  With a budget
    that is not used up it looks at the lock word until it finds it free or
    [n_spins] reaches [max_spins], with a delay after every look that found
    it taken.  With a budget that is used up ([n_spins = max_spins]) it
    still looks once, and then leaves [n_spins] at [max_spins + 1]. *)
Theorem is_free_spins (fuel : nat) (max_spins max_delay n : Z) (w : world (t P)) :
  0 <= n <= max_spins -> max_spins < 2 ^ 32 - 1 ->
  Z.max 1 (max_spins - n) <= Z.of_nat fuel ->
  preserves (fun m : t P => m) (is_free univ_debug fuel max_spins max_delay n) /\
  exists (free : bool) (n' : Z) (w' : world (t P)),
    run (is_free univ_debug fuel max_spins max_delay n) w = Returned (free, n') w' /\
    n <= n' /\
    Z.of_nat (count is_delay (w_trace w')) = Z.of_nat (count is_delay (w_trace w)) + (n' - n) /\
    Z.of_nat (count is_lock_word_read (w_trace w')) =
      Z.of_nat (count is_lock_word_read (w_trace w)) + (n' - n) + (if free then 1 else 0) /\
    (free = true ->
     (n' = n \/ n' < max_spins) /\ m_lock_word (w_state w') = MUTEX_STATE_UNLOCKED) /\
    (free = false ->
     n' = Z.max max_spins (n + 1) /\ m_lock_word (w_state w') <> MUTEX_STATE_UNLOCKED).
Proof.
  intros Hn Hms Hfuel. split; [ apply is_free_writes_nothing | ].
  unfold is_free. rewrite run_bind.
  assert (Hchk : run (ut_ad univ_debug (fun _ : t P => n <=? max_spins)) w =
                 Returned tt (mk_world (w_state w) (w_env w) (w_trace w))).
  { unfold ut_ad. destruct univ_debug; [ | destruct w; reflexivity ].
    rewrite run_ut_a. replace (n <=? max_spins) with true by (symmetry; apply Z.leb_le; lia).
    reflexivity. }
  rewrite Hchk.
  apply (is_free_loop_outcome fuel max_spins max_delay n
           (mk_world (w_state w) (w_env w) (w_trace w))); lia.
Qed.

(** ** The waits of [spin_and_try_lock] *)

Lemma quiet_yield (e : Exec.event) : quiet e = true -> is_yield e = false.
Proof. unfold quiet. destruct (is_yield e); [ discriminate | reflexivity ]. Qed.

Lemma quiet_reserve (e : Exec.event) : quiet e = true -> is_reserve e = false.
Proof. unfold quiet. destruct (is_yield e), (is_reserve e); try discriminate; reflexivity. Qed.


Lemma emits_try_lock : emits quiet (try_lock (P:=P)).
Proof. cbn. repeat split. Qed.

Lemma emits_is_free (fuel : nat) (max_spins max_delay n : Z) :
  emits quiet (is_free (P:=P) univ_debug fuel max_spins max_delay n).
Proof.
  unfold is_free. apply emits_bind.
  - unfold ut_ad. destruct univ_debug; cbn; [ | exact Logic.I ].
    split; [ reflexivity | intros [ | ]; exact Logic.I ].
  - intros _. revert n. induction fuel as [ | fuel IH ]; intros n; [ exact Logic.I | ].
    cbn [is_free_loop]. apply emits_bind.
    + cbn. split; [ reflexivity | intros; exact Logic.I ].
    + intros [ | ]; cbn [negb]; [ | exact Logic.I ].
      apply emits_bind; [ cbn; split; [ reflexivity | intros; exact Logic.I ] | ].
      intros _. destruct (_ <? _); [ apply IH | exact Logic.I ].
Qed.

Lemma emits_wait_retry (spin : nat) : emits quiet (wait_retry (P:=P) spin).
Proof.
  induction spin as [ | spin IH ]; [ exact Logic.I | ].
  cbn [wait_retry]. apply emits_bind; [ apply emits_try_lock | ].
  intros [ | ]; [ exact Logic.I | exact IH ].
Qed.

Lemma try_lock_locked (w w' : world (t P)) (b : bool) :
  run try_lock w = Returned b w' -> m_lock_word (w_state w') = MUTEX_STATE_LOCKED.
Proof.
  unfold try_lock, tas_lock, my_atomic_faslong.
  rewrite (bind_returned _ _ _ _ _ (run_atomically _ _ w)). cbn [run ret fst snd].
  intros H. injection H as _ <-. reflexivity.
Qed.

Lemma wait_retry_locked (spin : nat) (w w' : world (t P)) :
  run (wait_retry spin) w = Returned true w' ->
  m_lock_word (w_state w') = MUTEX_STATE_LOCKED.
Proof.
  revert w. induction spin as [ | spin IH ]; intros w; cbn [wait_retry];
    [ discriminate | ].
  rewrite run_bind.
  destruct (run try_lock w) as [ [ | ] w1 | w1 | w1 ] eqn:Htry; try discriminate.
  - cbn [run ret]. intros H. injection H as <-. apply (try_lock_locked w w1 true Htry).
  - apply IH.
Qed.

(** A call of [wait]: one cell reserved, no yield; when it returns true the
    lock word is LOCKED. *)
Lemma wait_counts (filename : string) (line spin : Z) (w : world (t P)) :
  count is_yield (w_trace (final_world (run (wait filename line spin) w))) =
    count is_yield (w_trace w) /\
  count is_reserve (w_trace (final_world (run (wait filename line spin) w))) =
    S (count is_reserve (w_trace w)) /\
  (forall w', run (wait filename line spin) w = Returned true w' ->
              m_lock_word (w_state w') = MUTEX_STATE_LOCKED).
Proof.
  unfold wait. rewrite (bind_returned _ _ _ _ _ (run_emit _ _)).
  set (w0 := mk_world (w_state w) (w_env w) (w_trace w ++ [EvSyncArrayReserve])).
  assert (Hrest : forall c : M (t P) bool, emits quiet c ->
            count is_yield (w_trace (final_world (run c w0))) = count is_yield (w_trace w) /\
            count is_reserve (w_trace (final_world (run c w0))) =
              S (count is_reserve (w_trace w))).
  { intros c Hc.
    rewrite (emits_count is_yield quiet c w0 quiet_yield Hc).
    rewrite (emits_count is_reserve quiet c w0 quiet_reserve Hc).
    subst w0. cbn [w_trace]. rewrite !count_app. cbn. split; lia. }
  split; [ | split ].
  - apply Hrest. apply emits_bind; [ cbn; repeat split | intros _ ].
    apply emits_bind; [ apply emits_wait_retry | intros [ | ]; cbn; repeat split ].
  - apply Hrest. apply emits_bind; [ cbn; repeat split | intros _ ].
    apply emits_bind; [ apply emits_wait_retry | intros [ | ]; cbn; repeat split ].
  - intros w'. rewrite run_bind.
    destruct (run set_waiters w0) as [ [] w1 | w1 | w1 ]; try discriminate.
    rewrite run_bind.
    destruct (run (wait_retry (Z.to_nat spin)) w1) as [ [ | ] w2 | w2 | w2 ] eqn:Hretry;
      try discriminate.
    rewrite (bind_returned _ _ _ _ _ (run_emit _ _)). cbn [run ret].
    intros H. injection H as <-. cbn [w_state].
    apply (wait_retry_locked _ _ _ Hretry).
Qed.

Lemma uint32_range (z : Z) : 0 <= uint32 z < 2 ^ 32.
Proof. unfold uint32. apply Z.mod_pos_bound. lia. Qed.

Lemma spin_and_try_lock_loop_counts (fuel : nat) (step n nw max_spins max_delay : Z)
    (filename : string) (line : Z) (w w' : world (t P)) (r : Z * Z) :
  0 <= nw < 2 ^ 32 ->
  run (spin_and_try_lock_loop univ_debug fuel step n nw max_spins max_delay filename line) w =
    Returned r w' ->
  exists k : nat,
    snd r = uint32 (nw + Z.of_nat k) /\
    count is_yield (w_trace w') = (count is_yield (w_trace w) + k)%nat /\
    count is_reserve (w_trace w') = (count is_reserve (w_trace w) + k)%nat /\
    m_lock_word (w_state w') = MUTEX_STATE_LOCKED.
Proof.
  revert n nw max_spins w.
  induction fuel as [ | fuel IH ]; intros n nw max_spins w Hnw Hrun;
    cbn [spin_and_try_lock_loop] in Hrun; [ discriminate Hrun | ].
  rewrite run_bind in Hrun.
  pose proof (emits_count is_yield quiet _ w quiet_yield
                (emits_is_free fuel max_spins max_delay n)) as Hy0.
  pose proof (emits_count is_reserve quiet _ w quiet_reserve
                (emits_is_free fuel max_spins max_delay n)) as Hr0.
  destruct (run (is_free univ_debug fuel max_spins max_delay n) w)
    as [ [free n1] w1 | w1 | w1 ]; try discriminate Hrun.
  cbn [final_world] in Hy0, Hr0.
  destruct free.
  - rewrite run_bind in Hrun.
    pose proof (emits_count is_yield quiet _ w1 quiet_yield emits_try_lock) as Hy1.
    pose proof (emits_count is_reserve quiet _ w1 quiet_reserve emits_try_lock) as Hr1.
    destruct (run try_lock w1) as [ [ | ] w2 | w2 | w2 ] eqn:Htry; try discriminate Hrun;
      cbn [final_world] in Hy1, Hr1.
    + cbn [run ret] in Hrun. injection Hrun as <- <-. exists 0%nat. cbn [snd].
      rewrite Z.add_0_r. unfold uint32. rewrite Z.mod_small by lia.
      repeat split; try lia. apply (try_lock_locked _ _ _ Htry).
    + destruct (IH _ _ _ _ Hnw Hrun) as (k & Hs & Hy & Hr & Hl).
      exists k. repeat split; try assumption; lia.
  - rewrite (bind_returned _ _ _ _ _ (run_emit _ _)) in Hrun.
    rewrite run_bind in Hrun.
    cbn [w_state w_env w_trace] in Hrun.
    set (ww := mk_world (w_state w1) (w_env w1) (w_trace w1 ++ [EvYield])) in Hrun.
    assert (Hyw : count is_yield (w_trace ww) = S (count is_yield (w_trace w1)))
      by (subst ww; cbn [w_trace]; rewrite count_app; cbn; lia).
    assert (Hrw : count is_reserve (w_trace ww) = count is_reserve (w_trace w1))
      by (subst ww; cbn [w_trace]; rewrite count_app; cbn; lia).
    clearbody ww.
    destruct (wait_counts filename line 4 ww) as (Hy1 & Hr1 & Hl1).
    destruct (run (wait filename line 4) ww) as [ [ | ] w2 | w2 | w2 ];
      try discriminate Hrun; cbn [final_world] in Hy1, Hr1.
    + cbn [run ret] in Hrun. injection Hrun as <- <-. exists 1%nat. cbn [snd].
      repeat split; try lia. apply Hl1. reflexivity.
    + destruct (IH _ _ _ _ (uint32_range (nw + 1)) Hrun) as (k & Hs & Hy & Hr & Hl).
      exists (S k). rewrite Hs. unfold uint32 at 1 2.
      rewrite Z.add_mod_idemp_l by lia.
      replace (nw + 1 + Z.of_nat k) with (nw + Z.of_nat (S k)) by lia.
      repeat split; lia.
Qed.

(** ** The swap that acquires *)

Local Abbreviation idle := (fun e : Exec.event => negb (is_swap e)) (only parsing).

Lemma idle_not_won (e : Exec.event) : negb (is_swap e) = true -> is_won e = false.
Proof. destruct e; try reflexivity. discriminate. Qed.

Lemma idle_not_swap (e : Exec.event) : negb (is_swap e) = true -> is_swap e = false.
Proof. apply negb_true_iff. Qed.

(** The calls that a run adds to the trace. *)
Lemma emits_added {S A : Type} (ok : Exec.event -> bool) (c : prog S A) (w : world S) :
  emits ok c ->
  exists added,
    w_trace (final_world (run c w)) = w_trace w ++ added /\ forallb ok added = true.
Proof.
  revert w. induction c as [ a | X shared f ev k IH | | ]; intros w Hc;
    try (exists []; split; [ symmetry; apply app_nil_r | reflexivity ]).
  destruct Hc as [Hev Hk]. cbn [run].
  set (w1 := if shared then interfere w else w).
  assert (Htr : w_trace w1 = w_trace w)
    by (subst w1; destruct shared; [ apply interfere_trace | reflexivity ]).
  destruct (f (w_state w1)) as [x s'].
  destruct (IH x (mk_world s' (w_env w1) (log (w_trace w1) (ev (w_state w1) x))) (Hk x))
    as (added & Hadd & Hok).
  exists (ev (w_state w1) x ++ added).
  rewrite Hadd. cbn [w_trace]. rewrite log_app, Htr, app_assoc.
  split; [ reflexivity | ]. rewrite forallb_app, Hev, Hok. reflexivity.
Qed.

Lemma loses_refl (tr : list Exec.event) : loses tr tr.
Proof. exists []. split; [ symmetry; apply app_nil_r | reflexivity ]. Qed.

Lemma loses_trans (tr1 tr2 tr3 : list Exec.event) :
  loses tr1 tr2 -> loses tr2 tr3 -> loses tr1 tr3.
Proof.
  intros (a1 & -> & H1) (a2 & -> & H2). exists (a1 ++ a2).
  split; [ symmetry; apply app_assoc | ]. rewrite count_app, H1, H2. reflexivity.
Qed.

Lemma loses_acquires (tr1 tr2 tr3 : list Exec.event) :
  loses tr1 tr2 -> acquires tr2 tr3 -> acquires tr1 tr3.
Proof.
  intros (a1 & -> & H1) (pre & post & -> & Hpre & Hpost). exists (a1 ++ pre), post.
  split; [ rewrite <- !app_assoc; reflexivity | ].
  split; [ rewrite count_app, H1, Hpre; reflexivity | exact Hpost ].
Qed.

(** Code that makes no swap. *)
Lemma idle_loses {A : Type} (c : M (t P) A) (w : world (t P)) :
  emits idle c -> loses (w_trace w) (w_trace (final_world (run c w))).
Proof.
  intros Hc. destruct (emits_added _ c w Hc) as (added & Hadd & Hok).
  exists added. split; [ exact Hadd | ].
  apply (count_none is_won idle added idle_not_won Hok).
Qed.

Lemma acquires_idle {A : Type} (c : M (t P) A) (tr : list Exec.event) (w : world (t P)) :
  emits idle c -> acquires tr (w_trace w) ->
  acquires tr (w_trace (final_world (run c w))).
Proof.
  intros Hc (pre & post & Hw & Hpre & Hpost).
  destruct (emits_added _ c w Hc) as (added & Hadd & Hok).
  exists pre, (post ++ added). rewrite Hadd, Hw.
  split; [ rewrite <- !app_assoc; reflexivity | ].
  split; [ exact Hpre | ].
  rewrite count_app, Hpost, (count_none is_swap idle added idle_not_swap Hok). reflexivity.
Qed.

(** [try_lock] returns true exactly when its swap replaced UNLOCKED. *)
Lemma try_lock_swap (w w' : world (t P)) (b : bool) :
  run try_lock w = Returned b w' ->
  if b then acquires (w_trace w) (w_trace w') else loses (w_trace w) (w_trace w').
Proof.
  unfold try_lock, tas_lock, my_atomic_faslong.
  rewrite (bind_returned _ _ _ _ _ (run_atomically _ _ w)). cbn [run ret fst snd].
  intros H. injection H as Hb <-. cbn [w_trace].
  destruct b.
  - apply Z.eqb_eq in Hb. rewrite Hb. exists [], []. repeat split.
  - eexists. split; [ reflexivity | ]. unfold count. cbn [filter is_won]. rewrite Hb.
    reflexivity.
Qed.

Lemma wait_retry_swap (spin : nat) (w w' : world (t P)) (b : bool) :
  run (wait_retry spin) w = Returned b w' ->
  if b then acquires (w_trace w) (w_trace w') else loses (w_trace w) (w_trace w').
Proof.
  revert w. induction spin as [ | spin IH ]; intros w; cbn [wait_retry].
  - cbn [run ret]. intros H. injection H as <- <-. apply loses_refl.
  - rewrite run_bind.
    destruct (run try_lock w) as [ [ | ] w1 | w1 | w1 ] eqn:Htry; try discriminate.
    + cbn [run ret]. intros H. injection H as <- <-. apply (try_lock_swap _ _ _ Htry).
    + intros Hrun. pose proof (try_lock_swap _ _ _ Htry) as H1.
      pose proof (IH _ Hrun) as H2. cbv beta iota in H1.
      destruct b; [ apply (loses_acquires _ _ _ H1 H2) | apply (loses_trans _ _ _ H1 H2) ].
Qed.

Lemma idle_emit (e : Exec.event) : is_swap e = false -> emits idle (emit (S:=t P) e).
Proof. intros He. cbn. rewrite He. repeat split. Qed.

Lemma wait_swap (filename : string) (line spin : Z) (w w' : world (t P)) (b : bool) :
  run (wait filename line spin) w = Returned b w' ->
  if b then acquires (w_trace w) (w_trace w') else loses (w_trace w) (w_trace w').
Proof.
  unfold wait. rewrite run_bind.
  pose proof (idle_loses (emit EvSyncArrayReserve) w (idle_emit EvSyncArrayReserve eq_refl)) as H0.
  destruct (run (emit EvSyncArrayReserve) w) as [ [] w0 | w0 | w0 ]; try discriminate.
  cbn [final_world] in H0. rewrite run_bind.
  assert (Hset : emits idle (set_waiters (P:=P))) by (cbn; repeat split).
  pose proof (idle_loses set_waiters w0 Hset) as H1.
  destruct (run set_waiters w0) as [ [] w1 | w1 | w1 ]; try discriminate.
  cbn [final_world] in H1. rewrite run_bind.
  destruct (run (wait_retry (Z.to_nat spin)) w1) as [ [ | ] w2 | w2 | w2 ] eqn:Hretry;
    try discriminate; pose proof (wait_retry_swap _ _ _ _ Hretry) as H2; cbv beta iota in H2.
  - rewrite run_bind.
    pose proof (acquires_idle (emit EvSyncArrayFree) (w_trace w) w2
                  (idle_emit EvSyncArrayFree eq_refl)
                  (loses_acquires _ _ _ (loses_trans _ _ _ H0 H1) H2)) as H3.
    destruct (run (emit EvSyncArrayFree) w2) as [ [] w3 | w3 | w3 ]; try discriminate.
    cbn [run ret final_world] in *. intros H. injection H as <- <-. exact H3.
  - rewrite run_bind.
    pose proof (idle_loses (emit EvSyncArrayWaitEvent) w2 (idle_emit EvSyncArrayWaitEvent eq_refl)) as H3.
    destruct (run (emit EvSyncArrayWaitEvent) w2) as [ [] w3 | w3 | w3 ]; try discriminate.
    cbn [run ret final_world] in *. intros H. injection H as <- <-.
    apply (loses_trans _ _ _ (loses_trans _ _ _ (loses_trans _ _ _ H0 H1) H2) H3).
Qed.

Lemma idle_is_free (fuel : nat) (max_spins max_delay n : Z) :
  emits idle (is_free (P:=P) univ_debug fuel max_spins max_delay n).
Proof.
  unfold is_free. apply emits_bind.
  - unfold ut_ad. destruct univ_debug; cbn; [ | exact Logic.I ].
    split; [ reflexivity | intros [ | ]; exact Logic.I ].
  - intros _. revert n. induction fuel as [ | fuel IH ]; intros n; [ exact Logic.I | ].
    cbn [is_free_loop]. apply emits_bind.
    + cbn. split; [ reflexivity | intros; exact Logic.I ].
    + intros [ | ]; cbn [negb]; [ | exact Logic.I ].
      apply emits_bind; [ cbn; split; [ reflexivity | intros; exact Logic.I ] | ].
      intros _. destruct (_ <? _); [ apply IH | exact Logic.I ].
Qed.

(** The loop of [spin_and_try_lock] is left by a swap that replaced
    UNLOCKED only. *)
Lemma spin_and_try_lock_loop_acquires (fuel : nat) (step n nw max_spins max_delay : Z)
    (filename : string) (line : Z) (w w' : world (t P)) (r : Z * Z) :
  run (spin_and_try_lock_loop univ_debug fuel step n nw max_spins max_delay filename line) w =
    Returned r w' ->
  acquires (w_trace w) (w_trace w').
Proof.
  revert n nw max_spins w.
  induction fuel as [ | fuel IH ]; intros n nw max_spins w Hrun;
    cbn [spin_and_try_lock_loop] in Hrun; [ discriminate Hrun | ].
  rewrite run_bind in Hrun.
  pose proof (idle_loses _ w (idle_is_free fuel max_spins max_delay n)) as H0.
  destruct (run (is_free univ_debug fuel max_spins max_delay n) w)
    as [ [free n1] w1 | w1 | w1 ]; try discriminate Hrun.
  cbn [final_world] in H0.
  destruct free.
  - rewrite run_bind in Hrun.
    destruct (run try_lock w1) as [ [ | ] w2 | w2 | w2 ] eqn:Htry; try discriminate Hrun;
      pose proof (try_lock_swap _ _ _ Htry) as H1; cbv beta iota in H1.
    + cbn [run ret] in Hrun. injection Hrun as _ <-. apply (loses_acquires _ _ _ H0 H1).
    + apply (loses_acquires _ _ _ (loses_trans _ _ _ H0 H1)). apply (IH _ _ _ _ Hrun).
  - rewrite run_bind in Hrun.
    pose proof (idle_loses (emit EvYield) w1 (idle_emit EvYield eq_refl)) as H1.
    destruct (run (emit EvYield) w1) as [ [] w2 | w2 | w2 ]; try discriminate Hrun.
    cbn [final_world] in H1. rewrite run_bind in Hrun.
    destruct (run (wait filename line 4) w2) as [ [ | ] w3 | w3 | w3 ] eqn:Hwait;
      try discriminate Hrun; pose proof (wait_swap _ _ _ _ _ _ Hwait) as H2;
      cbv beta iota in H2.
    + cbn [run ret] in Hrun. injection Hrun as _ <-.
      apply (loses_acquires _ _ _ (loses_trans _ _ _ H0 H1) H2).
    + apply (loses_acquires _ _ _ (loses_trans _ _ _ (loses_trans _ _ _ H0 H1) H2)).
      apply (IH _ _ _ _ Hrun).
Qed.

Lemma enter_acquires (fuel : nat) (max_spins max_delay : Z) (filename : string)
    (line : Z) (w w' : world (t P)) :
  run (enter hooks univ_debug fuel max_spins max_delay filename line) w = Returned tt w' ->
  acquires (w_trace w) (w_trace w').
Proof.
  unfold enter. rewrite run_bind.
  destruct (run try_lock w) as [ [ | ] w1 | w1 | w1 ] eqn:Htry; try discriminate;
    pose proof (try_lock_swap _ _ _ Htry) as H0; cbv beta iota in H0; cbn [negb].
  - cbn [run ret]. intros H. injection H as <-. exact H0.
  - unfold spin_and_try_lock. rewrite run_bind.
    pose proof (idle_loses (emit EvRmb) w1 (idle_emit EvRmb eq_refl)) as H1.
    destruct (run (emit EvRmb) w1) as [ [] w2 | w2 | w2 ]; try discriminate.
    cbn [final_world] in H1. rewrite run_bind.
    destruct (run (spin_and_try_lock_loop univ_debug fuel max_spins 0 0 max_spins max_delay
                     filename line) w2) as [ [n_spins n_waits] w3 | w3 | w3 ] eqn:Hloop;
      try discriminate.
    pose proof (spin_and_try_lock_loop_acquires _ _ _ _ _ _ _ _ _ _ _ Hloop) as H2.
    assert (Hadd : emits idle (policy_add hooks n_spins n_waits)) by (cbn; repeat split).
    pose proof (acquires_idle _ (w_trace w) w3 Hadd
                  (loses_acquires _ _ _ (loses_trans _ _ _ H0 H1) H2)) as H3.
    intros Hrun. rewrite Hrun in H3. exact H3.
Qed.

(** [TTASEventMutex::enter] returns only when one of its own swaps has
    replaced UNLOCKED by LOCKED, whatever the other threads did meanwhile:
    every swap it made before that one replaced another value, it makes no
    swap after it, and the lock word is LOCKED when it returns.  It returns
    either from its first swap, without any other call, or from
    [spin_and_try_lock], whose last call is [policy.add(n_spins, n_waits)]:
    [n_waits] is then the number of times it yielded the processor, and the
    number of times it reserved a cell of the wait array (modulo 2^32); the
    waits and the yields are the same number. *)
Theorem enter_waits_are_yields (fuel : nat) (max_spins max_delay : Z) (filename : string)
    (line : Z) (w w' : world (t P)) :
  run (enter hooks univ_debug fuel max_spins max_delay filename line) w = Returned tt w' ->
  m_lock_word (w_state w') = MUTEX_STATE_LOCKED /\
  acquires (w_trace w) (w_trace w') /\
  (w_trace w' = w_trace w ++ [EvFasLong MUTEX_STATE_UNLOCKED MUTEX_STATE_LOCKED] \/
   exists (n_spins : Z) (k : nat) (tr : list Exec.event),
     w_trace w' = tr ++ [EvPolicyAdd n_spins (uint32 (Z.of_nat k))] /\
     count is_yield (w_trace w') = (count is_yield (w_trace w) + k)%nat /\
     count is_reserve (w_trace w') = (count is_reserve (w_trace w) + k)%nat).
Proof.
  intros Hreturned. pose proof (enter_acquires _ _ _ _ _ _ _ Hreturned) as Hacquires.
  revert Hreturned.
  unfold enter. rewrite run_bind.
  pose proof (emits_count is_yield quiet _ w quiet_yield emits_try_lock) as Hy0.
  pose proof (emits_count is_reserve quiet _ w quiet_reserve emits_try_lock) as Hr0.
  destruct (run try_lock w) as [ [ | ] w1 | w1 | w1 ] eqn:Htry; try discriminate;
    cbn [final_world negb] in *.
  - cbn [run ret]. intros H. injection H as <-.
    split; [ apply (try_lock_locked _ _ _ Htry) | ].
    split; [ exact Hacquires | left ].
    revert Htry. unfold try_lock, tas_lock, my_atomic_faslong.
    rewrite (bind_returned _ _ _ _ _ (run_atomically _ _ w)). cbn [run ret fst snd].
    intros H. injection H as Hold <-. cbn [w_trace].
    apply Z.eqb_eq in Hold. rewrite Hold. reflexivity.
  - unfold spin_and_try_lock.
    rewrite (bind_returned _ _ _ _ _ (run_emit _ _)), run_bind.
    cbn [w_state w_env w_trace].
    set (ww := mk_world (w_state w1) (w_env w1) (w_trace w1 ++ [EvRmb])).
    assert (Hyw : count is_yield (w_trace ww) = count is_yield (w_trace w1))
      by (subst ww; cbn [w_trace]; rewrite count_app; cbn; lia).
    assert (Hrw : count is_reserve (w_trace ww) = count is_reserve (w_trace w1))
      by (subst ww; cbn [w_trace]; rewrite count_app; cbn; lia).
    clearbody ww.
    pose proof (fun r w3 =>
                  spin_and_try_lock_loop_counts fuel max_spins 0 0 max_spins max_delay
                    filename line ww w3 r ltac:(lia)) as Hloop.
    destruct (run (spin_and_try_lock_loop univ_debug fuel max_spins 0 0 max_spins max_delay
                     filename line) ww)
      as [ [n_spins n_waits] w2' | w2' | w2' ]; try discriminate.
    destruct (Hloop _ _ eq_refl) as (k & Hs & Hy & Hr & Hl).
    cbn [snd] in Hs.
    unfold policy_add.
    rewrite (bind_returned _ _ _ _ _ (run_emit _ _)), run_modify.
    intros H. injection H as <-. cbn [w_state w_trace set_policy m_lock_word].
    split; [ exact Hl | ].
    split; [ exact Hacquires | right ].
    exists n_spins, k, (w_trace w2'). rewrite Hs, Z.add_0_l.
    split; [ reflexivity | ].
    rewrite !count_app. cbn. split; lia.
Qed.

End WithPolicy.

(** A budget that is used up: one look, and [n_spins] goes from 3 to 4. *)
Lemma is_free_spins_witness :
  0 <= 3 <= 3 /\ 3 < 2 ^ 32 - 1 /\ Z.max 1 (3 - 3) <= Z.of_nat 5 /\
  exists w',
    run (is_free (P:=unit) true 5 3 1 3) MoreScenarios.event_mutex_held =
    Returned (false, 4) w'.
Proof.
  split; [ lia | ]. split; [ lia | ]. split; [ lia | ].
  destruct (is_free_spins unit true 5 3 1 3 MoreScenarios.event_mutex_held
              ltac:(lia) ltac:(lia) ltac:(lia))
    as (_ & free & n' & w' & Hrun & _).
  exists w'. rewrite Hrun. vm_compute in Hrun. injection Hrun as <- <- _. reflexivity.
Defined.

(** The mutex is released while the caller waits: [enter] returns after a
    swap of its own that replaced UNLOCKED. *)
Lemma enter_waits_are_yields_witness :
  exists w',
    run (enter (Scenarios.no_policy _) true 5 2 1 "sync0sync.cc" 1)
        MoreScenarios.event_mutex_released_late = Returned tt w' /\
    m_lock_word (w_state w') = MUTEX_STATE_LOCKED /\
    acquires (w_trace MoreScenarios.event_mutex_released_late) (w_trace w').
Proof.
  assert (Hrun : run (enter (Scenarios.no_policy _) true 5 2 1 "sync0sync.cc" 1)
                     MoreScenarios.event_mutex_released_late =
                 Returned tt
                   (final_world
                      (run (enter (Scenarios.no_policy _) true 5 2 1 "sync0sync.cc" 1)
                           MoreScenarios.event_mutex_released_late)))
    by (vm_compute; reflexivity).
  eexists. split; [ exact Hrun | ].
  destruct (enter_waits_are_yields unit (Scenarios.no_policy _) true 5 2 1
              "sync0sync.cc" 1 MoreScenarios.event_mutex_released_late _ Hrun)
    as (Hlocked & Hacquires & _).
  split; [ exact Hlocked | exact Hacquires ].
Defined.

End TTASEventMutexSpin.

(* ================================================================== *)
(** * TTASFutexMutex: the wake of [exit]; the uncontended [enter] of the
      four implementations *)

Module TTASFutexMutexWake.
Import Exec ExecFacts Sync CTypes TTASFutexMutex Trace SequentialFacts.

Section WithPolicy.
Variable P : Type.
Variable hooks : policy_hooks P (t P).

Local Abbreviation cas_won :=
  (EvCas32 MUTEX_STATE_UNLOCKED MUTEX_STATE_UNLOCKED MUTEX_STATE_LOCKED
     MY_MEMORY_ORDER_ACQUIRE MY_MEMORY_ORDER_RELAXED) (only parsing).
Local Abbreviation swap_won :=
  (EvFas32 MUTEX_STATE_UNLOCKED MUTEX_STATE_WAITERS MY_MEMORY_ORDER_ACQUIRE) (only parsing).

Lemma exit_alone (w : world (t P)) :
  w_env w = [] ->
  run exit w =
  Returned tt
    (mk_world (set_lock_word MUTEX_STATE_UNLOCKED (w_state w)) []
       (w_trace w ++
        EvFas32 (m_lock_word (w_state w)) MUTEX_STATE_UNLOCKED MY_MEMORY_ORDER_RELEASE ::
        (if m_lock_word (w_state w) =? MUTEX_STATE_WAITERS then [EvFutexWake 1] else []))).
Proof.
  intros Henv. unfold exit, my_atomic_fas32_explicit.
  rewrite (bind_returned _ _ _ _ _ (run_atomically _ _ w)).
  rewrite (interfere_alone w Henv), Henv. cbn [fst snd].
  destruct (m_lock_word (w_state w) =? MUTEX_STATE_WAITERS).
  - rewrite run_emit. cbn [w_state w_env w_trace]. rewrite <- app_assoc. reflexivity.
  - reflexivity.
Qed.

(** A thread that took a TTASFutexMutex in the park phase of [enter] left
    WAITERS in the lock word, whether another thread waits or not, so its
    [exit] wakes a waiter through the futex; a thread that took it in the
    spin phase left LOCKED, and its [exit] makes the swap only.  The
    statement is for an [exit] that no other thread precedes. *)
Theorem exit_wakes_after_park (fuel : nat) (max_spins max_delay : Z) (filename : string)
    (line : Z) (w w' : world (t P)) :
  0 <= max_spins < 2 ^ 32 ->
  run (enter hooks fuel max_spins max_delay filename line) w = Returned tt w' ->
  w_env w' = [] ->
  (exists (tr : list event) (n : Z),
      w_trace w' = tr ++ [cas_won; EvPolicyAdd n 0] /\ n < max_spins /\
      m_lock_word (w_state w') = MUTEX_STATE_LOCKED /\
      run exit w' =
      Returned tt
        (mk_world (set_lock_word MUTEX_STATE_UNLOCKED (w_state w')) []
           (w_trace w' ++
            [EvFas32 MUTEX_STATE_LOCKED MUTEX_STATE_UNLOCKED MY_MEMORY_ORDER_RELEASE]))) \/
  (exists (tr : list event) (n : Z),
      w_trace w' = tr ++ [swap_won; EvPolicyAdd max_spins n] /\
      m_lock_word (w_state w') = MUTEX_STATE_WAITERS /\
      run exit w' =
      Returned tt
        (mk_world (set_lock_word MUTEX_STATE_UNLOCKED (w_state w')) []
           (w_trace w' ++
            [EvFas32 MUTEX_STATE_WAITERS MUTEX_STATE_UNLOCKED MY_MEMORY_ORDER_RELEASE;
             EvFutexWake 1]))).
Proof.
  intros Hms Hrun Henv. unfold enter in Hrun.
  destruct (TTASFutexMutexFacts.spin_loop_outcome P hooks max_spins max_delay Hms
              (Z.to_nat max_spins) 0 w ltac:(lia) ltac:(lia))
    as [ (olds & w1 & p & Hspin & Hlt & _ & Htr & Hst)
       | (olds & w1 & Hspin & _ & _ & Htr) ];
    rewrite (bind_returned _ _ _ _ _ Hspin) in Hrun.
  - cbn [run ret] in Hrun. injection Hrun as <-. left.
    exists (w_trace w ++ flat_map (spin_round max_delay) olds),
           (0 + Z.of_nat (List.length olds)).
    split; [ rewrite Htr, <- app_assoc; reflexivity | ].
    split; [ exact Hlt | ].
    split; [ rewrite Hst; reflexivity | ].
    rewrite (exit_alone w1 Henv), Hst. reflexivity.
  - destruct (TTASFutexMutexFacts.park_loop_outcome P fuel 0 w1)
      as [ (polds & w2 & _ & _ & Hpark & Hptr & Hpst)
         | (polds & w2 & _ & _ & Hpark & _) ];
      rewrite (bind_returned _ _ _ _ _ Hpark) in Hrun || rewrite (bind_pending _ _ _ _ Hpark) in Hrun;
      [ | discriminate Hrun ].
    rewrite TTASFutexMutexFacts.run_policy_add in Hrun. injection Hrun as <-.
    cbn [w_env] in Henv. right.
    exists (w_trace w1 ++ flat_map park_round polds). eexists.
    cbn [w_trace w_state set_policy m_lock_word].
    split; [ rewrite Hptr, <- !app_assoc; reflexivity | ].
    split; [ exact Hpst | ].
    rewrite exit_alone by exact Henv.
    cbn [w_trace w_state set_policy m_lock_word]. rewrite Hpst. reflexivity.
Qed.

End WithPolicy.

(** A spin budget of zero on a free mutex: the swap of the park phase takes
    it, and [exit] calls the futex although no thread waits. *)
Lemma exit_wakes_after_park_witness :
  0 <= 0 < 2 ^ 32 /\
  exists w',
    run (enter (Scenarios.no_policy _) 1 0 1 "sync0sync.cc" 1)
        MoreScenarios.free_futex_mutex = Returned tt w' /\
    w_env w' = [] /\
    run exit w' =
    Returned tt
      (mk_world (set_lock_word MUTEX_STATE_UNLOCKED (w_state w')) []
         (w_trace w' ++
          [EvFas32 MUTEX_STATE_WAITERS MUTEX_STATE_UNLOCKED MY_MEMORY_ORDER_RELEASE;
           EvFutexWake 1])).
Proof.
  split; [ lia | ].
  assert (Hrun : run (enter (Scenarios.no_policy _) 1 0 1 "sync0sync.cc" 1)
                     MoreScenarios.free_futex_mutex =
                 Returned tt
                   (final_world (run (enter (Scenarios.no_policy _) 1 0 1 "sync0sync.cc" 1)
                                     MoreScenarios.free_futex_mutex)))
    by (vm_compute; reflexivity).
  eexists. split; [ exact Hrun | ]. split; [ reflexivity | ].
  destruct (exit_wakes_after_park unit (Scenarios.no_policy _) 1 0 1 "sync0sync.cc" 1
              MoreScenarios.free_futex_mutex _ ltac:(lia) Hrun eq_refl)
    as [ (tr & n & _ & _ & Hl & _) | (tr & n & _ & _ & Hexit) ];
    [ vm_compute in Hl; discriminate Hl | exact Hexit ].
Defined.

End TTASFutexMutexWake.

Module Uncontended.
Import Exec ExecFacts Sync CTypes Trace SequentialFacts.

Local Abbreviation cas_won :=
  (EvCas32 MUTEX_STATE_UNLOCKED MUTEX_STATE_UNLOCKED MUTEX_STATE_LOCKED
     MY_MEMORY_ORDER_ACQUIRE MY_MEMORY_ORDER_RELAXED) (only parsing).
Local Abbreviation swap_won :=
  (EvFas32 MUTEX_STATE_UNLOCKED MUTEX_STATE_WAITERS MY_MEMORY_ORDER_ACQUIRE) (only parsing).

(** [enter] on a free mutex, by a thread that runs alone, returns from its
    first atomic operation, with no delay, yield or wait.  TTASMutex and
    TTASFutexMutex then call [policy.add(0, 0)]; TTASEventMutex returns
    without calling [policy.add] at all.  TTASFutexMutex with a spin budget
    of zero takes the mutex by the swap of its park phase and leaves WAITERS
    in the lock word.  OSTrackMutex sets [m_locked] in a debug build only. *)
Theorem uncontended_enter (P : Type)
    (hE : policy_hooks P (TTASMutex.t P)) (hF : policy_hooks P (TTASFutexMutex.t P))
    (hG : policy_hooks P (TTASEventMutex.t P))
    (univ_debug innodb_calling_exit : bool) (fuel : nat) (max_spins max_delay : Z)
    (filename : string) (line : Z) (p : P) (tr : list event) :
  run (TTASMutex.enter hE (S fuel) max_spins max_delay filename line)
      (mk_world (TTASMutex.mk p MUTEX_STATE_UNLOCKED) [] tr) =
    Returned tt (mk_world (TTASMutex.mk (pol_add hE 0 0 p) MUTEX_STATE_LOCKED) []
                          (tr ++ [cas_won; EvPolicyAdd 0 0])) /\
  (0 < max_spins < 2 ^ 32 ->
   run (TTASFutexMutex.enter hF fuel max_spins max_delay filename line)
       (mk_world (TTASFutexMutex.mk p MUTEX_STATE_UNLOCKED) [] tr) =
     Returned tt (mk_world (TTASFutexMutex.mk (pol_add hF 0 0 p) MUTEX_STATE_LOCKED) []
                           (tr ++ [cas_won; EvPolicyAdd 0 0]))) /\
  (max_spins <= 0 ->
   run (TTASFutexMutex.enter hF (S fuel) max_spins max_delay filename line)
       (mk_world (TTASFutexMutex.mk p MUTEX_STATE_UNLOCKED) [] tr) =
     Returned tt (mk_world (TTASFutexMutex.mk (pol_add hF 0 0 p) MUTEX_STATE_WAITERS) []
                           (tr ++ [swap_won; EvPolicyAdd 0 0]))) /\
  (forall waiters event : Z,
   run (TTASEventMutex.enter hG univ_debug fuel max_spins max_delay filename line)
       (mk_world (TTASEventMutex.mk MUTEX_STATE_UNLOCKED waiters event p) [] tr) =
     Returned tt (mk_world (TTASEventMutex.mk MUTEX_STATE_LOCKED waiters event p) []
                           (tr ++ [EvFasLong MUTEX_STATE_UNLOCKED MUTEX_STATE_LOCKED]))) /\
  (forall at_exit : bool,
   run (OSTrackMutex.enter univ_debug innodb_calling_exit (S fuel) max_spins max_delay
          filename line)
       (mk_world (OSTrackMutex.mk false false at_exit (OSMutex.mk false) p) [] tr) =
     Returned tt (mk_world (OSTrackMutex.mk false univ_debug at_exit (OSMutex.mk true) p) []
                           (tr ++ [EvOSMutexEnter]))).
Proof.
  split; [ | split; [ | split; [ | split ] ] ].
  - cbn. rewrite <- app_assoc. reflexivity.
  - intros Hms. unfold TTASFutexMutex.enter.
    destruct (Z.to_nat max_spins) as [ | k ] eqn:Hk; [ lia | ].
    rewrite run_bind,
      (TTASFutexMutexFacts.spin_loop_round P hF max_spins max_delay ltac:(lia) k 0 _
         ltac:(lia)).
    cbn. reflexivity.
  - intros Hms. unfold TTASFutexMutex.enter.
    assert (Hspin : forall k w, run (TTASFutexMutex.spin_loop hF k 0 max_spins max_delay) w =
                                Returned (inr 0) w).
    { intros k w. destruct k; cbn [TTASFutexMutex.spin_loop];
        replace (0 <? max_spins) with false by (symmetry; apply Z.ltb_ge; lia);
        reflexivity. }
    rewrite run_bind, Hspin. cbn. rewrite <- app_assoc. reflexivity.
  - intros waiters event. cbn. reflexivity.
  - intros at_exit. destruct univ_debug, innodb_calling_exit; cbn; reflexivity.
Qed.

(** TTASFutexMutex with a spin budget of two, on the free mutex. *)
Lemma uncontended_enter_witness :
  0 < 2 < 2 ^ 32 /\
  run (TTASFutexMutex.enter (Scenarios.no_policy _) 5 2 1 "sync0sync.cc" 1)
      MoreScenarios.free_futex_mutex =
  Returned tt
    (mk_world (TTASFutexMutex.mk tt MUTEX_STATE_LOCKED) [] [cas_won; EvPolicyAdd 0 0]).
Proof.
  split; [ lia | ].
  apply (proj1 (proj2 (uncontended_enter unit (Scenarios.no_policy _) (Scenarios.no_policy _)
                         (Scenarios.no_policy _) true false 5 2 1 "sync0sync.cc" 1 tt []))).
  lia.
Defined.

End Uncontended.

(* ================================================================== *)
(** * PolicyMutex: the instrumentation handle *)

Module PolicyMutexHandle.
Import Exec ExecFacts Sync PolicyMutex PolicyMutexCalls.

Section WithImpl.
Variable P Impl : Type.
Variable I : mutex_impl P Impl.
Variable hooks : policy_hooks P Impl.
Variable univ_pfs_mutex univ_debug : bool.
Variable sync_latch_get_pfs_key : Z -> Z.
Variable psi_init_mutex : Z -> Z.
Variable psi_start_mutex_wait : Z -> psi_mutex_operation -> string -> Z -> Z.

Local Abbreviation handle := (m_ptr (Impl:=Impl)) (only parsing).

(** The code of the implementation and the calls of the policy leave
    [m_ptr] alone. *)
Lemma preserves_zoom_impl {A : Type} (c : M Impl A) :
  preserves handle (zoom m_impl set_impl c).
Proof.
  induction c as [ a | B shared f ev k IH | | ]; cbn [zoom preserves]; try exact Logic.I.
  split; [ | exact IH ].
  intros s. destruct (f (m_impl s)) as [x i']. reflexivity.
Qed.

Lemma preserves_call_policy (ev : event) (hook : Impl -> P -> P) :
  preserves handle (call_policy I ev hook).
Proof. cbn. repeat split. Qed.

Lemma preserves_ifdef_read {A : Type} (c : M (t Impl) A) (a : A) :
  preserves handle c -> preserves handle (ifdef_pfs univ_pfs_mutex c a).
Proof. intros H. unfold ifdef_pfs. destruct univ_pfs_mutex; [ exact H | exact Logic.I ]. Qed.

Lemma preserves_pfs_end (locker rc : Z) : preserves handle (pfs_end (Impl:=Impl) locker rc).
Proof. unfold pfs_end. destruct (negb _); cbn; repeat split. Qed.

Lemma preserves_enter (fuel : nat) (n_spins n_delay : Z) (name : string) (line : Z) :
  preserves handle
    (enter I hooks univ_pfs_mutex psi_start_mutex_wait fuel n_spins n_delay name line).
Proof.
  unfold enter. apply preserves_bind.
  { apply preserves_ifdef_read. unfold pfs_begin_lock.
    apply preserves_bind; [ cbn; repeat split | intros m ].
    destruct (negb _); cbn; repeat split. }
  intros locker.
  apply preserves_bind; [ apply preserves_call_policy | intros _ ].
  apply preserves_bind; [ apply preserves_zoom_impl | intros _ ].
  apply preserves_bind; [ apply preserves_call_policy | intros _ ].
  apply preserves_ifdef_read. apply preserves_pfs_end.
Qed.

Lemma preserves_trylock (name : string) (line : Z) :
  preserves handle (trylock I hooks univ_pfs_mutex psi_start_mutex_wait name line).
Proof.
  unfold trylock. apply preserves_bind.
  { apply preserves_ifdef_read. unfold pfs_begin_trylock.
    apply preserves_bind; [ cbn; repeat split | intros m ].
    destruct (negb _); cbn; repeat split. }
  intros locker.
  apply preserves_bind; [ apply preserves_zoom_impl | intros locked ].
  apply preserves_bind.
  { destruct (_ =? 0); [ | exact Logic.I ].
    apply preserves_bind; [ apply preserves_call_policy | intros _ ].
    apply preserves_call_policy. }
  intros _. apply preserves_bind; [ | intros _; exact Logic.I ].
  apply preserves_ifdef_read. apply preserves_pfs_end.
Qed.

Lemma preserves_exit : preserves handle (exit I hooks univ_pfs_mutex).
Proof.
  unfold exit. apply preserves_bind.
  { apply preserves_ifdef_read. unfold pfs_exit.
    apply preserves_bind; [ cbn; repeat split | intros m ].
    destruct (negb _); cbn; repeat split. }
  intros _.
  apply preserves_bind; [ apply preserves_call_policy | intros _ ].
  apply preserves_zoom_impl.
Qed.

(** A part of a call after which [m_ptr] is [h], followed by code that
    leaves [m_ptr] alone. *)
Lemma handle_then_kept {A : Type} (c : M (t Impl) A) (k : A -> M (t Impl) unit) (h : Z)
    (w w' : world (t Impl)) :
  (forall a w1, run c w = Returned a w1 ->
                m_ptr (w_state w1) = h /\ stable handle w1) ->
  (forall a, preserves handle (k a)) ->
  run (bind c k) w = Returned tt w' ->
  m_ptr (w_state w') = h /\ stable handle w'.
Proof.
  intros Hc Hk. rewrite run_bind.
  destruct (run c w) as [ a w1 | w1 | w1 ]; try discriminate.
  destruct (Hc a w1 eq_refl) as [Hh Hst]. intros Hrun.
  destruct (preserves_keeps handle (k a) (Hk a) w1 Hst) as [Hobs Hst'].
  rewrite Hrun in Hobs, Hst'. cbn [final_world] in Hobs, Hst'.
  split; [ congruence | exact Hst' ].
Qed.

Local Abbreviation step :=
  (do_call I hooks univ_pfs_mutex univ_debug sync_latch_get_pfs_key psi_init_mutex
     psi_start_mutex_wait) (only parsing).
Local Abbreviation steps :=
  (do_calls I hooks univ_pfs_mutex univ_debug sync_latch_get_pfs_key psi_init_mutex
     psi_start_mutex_wait) (only parsing).
Local Abbreviation after := (handle_after sync_latch_get_pfs_key psi_init_mutex)
  (only parsing).

Lemma do_call_keeps_handle (c : call) (w w' : world (t Impl)) :
  stable handle w ->
  run (step c) w = Returned tt w' ->
  m_ptr (w_state w') =
    (if univ_pfs_mutex then after (m_ptr (w_state w)) [c] else m_ptr (w_state w)) /\
  stable handle w'.
Proof.
  intros Hst Hrun.
  assert (Hkeep : forall c0 : M (t Impl) unit, preserves handle c0 ->
            run c0 w = Returned tt w' ->
            m_ptr (w_state w') = m_ptr (w_state w) /\ stable handle w').
  { intros c0 Hc0 Hr. destruct (preserves_keeps handle c0 Hc0 w Hst) as [H1 H2].
    rewrite Hr in H1, H2. split; assumption. }
  destruct c as [ id f l | | fuel ns nd name line | name line | ];
    cbn [do_call handle_after] in *.
  - unfold init in Hrun. destruct univ_pfs_mutex; cbn [ifdef_pfs] in Hrun.
    + refine (handle_then_kept _ _ _ w w' _ _ Hrun).
      * intros [] w1. unfold pfs_add. rewrite run_bind.
        destruct (run (ut_ad univ_debug _) w) as [ [] w0 | w0 | w0 ] eqn:Hchk;
          try discriminate.
        assert (Hw0 : stable handle w0).
        { pose proof (keeps_ut_ad handle univ_debug
                        (fun m : t Impl => m_ptr m =? 0) w Hst) as [_ H].
          rewrite Hchk in H. exact H. }
        rewrite (bind_returned _ _ _ _ _ (run_emit _ _)), run_modify.
        intros H. injection H as <-. split; [ reflexivity | exact Hw0 ].
      * intros _. apply preserves_bind; [ apply preserves_zoom_impl | intros _ ].
        apply preserves_call_policy.
    + refine (Hkeep _ _ Hrun).
      apply preserves_bind; [ exact Logic.I | intros _ ].
      apply preserves_bind; [ apply preserves_zoom_impl | intros _ ].
      apply preserves_call_policy.
  - unfold destroy in Hrun. destruct univ_pfs_mutex; cbn [ifdef_pfs] in Hrun.
    + refine (handle_then_kept _ _ _ w w' _ _ Hrun).
      * intros [] w1. unfold pfs_del. rewrite (bind_returned _ _ _ _ _ (run_get _)).
        cbn [w_state]. destruct (negb (m_ptr (w_state w) =? 0)) eqn:Hz.
        -- rewrite (bind_returned _ _ _ _ _ (run_emit _ _)), run_modify.
           intros H. injection H as <-. split; [ reflexivity | exact Hst ].
        -- cbn [run ret]. intros H. injection H as <-. cbn [w_state].
           apply negb_false_iff, Z.eqb_eq in Hz. split; [ exact Hz | exact Hst ].
      * intros _. apply preserves_bind; [ apply preserves_zoom_impl | intros _ ].
        apply preserves_call_policy.
    + refine (Hkeep _ _ Hrun).
      apply preserves_bind; [ exact Logic.I | intros _ ].
      apply preserves_bind; [ apply preserves_zoom_impl | intros _ ].
      apply preserves_call_policy.
  - destruct (Hkeep _ (preserves_enter fuel ns nd name line) Hrun) as [H1 H2].
    split; [ destruct univ_pfs_mutex; exact H1 | exact H2 ].
  - assert (Hp : preserves handle
                   (bind (trylock I hooks univ_pfs_mutex psi_start_mutex_wait name line)
                         (fun _ => ret tt)))
      by (apply preserves_bind; [ apply preserves_trylock | intros _; exact Logic.I ]).
    destruct (Hkeep _ Hp Hrun) as [H1 H2].
    split; [ destruct univ_pfs_mutex; exact H1 | exact H2 ].
  - destruct (Hkeep _ preserves_exit Hrun) as [H1 H2].
    split; [ destruct univ_pfs_mutex; exact H1 | exact H2 ].
Qed.

(** Through any sequence of calls of [init], [destroy], [enter], [trylock]
    and [exit] that return, whatever the implementation, [m_ptr] is the
    handle that the last [init] registered, and null after a [destroy]; in a
    build without UNIV_PFS_MUTEX it is never written.  Only [pfs_add] and
    [pfs_del] write it.  The other threads do not write [m_ptr]. *)
Theorem pfs_handle_lifecycle (cs : list call) (w w' : world (t Impl)) :
  stable handle w ->
  run (steps cs) w = Returned tt w' ->
  m_ptr (w_state w') =
  (if univ_pfs_mutex then after (m_ptr (w_state w)) cs else m_ptr (w_state w)).
Proof.
  revert w. induction cs as [ | c cs IH ]; intros w Hst Hrun.
  - cbn in Hrun. injection Hrun as <-. destruct univ_pfs_mutex; reflexivity.
  - cbn [do_calls] in Hrun. rewrite run_bind in Hrun.
    destruct (run (step c) w) as [ [] w1 | w1 | w1 ] eqn:Hc; try discriminate Hrun.
    destruct (do_call_keeps_handle c w w1 Hst Hc) as [H1 Hst1].
    rewrite (IH w1 Hst1 Hrun), H1.
    destruct univ_pfs_mutex; [ | reflexivity ].
    destruct c; reflexivity.
Qed.

End WithImpl.

(** A TTASMutex behind the facade is registered, taken and released,
    destroyed, and registered again for another latch: its handle is the one
    of the second registration. *)
Lemma pfs_handle_lifecycle_witness :
  m_ptr
    (w_state
       (final_world
          (run (do_calls (TTASMutex_impl unit (Scenarios.no_policy _) true)
                  (Scenarios.no_policy _) true true (fun id => id + 100)
                  (fun key => 2 * key) Scenarios.no_psi MoreScenarios.registrations)
               MoreScenarios.unregistered_spin_mutex))) = 204.
Proof.
  assert (Hrun :
    run (do_calls (TTASMutex_impl unit (Scenarios.no_policy _) true)
           (Scenarios.no_policy _) true true (fun id => id + 100)
           (fun key => 2 * key) Scenarios.no_psi MoreScenarios.registrations)
        MoreScenarios.unregistered_spin_mutex =
    Returned tt
      (final_world
         (run (do_calls (TTASMutex_impl unit (Scenarios.no_policy _) true)
                 (Scenarios.no_policy _) true true (fun id => id + 100)
                 (fun key => 2 * key) Scenarios.no_psi MoreScenarios.registrations)
              MoreScenarios.unregistered_spin_mutex)))
    by (vm_compute; reflexivity).
  rewrite (pfs_handle_lifecycle unit (TTASMutex.t unit)
             (TTASMutex_impl unit (Scenarios.no_policy _) true)
             (Scenarios.no_policy _) true true (fun id => id + 100)
             (fun key => 2 * key) Scenarios.no_psi MoreScenarios.registrations
             MoreScenarios.unregistered_spin_mutex _ (Forall_nil _) Hrun).
  reflexivity.
Defined.

End PolicyMutexHandle.
(* ================================================================== *)
(** * A thread that runs alone *)

Module AloneFacts.
Import Exec ExecFacts Pool.

Lemma alone_bind {S A B : Type} (c : prog S A) (k : A -> prog S B) (s : S) :
  alone (bind c k) s =
  match alone c s with
  | Some (a, s') => alone (k a) s'
  | None => None
  end.
Proof.
  revert s. induction c as [ a | X shared f ev k' IH | | ]; intros s; cbn [bind alone];
    try reflexivity.
  destruct (f s) as [x s']. apply IH.
Qed.

(** A call that returns [a] in [s1], followed by [k]. *)
Lemma alone_bind_returned {S A B : Type} (c : prog S A) (k : A -> prog S B) (s s1 : S)
    (a : A) :
  alone c s = Some (a, s1) -> alone (bind c k) s = alone (k a) s1.
Proof. intros H. rewrite alone_bind, H. reflexivity. Qed.

(** The code of a member object runs on the member, and the owner gets the
    member back. *)
Lemma alone_zoom {S T A : Type} (proj : S -> T) (upd : T -> S -> S) (c : prog T A) (s : S) :
  (forall t s0, proj (upd t s0) = t) ->
  (forall t t' s0, upd t' (upd t s0) = upd t' s0) ->
  (forall s0, upd (proj s0) s0 = s0) ->
  alone (zoom proj upd c) s =
  match alone c (proj s) with
  | Some (a, t') => Some (a, upd t' s)
  | None => None
  end.
Proof.
  intros Hget Hput Hid. revert s.
  induction c as [ a | X shared f ev k IH | | ]; intros s; cbn [zoom alone];
    try reflexivity.
  - rewrite Hid. reflexivity.
  - destruct (f (proj s)) as [x t1]. rewrite IH, Hget.
    destruct (alone (k x) t1) as [ [a t'] | ]; [ rewrite Hput | ]; reflexivity.
Qed.

End AloneFacts.

(* ================================================================== *)
(** * The threads finish when they run one after the other *)

Module PoolProgress.
Import Exec Pool AloneFacts.

Lemma nth_error_set_nth {A : Type} (i : nat) (x y : A) (l : list A) :
  nth_error l i = Some y -> nth_error (set_nth i x l) i = Some x.
Proof.
  revert i. induction l as [ | z l IH ]; intros [ | i ] H; try discriminate H.
  - reflexivity.
  - cbn in *. apply IH. exact H.
Qed.

Lemma set_nth_twice {A : Type} (i : nat) (x y : A) (l : list A) :
  set_nth i x (set_nth i y l) = set_nth i x l.
Proof.
  revert i. induction l as [ | z l IH ]; intros [ | i ]; cbn; try reflexivity.
  rewrite IH. reflexivity.
Qed.

Lemma set_nth_same {A : Type} (i : nat) (x : A) (l : list A) :
  nth_error l i = Some x -> set_nth i x l = l.
Proof.
  revert i. induction l as [ | z l IH ]; intros [ | i ] H; try discriminate H.
  - cbn in *. congruence.
  - cbn in *. rewrite IH by exact H. reflexivity.
Qed.

Lemma set_nth_middle {A : Type} (x y : A) (l1 l2 : list A) :
  set_nth (List.length l1) x (l1 ++ y :: l2) = l1 ++ x :: l2.
Proof. induction l1 as [ | z l1 IH ]; cbn; [ | rewrite IH ]; reflexivity. Qed.

Lemma nth_error_middle {A : Type} (y : A) (l1 l2 : list A) :
  nth_error (l1 ++ y :: l2) (List.length l1) = Some y.
Proof. induction l1 as [ | z l1 IH ]; cbn; [ reflexivity | exact IH ]. Qed.

Section WithCode.
Variable S : Type.
Variable enter_code critical_code exit_code : prog S unit.

Local Abbreviation run_schedule' := (run_schedule enter_code critical_code exit_code)
  (only parsing).
Local Abbreviation step' := (step enter_code critical_code exit_code) (only parsing).
Local Abbreviation advance' := (advance enter_code critical_code exit_code) (only parsing).

Lemma run_schedule_app (l1 l2 : list nat) (c : config S) :
  run_schedule' (l1 ++ l2) c = run_schedule' l2 (run_schedule' l1 c).
Proof. unfold run_schedule. apply fold_left_app. Qed.

(** The thread [i] steps alone until its current call has returned: it is
    then at the beginning of its next call. *)
Lemma call_alone (c : prog S unit) (s s' : S) (ph : phase) (r i : nat)
    (pl : list (thread S)) :
  alone c s = Some (tt, s') ->
  nth_error pl i = Some (mk_thread ph c r) ->
  exists n,
    run_schedule' (repeat i n) (mk_config s pl) =
    mk_config s' (set_nth i (advance' (mk_thread ph (Ret tt) r)) pl).
Proof.
  revert s pl. induction c as [ [] | X shared f ev k IH | | ]; intros s pl Hrun Hnth;
    try discriminate Hrun.
  - cbn in Hrun. injection Hrun as <-. exists 1%nat.
    cbn [repeat run_schedule fold_left]. unfold step. cbn [pool shared_state].
    rewrite Hnth. reflexivity.
  - cbn [alone] in Hrun. destruct (f s) as [x s1] eqn:Hf.
    assert (Hstep : step' i (mk_config s pl) =
                    mk_config s1 (set_nth i (advance' (mk_thread ph (k x) r)) pl)).
    { unfold step. cbn [pool shared_state]. rewrite Hnth.
      unfold step_thread. cbn [th_code th_phase th_rounds]. rewrite Hf. reflexivity. }
    destruct (k x) as [ [] | X' shared' f' ev' k' | | ] eqn:Hk; try discriminate Hrun.
    + cbn in Hrun. injection Hrun as <-. exists 1%nat.
      cbn [repeat run_schedule fold_left]. exact Hstep.
    + rewrite <- Hk in Hrun.
      assert (Hadv : advance' (mk_thread ph (k x) r) = mk_thread ph (k x) r)
        by (rewrite Hk; reflexivity).
      rewrite <- Hk, Hadv in Hstep.
      destruct (IH x s1 (set_nth i (mk_thread ph (k x) r) pl) Hrun
                  (nth_error_set_nth i _ _ pl Hnth)) as (n & Hn).
      exists (Datatypes.S n). cbn [repeat run_schedule fold_left].
      fold (run_schedule' (repeat i n) (step' i (mk_config s pl))).
      rewrite Hstep, Hn, set_nth_twice. reflexivity.
Qed.

(** The states in which a round can begin. *)
Variable ready : S -> Prop.

(** From such a state the three calls of a round, made with no other thread
    in between, return, and the next round can begin. *)
Hypothesis round_returns : forall s, ready s ->
  exists s1 s2 s3,
    alone enter_code s = Some (tt, s1) /\
    alone critical_code s1 = Some (tt, s2) /\
    alone exit_code s2 = Some (tt, s3) /\
    ready s3.

Lemma round_alone (s : S) (r i : nat) (pl : list (thread S)) :
  ready s ->
  nth_error pl i = Some (mk_thread Entering enter_code r) ->
  exists n s',
    ready s' /\
    run_schedule' (repeat i n) (mk_config s pl) =
    mk_config s' (set_nth i (start enter_code r) pl).
Proof.
  intros Hs Hnth.
  destruct (round_returns s Hs) as (s1 & s2 & s3 & He & Hc & Hx & Hs3).
  destruct (call_alone _ _ _ Entering r i pl He Hnth) as (n1 & H1).
  cbn [advance th_code th_phase th_rounds] in H1.
  destruct (call_alone _ _ _ InCritical r i _ Hc (nth_error_set_nth i _ _ pl Hnth))
    as (n2 & H2).
  cbn [advance th_code th_phase th_rounds] in H2. rewrite set_nth_twice in H2.
  destruct (call_alone _ _ _ Exiting r i _ Hx (nth_error_set_nth i _ _ pl Hnth))
    as (n3 & H3).
  cbn [advance th_code th_phase th_rounds] in H3. rewrite set_nth_twice in H3.
  exists (n1 + (n2 + n3))%nat, s3. split; [ exact Hs3 | ].
  rewrite !repeat_app, !run_schedule_app, H1, H2, H3.
  destruct r; reflexivity.
Qed.

(** A thread runs all its rounds alone. *)
Lemma thread_alone (K : nat) (s : S) (i : nat) (pl : list (thread S)) :
  ready s ->
  nth_error pl i = Some (start enter_code K) ->
  exists n s',
    ready s' /\
    run_schedule' (repeat i n) (mk_config s pl) =
    mk_config s' (set_nth i (mk_thread Finished (Ret tt) O) pl).
Proof.
  revert s pl. induction K as [ | K IH ]; intros s pl Hs Hnth.
  - exists 0%nat, s. split; [ exact Hs | ].
    cbn [repeat run_schedule fold_left]. cbn [start] in Hnth.
    rewrite (set_nth_same i _ pl Hnth). reflexivity.
  - cbn [start] in Hnth.
    destruct (round_alone s K i pl Hs Hnth) as (n1 & s1 & Hs1 & H1).
    destruct (IH s1 _ Hs1 (nth_error_set_nth i _ _ pl Hnth)) as (n2 & s2 & Hs2 & H2).
    rewrite set_nth_twice in H2.
    exists (n1 + n2)%nat, s2. split; [ exact Hs2 | ].
    rewrite repeat_app, run_schedule_app, H1, H2. reflexivity.
Qed.

(** The threads run one after the other. *)
Lemma threads_in_turn (K : nat) (rest done : list (thread S)) (s : S) :
  ready s ->
  forallb finished done = true ->
  Forall (fun t => t = start enter_code K) rest ->
  exists schedule,
    all_finished (run_schedule' schedule (mk_config s (done ++ rest))) = true.
Proof.
  revert done s. induction rest as [ | t rest IH ]; intros done s Hs Hdone Hrest.
  - exists []. cbn [run_schedule fold_left]. unfold all_finished. cbn [pool].
    rewrite app_nil_r. exact Hdone.
  - inversion Hrest as [ | ? ? Ht Hrest' ]; subst.
    destruct (thread_alone K s (List.length done) (done ++ start enter_code K :: rest) Hs
                (nth_error_middle _ done rest)) as (n & s1 & Hs1 & H1).
    rewrite set_nth_middle in H1.
    destruct (IH (done ++ [mk_thread Finished (Ret tt) O]) s1 Hs1) as (sched & Hfin).
    { rewrite forallb_app, Hdone. reflexivity. }
    { exact Hrest'. }
    rewrite <- app_assoc in Hfin. cbn [app] in Hfin.
    exists (repeat (List.length done) n ++ sched).
    rewrite run_schedule_app, H1. exact Hfin.
Qed.

(** From a state in which a round can begin, some schedule lets all the
    threads finish. *)
Lemma some_schedule_finishes (s : S) (N K : nat) :
  ready s ->
  exists schedule,
    all_finished (run_schedule' schedule (initial enter_code s N K)) = true.
Proof.
  intros Hs. unfold initial.
  apply (threads_in_turn K (repeat (start enter_code K) N) [] s Hs eq_refl).
  apply Forall_forall. intros t Ht. apply repeat_spec in Ht. exact Ht.
Qed.

End WithCode.

End PoolProgress.

(* ================================================================== *)
(** * A round of enter, increment and exit with no other thread *)

Module RoundAlone.
Import Exec ExecFacts Sync Pool PolicyMutex Workers Implementations AloneFacts.

Section WithPolicy.
Variable P : Type.
Variable hooks : forall i, policy_hooks P (state P i).
Variable univ_debug innodb_calling_exit univ_pfs_mutex : bool.
Variable new_event : Z.
Variable psi_start_mutex_wait : Z -> psi_mutex_operation -> string -> Z -> Z.
Variable fuel : nat.
Variable n_spins n_delay : Z.
Variable name : string.
Variable line : Z.

Local Abbreviation impl' := (impl P hooks univ_debug innodb_calling_exit new_event)
  (only parsing).
Local Abbreviation holding' := (holding P univ_debug) (only parsing).

Lemma usable_set_policy (i : implementation) (p : P) (m : state P i) :
  usable i (impl_set_policy (impl' i) p m) = usable i m.
Proof. destruct i; reflexivity. Qed.

Lemma holding_set_policy (i : implementation) (p : P) (m : state P i) :
  holding' i (impl_set_policy (impl' i) p m) = holding' i m.
Proof. destruct i; reflexivity. Qed.

(** [enter] of each implementation on the free mutex returns, and has taken
    it. *)
Lemma impl_enter_alone (i : implementation) (m : state P i) :
  usable i m = true -> (0 < fuel)%nat ->
  exists m1,
    alone (impl_enter (impl' i) fuel n_spins n_delay name line) m = Some (tt, m1) /\
    holding' i m1 = true.
Proof.
  intros Hm Hfuel. destruct fuel as [ | fuel' ]; [ lia | ]. clear Hfuel.
  destruct i; cbn [usable state] in Hm; cbn [impl impl_enter OSTrackMutex_impl TTASMutex_impl
                                               TTASFutexMutex_impl TTASEventMutex_impl].
  - destruct m as [fr lk dae [ol] p]. cbn in Hm.
    destruct fr, lk, ol; try discriminate Hm.
    destruct univ_debug, innodb_calling_exit; cbn; eexists;
      (split; [ reflexivity | reflexivity ]).
  - destruct m as [p lw]. cbn in Hm. apply Z.eqb_eq in Hm. subst lw.
    eexists. split; [ cbn; reflexivity | reflexivity ].
  - destruct m as [p lw]. cbn in Hm. apply Z.eqb_eq in Hm. subst lw.
    unfold TTASFutexMutex.enter.
    destruct (Z.to_nat n_spins) as [ | k ] eqn:Hk.
    + cbn [TTASFutexMutex.spin_loop].
      destruct (0 <? n_spins) eqn:Hlt; [ apply Z.ltb_lt in Hlt; lia | ].
      eexists. split; [ cbn; reflexivity | reflexivity ].
    + cbn [TTASFutexMutex.spin_loop].
      destruct (0 <? n_spins) eqn:Hlt; [ | apply Z.ltb_ge in Hlt; lia ].
      eexists. split; [ cbn; reflexivity | reflexivity ].
  - destruct m as [lw wt ev p]. cbn in Hm. apply Z.eqb_eq in Hm. subst lw.
    eexists. split; [ cbn; reflexivity | reflexivity ].
Qed.

(** [exit] of each implementation on the mutex that [enter] took returns,
    and has freed it. *)
Lemma impl_exit_alone (i : implementation) (m : state P i) :
  holding' i m = true ->
  exists m2, alone (impl_exit (impl' i)) m = Some (tt, m2) /\ usable i m2 = true.
Proof.
  intros Hm.
  destruct i; cbn [holding state] in Hm; cbn [impl impl_exit OSTrackMutex_impl TTASMutex_impl
                                                TTASFutexMutex_impl TTASEventMutex_impl].
  - destruct m as [fr lk dae [ol] p]. cbn in Hm.
    destruct fr, ol; try (destruct lk, univ_debug; discriminate Hm).
    destruct lk, univ_debug; try discriminate Hm;
      destruct innodb_calling_exit; cbn; eexists; (split; [ reflexivity | reflexivity ]).
  - destruct m as [p lw]. cbn in Hm. apply Z.eqb_eq in Hm. subst lw.
    destruct univ_debug; eexists; (split; [ cbn; reflexivity | reflexivity ]).
  - destruct m as [p lw]. cbn in Hm.
    unfold TTASFutexMutex.exit, my_atomic_fas32_explicit, atomically.
    cbn [bind alone TTASFutexMutex.m_lock_word].
    destruct (lw =? MUTEX_STATE_WAITERS); eexists; (split; [ cbn; reflexivity | reflexivity ]).
  - destruct m as [lw wt ev p]. cbn in Hm. apply Z.eqb_eq in Hm. subst lw.
    unfold TTASEventMutex.exit, TTASEventMutex.tas_unlock, my_atomic_storelong,
      read_word, atomically.
    cbn [bind alone TTASEventMutex.m_waiters TTASEventMutex.set_lock_word].
    destruct (negb (wt =? 0)); eexists; (split; [ cbn; reflexivity | reflexivity ]).
Qed.

Lemma set_impl_get {Impl : Type} (t : Impl) (m : PolicyMutex.t Impl) :
  m_impl (set_impl t m) = t.
Proof. reflexivity. Qed.

Lemma set_impl_set {Impl : Type} (t t' : Impl) (m : PolicyMutex.t Impl) :
  set_impl t' (set_impl t m) = set_impl t' m.
Proof. reflexivity. Qed.

Lemma set_impl_id {Impl : Type} (m : PolicyMutex.t Impl) : set_impl (m_impl m) m = m.
Proof. destruct m. reflexivity. Qed.

Lemma call_policy_alone {Impl : Type} (I : mutex_impl P Impl) (ev : event)
    (hook : Impl -> P -> P) (m : PolicyMutex.t Impl) :
  alone (call_policy I ev hook) m =
  Some (tt, set_impl (impl_set_policy I (hook (m_impl m) (policy I m)) (m_impl m)) m).
Proof. reflexivity. Qed.

Lemma pfs_begin_lock_alone {Impl : Type} (m : PolicyMutex.t Impl) :
  exists locker,
    alone (ifdef_pfs univ_pfs_mutex (pfs_begin_lock psi_start_mutex_wait name line) 0) m =
    Some (locker, m).
Proof.
  unfold ifdef_pfs. destruct univ_pfs_mutex; [ | eexists; reflexivity ].
  unfold pfs_begin_lock. cbn [bind get alone].
  destruct (negb (m_ptr m =? 0)); eexists; reflexivity.
Qed.

Lemma pfs_end_alone {Impl : Type} (locker rc : Z) (m : PolicyMutex.t Impl) :
  alone (ifdef_pfs univ_pfs_mutex (pfs_end locker rc) tt) m = Some (tt, m).
Proof.
  unfold ifdef_pfs. destruct univ_pfs_mutex; [ | reflexivity ].
  unfold pfs_end. destruct (negb (locker =? 0)); reflexivity.
Qed.

Lemma pfs_exit_alone {Impl : Type} (m : PolicyMutex.t Impl) :
  alone (ifdef_pfs univ_pfs_mutex pfs_exit tt) m = Some (tt, m).
Proof.
  unfold ifdef_pfs. destruct univ_pfs_mutex; [ | reflexivity ].
  unfold pfs_exit. cbn [bind get alone].
  destruct (negb (m_ptr m =? 0)); reflexivity.
Qed.

(** [PolicyMutex::enter] on the free mutex returns, and has taken it. *)
Lemma facade_enter_alone (i : implementation) (m : PolicyMutex.t (state P i)) :
  usable i (m_impl m) = true -> (0 < fuel)%nat ->
  exists m1,
    alone (PolicyMutex.enter (impl' i) (hooks i) univ_pfs_mutex psi_start_mutex_wait
             fuel n_spins n_delay name line) m = Some (tt, m1) /\
    holding' i (m_impl m1) = true.
Proof.
  intros Hm Hfuel. unfold PolicyMutex.enter.
  destruct (pfs_begin_lock_alone m) as (locker & Hbegin).
  rewrite (alone_bind_returned _ _ _ _ _ Hbegin).
  rewrite (alone_bind_returned _ _ _ _ _ (call_policy_alone _ _ _ _)).
  rewrite alone_bind, alone_zoom
    by (intros; try reflexivity; apply set_impl_id).
  rewrite set_impl_get.
  destruct (impl_enter_alone i (impl_set_policy (impl' i)
                                  (pol_enter (hooks i) (m_impl m) name line
                                     (policy (impl' i) m)) (m_impl m)))
    as (t1 & Henter & Hheld);
    [ rewrite usable_set_policy; exact Hm | exact Hfuel | ].
  rewrite Henter.
  rewrite (alone_bind_returned _ _ _ _ _ (call_policy_alone _ _ _ _)).
  rewrite pfs_end_alone. eexists. split; [ reflexivity | ].
  cbn [m_impl set_impl]. rewrite holding_set_policy. exact Hheld.
Qed.

(** [PolicyMutex::exit] on the mutex that [enter] took returns, and has
    freed it. *)
Lemma facade_exit_alone (i : implementation) (m : PolicyMutex.t (state P i)) :
  holding' i (m_impl m) = true ->
  exists m2,
    alone (PolicyMutex.exit (impl' i) (hooks i) univ_pfs_mutex) m = Some (tt, m2) /\
    usable i (m_impl m2) = true.
Proof.
  intros Hm. unfold PolicyMutex.exit.
  rewrite (alone_bind_returned _ _ _ _ _ (pfs_exit_alone m)).
  rewrite (alone_bind_returned _ _ _ _ _ (call_policy_alone _ _ _ _)).
  rewrite alone_zoom by (intros; try reflexivity; apply set_impl_id).
  rewrite set_impl_get.
  destruct (impl_exit_alone i (impl_set_policy (impl' i)
                                 (pol_release (hooks i) (m_impl m) (policy (impl' i) m))
                                 (m_impl m)))
    as (t2 & Hexit & Hfree);
    [ rewrite holding_set_policy; exact Hm | ].
  rewrite Hexit. eexists. split; [ reflexivity | exact Hfree ].
Qed.

(** A round of a thread of the testable properties, from the free mutex:
    the three calls return and the mutex is free again. *)
Lemma workers_round_returns (i : implementation) (s : shared (state P i)) :
  (0 < fuel)%nat ->
  usable i (m_impl (mtx s)) = true ->
  exists s1 s2 s3,
    alone (enter_code (impl' i) (hooks i) univ_pfs_mutex psi_start_mutex_wait fuel
             n_spins n_delay name line) s = Some (tt, s1) /\
    alone increment s1 = Some (tt, s2) /\
    alone (exit_code (impl' i) (hooks i) univ_pfs_mutex) s2 = Some (tt, s3) /\
    usable i (m_impl (mtx s3)) = true.
Proof.
  intros Hfuel Hs.
  assert (Hid : forall s0 : shared (state P i), set_mtx (mtx s0) s0 = s0)
    by (intros [m0 x0]; reflexivity).
  destruct (facade_enter_alone i (mtx s) Hs Hfuel) as (m1 & Henter & Hheld).
  destruct (facade_exit_alone i m1 Hheld) as (m2 & Hexit & Hfree).
  exists (set_mtx m1 s), (set_x (x s + 1) (set_mtx m1 s)),
         (set_mtx m2 (set_x (x s + 1) (set_mtx m1 s))).
  split; [ | split; [ reflexivity | split; [ | exact Hfree ] ] ].
  - unfold enter_code. rewrite alone_zoom by (intros; try reflexivity; apply Hid).
    rewrite Henter. reflexivity.
  - unfold exit_code. rewrite alone_zoom by (intros; try reflexivity; apply Hid).
    cbn [mtx set_x set_mtx]. rewrite Hexit. reflexivity.
Qed.

End WithPolicy.

End RoundAlone.

(* ================================================================== *)
(** * Mutual exclusion for the four implementations *)

Module MutualExclusion.
Import Exec Sync Outline Pool PolicyMutex Workers Implementations.

Section WithPolicy.
Variable P : Type.
Variable hooks : forall i, policy_hooks P (state P i).
Variable univ_debug innodb_calling_exit univ_pfs_mutex : bool.
Variable new_event : Z.
Variable psi_start_mutex_wait : Z -> psi_mutex_operation -> string -> Z -> Z.
Variable fuel : nat.
Variable n_spins n_delay : Z.
Variable name : string.
Variable line : Z.

Local Abbreviation impl' := (impl P hooks univ_debug innodb_calling_exit new_event)
  (only parsing).

(** C1.  [N] threads (any [N], so every [N >= 2]) each run [enter], the
    increment of the shared counter and [exit] [K] times on one mutex of any
    of the implementations D, E, F and G behind the PolicyMutex facade, the
    mutex free at the start.  In every configuration the threads reach, under
    every schedule of their atomic actions, at most one thread is inside its
    critical section, and when all threads have finished the counter is
    [N * K].  And the threads can finish: when the mutex is initialised and
    [enter] is given the time for one look at it, some schedule lets all
    [N] threads acquire and release the mutex [K] times each and finish,
    with the counter at [N * K]. *)
Theorem mutual_exclusion (i : implementation) (m : PolicyMutex.t (state P i)) (N K : nat)
    (schedule : list nat) :
  taken i (m_impl m) = false ->
  let sys := system (impl' i) (hooks i) univ_pfs_mutex psi_start_mutex_wait fuel n_spins
               n_delay name line m N K in
  let c := run_threads (impl' i) (hooks i) univ_pfs_mutex psi_start_mutex_wait fuel n_spins
             n_delay name line schedule sys in
  (holders c <= 1)%nat /\
  (all_finished c = true -> x (shared_state c) = Z.of_nat N * Z.of_nat K) /\
  (usable i (m_impl m) = true -> (0 < fuel)%nat ->
   exists finishing,
     let c' := run_threads (impl' i) (hooks i) univ_pfs_mutex psi_start_mutex_wait fuel
                 n_spins n_delay name line finishing sys in
     all_finished c' = true /\ x (shared_state c') = Z.of_nat N * Z.of_nat K).
Proof.
  intros Hfree. cbv zeta.
  assert (Hsafe : forall sched,
            let c := run_threads (impl' i) (hooks i) univ_pfs_mutex psi_start_mutex_wait
                       fuel n_spins n_delay name line sched
                       (system (impl' i) (hooks i) univ_pfs_mutex psi_start_mutex_wait
                          fuel n_spins n_delay name line m N K) in
            (holders c <= 1)%nat /\
            (all_finished c = true -> x (shared_state c) = Z.of_nat N * Z.of_nat K)).
  { intros sched.
    apply (WorkersFacts.workers_mutual_exclusion P (state P i) (impl' i) (hooks i)
             univ_pfs_mutex psi_start_mutex_wait fuel n_spins n_delay name line (taken i)).
    - apply ImplementationOutlines.implementation_set_policy.
    - apply ImplementationOutlines.implementation_enter_outline.
    - apply ImplementationOutlines.implementation_exit_outline.
    - exact Hfree. }
  cbv zeta in Hsafe.
  split; [ exact (proj1 (Hsafe schedule)) | ].
  split; [ exact (proj2 (Hsafe schedule)) | ].
  intros Husable Hfuel.
  destruct (PoolProgress.some_schedule_finishes (shared (state P i))
              (enter_code (impl' i) (hooks i) univ_pfs_mutex psi_start_mutex_wait fuel
                 n_spins n_delay name line)
              increment
              (exit_code (impl' i) (hooks i) univ_pfs_mutex)
              (fun s => usable i (m_impl (mtx s)) = true)
              (fun s Hs =>
                 RoundAlone.workers_round_returns P hooks univ_debug innodb_calling_exit
                   univ_pfs_mutex new_event psi_start_mutex_wait fuel n_spins n_delay
                   name line i s Hfuel Hs)
              (mk_shared m 0) N K Husable) as (finishing & Hfin).
  exists finishing. split; [ exact Hfin | ].
  exact (proj2 (Hsafe finishing) Hfin).
Qed.

End WithPolicy.

(** Two threads of two rounds on a TTASEventMutex: under every schedule at
    most one is inside its critical section, and under some schedule both
    finish, with the counter at 4. *)
Lemma mutual_exclusion_witness :
  taken G (m_impl (Scenarios.free_mutex G)) = false /\
  usable G (m_impl (Scenarios.free_mutex G)) = true /\
  (forall schedule,
     let c := Scenarios.two_threads G schedule in
     (holders c <= 1)%nat /\
     (all_finished c = true -> x (shared_state c) = Z.of_nat 2 * Z.of_nat 2)) /\
  exists finishing,
    let c := Scenarios.two_threads G finishing in
    all_finished c = true /\ x (shared_state c) = Z.of_nat 2 * Z.of_nat 2.
Proof.
  split; [ reflexivity | ]. split; [ reflexivity | ].
  split.
  - intros schedule.
    destruct (mutual_exclusion unit Scenarios.no_policies true false true 7 Scenarios.no_psi
                20 2 1 "sync0sync.cc" 1 G (Scenarios.free_mutex G) 2 2 schedule eq_refl)
      as (Hone & Hcount & _).
    split; [ exact Hone | exact Hcount ].
  - exact (proj2 (proj2 (mutual_exclusion unit Scenarios.no_policies true false true 7
                           Scenarios.no_psi 20 2 1 "sync0sync.cc" 1 G
                           (Scenarios.free_mutex G) 2 2 [] eq_refl))
             eq_refl ltac:(lia)).
Defined.

(** A schedule under which they finish: when the two threads take turns,
    they have all finished after sixty actions each, with every
    implementation, and the counter is 4. *)
Lemma alternating_threads_finish (i : implementation) :
  let c := Scenarios.two_threads i (Scenarios.alternate 60) in
  all_finished c = true /\ x (shared_state c) = 4.
Proof. destruct i; vm_compute; split; reflexivity. Qed.

(** Before that, one of them is inside its critical section. *)
Lemma alternating_threads_hold :
  holders (Scenarios.two_threads E (Scenarios.alternate 20)) = 1%nat.
Proof. vm_compute. reflexivity. Qed.

End MutualExclusion.
